(** * c3dl: resumable transfer and reconciliation engine

    A shallow embedding of the core of [c3dl.py]: the file-name sanitizer,
    the title normalizer, the similarity matcher, the cleanup pass, the
    resumable transfer engine ([download_file]) and the canonical-set
    reconciliation ([download_releases]).

    Conventions of the embedding.
    - A Python [str] is a list of Unicode code points ([list Z]); a Python
      [bytes] object is a list of byte values ([list Z], each in 0..255).
    - Python [int] is [Z].
    - The file system and the HTTP server are explicit: a finite map from
      paths to file contents, and an oracle answering each request.
    - The comparison [actual < size * 0.99] is evaluated as the source
      does, in double precision; up to [2^46] it is the exact test
      [100 * actual < 99 * size]. *)

From Stdlib Require Import ZArith QArith Lia List Bool String Ascii.
From stdpp Require Import base option list gmap.
Import ListNotations.

Local Open Scope Z_scope.

(** ** Python strings *)

Module PyStr.

(** A [str] is a sequence of code points. *)
Definition pystr := list Z.

(** Code points that a [str] can be encoded from: Unicode scalar values. *)
Definition is_scalar (c : Z) : bool :=
  (0 <=? c) && (c <? 0x110000) && negb ((0xD800 <=? c) && (c <=? 0xDFFF)).

(** An ASCII literal of the development as a [str]. *)
Definition str_of (s : string) : pystr :=
  map (fun a => Z.of_N (N_of_ascii a)) (list_ascii_of_string s).

(** [x in s] for a single character [x]. *)
Definition contains (x : Z) (s : pystr) : bool := existsb (Z.eqb x) s.

(** [s[:n]] on a sequence, with Python's meaning of a negative bound. *)
Definition slice_to {A} (n : Z) (s : list A) : list A :=
  if 0 <=? n then firstn (Z.to_nat n) s
  else firstn (Z.to_nat (Z.of_nat (length s) + n)) s.

(** [len(s)] *)
Definition len {A} (s : list A) : Z := Z.of_nat (length s).

(** *** Character data

    The tables are those of the Unicode database of CPython 3.11
    (Unicode 14.0.0), as ranges of code points. *)

Definition in_table (t : list (Z * Z)) (c : Z) : bool :=
  existsb (fun r => (fst r <=? c) && (c <=? snd r)) t.

(** [str.isspace] of one character, also the class [\s] of [re]. *)
Definition is_space (c : Z) : bool :=
  ((9 <=? c) && (c <=? 13)) || ((28 <=? c) && (c <=? 32))
  || (c =? 0x85) || (c =? 0xA0) || (c =? 0x1680)
  || ((0x2000 <=? c) && (c <=? 0x200A))
  || (c =? 0x2028) || (c =? 0x2029) || (c =? 0x202F) || (c =? 0x205F)
  || (c =? 0x3000).

(** The code points [c] for which [chr(c).isalnum()] holds, as ranges. *)
Definition alnum_table : list (Z * Z) :=
  [(0x30, 0x39); (0x41, 0x5A); (0x61, 0x7A); (0xAA, 0xAA); (0xB2, 0xB3);
   (0xB5, 0xB5); (0xB9, 0xBA); (0xBC, 0xBE); (0xC0, 0xD6); (0xD8, 0xF6);
   (0xF8, 0x2C1); (0x2C6, 0x2D1); (0x2E0, 0x2E4); (0x2EC, 0x2EC);
   (0x2EE, 0x2EE); (0x370, 0x374); (0x376, 0x377); (0x37A, 0x37D);
   (0x37F, 0x37F); (0x386, 0x386); (0x388, 0x38A); (0x38C, 0x38C);
   (0x38E, 0x3A1); (0x3A3, 0x3F5); (0x3F7, 0x481); (0x48A, 0x52F);
   (0x531, 0x556); (0x559, 0x559); (0x560, 0x588); (0x5D0, 0x5EA);
   (0x5EF, 0x5F2); (0x620, 0x64A); (0x660, 0x669); (0x66E, 0x66F);
   (0x671, 0x6D3); (0x6D5, 0x6D5); (0x6E5, 0x6E6); (0x6EE, 0x6FC);
   (0x6FF, 0x6FF); (0x710, 0x710); (0x712, 0x72F); (0x74D, 0x7A5);
   (0x7B1, 0x7B1); (0x7C0, 0x7EA); (0x7F4, 0x7F5); (0x7FA, 0x7FA);
   (0x800, 0x815); (0x81A, 0x81A); (0x824, 0x824); (0x828, 0x828);
   (0x840, 0x858); (0x860, 0x86A); (0x870, 0x887); (0x889, 0x88E);
   (0x8A0, 0x8C9); (0x904, 0x939); (0x93D, 0x93D); (0x950, 0x950);
   (0x958, 0x961); (0x966, 0x96F); (0x971, 0x980); (0x985, 0x98C);
   (0x98F, 0x990); (0x993, 0x9A8); (0x9AA, 0x9B0); (0x9B2, 0x9B2);
   (0x9B6, 0x9B9); (0x9BD, 0x9BD); (0x9CE, 0x9CE); (0x9DC, 0x9DD);
   (0x9DF, 0x9E1); (0x9E6, 0x9F1); (0x9F4, 0x9F9); (0x9FC, 0x9FC);
   (0xA05, 0xA0A); (0xA0F, 0xA10); (0xA13, 0xA28); (0xA2A, 0xA30);
   (0xA32, 0xA33); (0xA35, 0xA36); (0xA38, 0xA39); (0xA59, 0xA5C);
   (0xA5E, 0xA5E); (0xA66, 0xA6F); (0xA72, 0xA74); (0xA85, 0xA8D);
   (0xA8F, 0xA91); (0xA93, 0xAA8); (0xAAA, 0xAB0); (0xAB2, 0xAB3);
   (0xAB5, 0xAB9); (0xABD, 0xABD); (0xAD0, 0xAD0); (0xAE0, 0xAE1);
   (0xAE6, 0xAEF); (0xAF9, 0xAF9); (0xB05, 0xB0C); (0xB0F, 0xB10);
   (0xB13, 0xB28); (0xB2A, 0xB30); (0xB32, 0xB33); (0xB35, 0xB39);
   (0xB3D, 0xB3D); (0xB5C, 0xB5D); (0xB5F, 0xB61); (0xB66, 0xB6F);
   (0xB71, 0xB77); (0xB83, 0xB83); (0xB85, 0xB8A); (0xB8E, 0xB90);
   (0xB92, 0xB95); (0xB99, 0xB9A); (0xB9C, 0xB9C); (0xB9E, 0xB9F);
   (0xBA3, 0xBA4); (0xBA8, 0xBAA); (0xBAE, 0xBB9); (0xBD0, 0xBD0);
   (0xBE6, 0xBF2); (0xC05, 0xC0C); (0xC0E, 0xC10); (0xC12, 0xC28);
   (0xC2A, 0xC39); (0xC3D, 0xC3D); (0xC58, 0xC5A); (0xC5D, 0xC5D);
   (0xC60, 0xC61); (0xC66, 0xC6F); (0xC78, 0xC7E); (0xC80, 0xC80);
   (0xC85, 0xC8C); (0xC8E, 0xC90); (0xC92, 0xCA8); (0xCAA, 0xCB3);
   (0xCB5, 0xCB9); (0xCBD, 0xCBD); (0xCDD, 0xCDE); (0xCE0, 0xCE1);
   (0xCE6, 0xCEF); (0xCF1, 0xCF2); (0xD04, 0xD0C); (0xD0E, 0xD10);
   (0xD12, 0xD3A); (0xD3D, 0xD3D); (0xD4E, 0xD4E); (0xD54, 0xD56);
   (0xD58, 0xD61); (0xD66, 0xD78); (0xD7A, 0xD7F); (0xD85, 0xD96);
   (0xD9A, 0xDB1); (0xDB3, 0xDBB); (0xDBD, 0xDBD); (0xDC0, 0xDC6);
   (0xDE6, 0xDEF); (0xE01, 0xE30); (0xE32, 0xE33); (0xE40, 0xE46);
   (0xE50, 0xE59); (0xE81, 0xE82); (0xE84, 0xE84); (0xE86, 0xE8A);
   (0xE8C, 0xEA3); (0xEA5, 0xEA5); (0xEA7, 0xEB0); (0xEB2, 0xEB3);
   (0xEBD, 0xEBD); (0xEC0, 0xEC4); (0xEC6, 0xEC6); (0xED0, 0xED9);
   (0xEDC, 0xEDF); (0xF00, 0xF00); (0xF20, 0xF33); (0xF40, 0xF47);
   (0xF49, 0xF6C); (0xF88, 0xF8C); (0x1000, 0x102A); (0x103F, 0x1049);
   (0x1050, 0x1055); (0x105A, 0x105D); (0x1061, 0x1061); (0x1065, 0x1066);
   (0x106E, 0x1070); (0x1075, 0x1081); (0x108E, 0x108E); (0x1090, 0x1099);
   (0x10A0, 0x10C5); (0x10C7, 0x10C7); (0x10CD, 0x10CD); (0x10D0, 0x10FA);
   (0x10FC, 0x1248); (0x124A, 0x124D); (0x1250, 0x1256); (0x1258, 0x1258);
   (0x125A, 0x125D); (0x1260, 0x1288); (0x128A, 0x128D); (0x1290, 0x12B0);
   (0x12B2, 0x12B5); (0x12B8, 0x12BE); (0x12C0, 0x12C0); (0x12C2, 0x12C5);
   (0x12C8, 0x12D6); (0x12D8, 0x1310); (0x1312, 0x1315); (0x1318, 0x135A);
   (0x1369, 0x137C); (0x1380, 0x138F); (0x13A0, 0x13F5); (0x13F8, 0x13FD);
   (0x1401, 0x166C); (0x166F, 0x167F); (0x1681, 0x169A); (0x16A0, 0x16EA);
   (0x16EE, 0x16F8); (0x1700, 0x1711); (0x171F, 0x1731); (0x1740, 0x1751);
   (0x1760, 0x176C); (0x176E, 0x1770); (0x1780, 0x17B3); (0x17D7, 0x17D7);
   (0x17DC, 0x17DC); (0x17E0, 0x17E9); (0x17F0, 0x17F9); (0x1810, 0x1819);
   (0x1820, 0x1878); (0x1880, 0x1884); (0x1887, 0x18A8); (0x18AA, 0x18AA);
   (0x18B0, 0x18F5); (0x1900, 0x191E); (0x1946, 0x196D); (0x1970, 0x1974);
   (0x1980, 0x19AB); (0x19B0, 0x19C9); (0x19D0, 0x19DA); (0x1A00, 0x1A16);
   (0x1A20, 0x1A54); (0x1A80, 0x1A89); (0x1A90, 0x1A99); (0x1AA7, 0x1AA7);
   (0x1B05, 0x1B33); (0x1B45, 0x1B4C); (0x1B50, 0x1B59); (0x1B83, 0x1BA0);
   (0x1BAE, 0x1BE5); (0x1C00, 0x1C23); (0x1C40, 0x1C49); (0x1C4D, 0x1C7D);
   (0x1C80, 0x1C88); (0x1C90, 0x1CBA); (0x1CBD, 0x1CBF); (0x1CE9, 0x1CEC);
   (0x1CEE, 0x1CF3); (0x1CF5, 0x1CF6); (0x1CFA, 0x1CFA); (0x1D00, 0x1DBF);
   (0x1E00, 0x1F15); (0x1F18, 0x1F1D); (0x1F20, 0x1F45); (0x1F48, 0x1F4D);
   (0x1F50, 0x1F57); (0x1F59, 0x1F59); (0x1F5B, 0x1F5B); (0x1F5D, 0x1F5D);
   (0x1F5F, 0x1F7D); (0x1F80, 0x1FB4); (0x1FB6, 0x1FBC); (0x1FBE, 0x1FBE);
   (0x1FC2, 0x1FC4); (0x1FC6, 0x1FCC); (0x1FD0, 0x1FD3); (0x1FD6, 0x1FDB);
   (0x1FE0, 0x1FEC); (0x1FF2, 0x1FF4); (0x1FF6, 0x1FFC); (0x2070, 0x2071);
   (0x2074, 0x2079); (0x207F, 0x2089); (0x2090, 0x209C); (0x2102, 0x2102);
   (0x2107, 0x2107); (0x210A, 0x2113); (0x2115, 0x2115); (0x2119, 0x211D);
   (0x2124, 0x2124); (0x2126, 0x2126); (0x2128, 0x2128); (0x212A, 0x212D);
   (0x212F, 0x2139); (0x213C, 0x213F); (0x2145, 0x2149); (0x214E, 0x214E);
   (0x2150, 0x2189); (0x2460, 0x249B); (0x24EA, 0x24FF); (0x2776, 0x2793);
   (0x2C00, 0x2CE4); (0x2CEB, 0x2CEE); (0x2CF2, 0x2CF3); (0x2CFD, 0x2CFD);
   (0x2D00, 0x2D25); (0x2D27, 0x2D27); (0x2D2D, 0x2D2D); (0x2D30, 0x2D67);
   (0x2D6F, 0x2D6F); (0x2D80, 0x2D96); (0x2DA0, 0x2DA6); (0x2DA8, 0x2DAE);
   (0x2DB0, 0x2DB6); (0x2DB8, 0x2DBE); (0x2DC0, 0x2DC6); (0x2DC8, 0x2DCE);
   (0x2DD0, 0x2DD6); (0x2DD8, 0x2DDE); (0x2E2F, 0x2E2F); (0x3005, 0x3007);
   (0x3021, 0x3029); (0x3031, 0x3035); (0x3038, 0x303C); (0x3041, 0x3096);
   (0x309D, 0x309F); (0x30A1, 0x30FA); (0x30FC, 0x30FF); (0x3105, 0x312F);
   (0x3131, 0x318E); (0x3192, 0x3195); (0x31A0, 0x31BF); (0x31F0, 0x31FF);
   (0x3220, 0x3229); (0x3248, 0x324F); (0x3251, 0x325F); (0x3280, 0x3289);
   (0x32B1, 0x32BF); (0x3400, 0x4DBF); (0x4E00, 0xA48C); (0xA4D0, 0xA4FD);
   (0xA500, 0xA60C); (0xA610, 0xA62B); (0xA640, 0xA66E); (0xA67F, 0xA69D);
   (0xA6A0, 0xA6EF); (0xA717, 0xA71F); (0xA722, 0xA788); (0xA78B, 0xA7CA);
   (0xA7D0, 0xA7D1); (0xA7D3, 0xA7D3); (0xA7D5, 0xA7D9); (0xA7F2, 0xA801);
   (0xA803, 0xA805); (0xA807, 0xA80A); (0xA80C, 0xA822); (0xA830, 0xA835);
   (0xA840, 0xA873); (0xA882, 0xA8B3); (0xA8D0, 0xA8D9); (0xA8F2, 0xA8F7);
   (0xA8FB, 0xA8FB); (0xA8FD, 0xA8FE); (0xA900, 0xA925); (0xA930, 0xA946);
   (0xA960, 0xA97C); (0xA984, 0xA9B2); (0xA9CF, 0xA9D9); (0xA9E0, 0xA9E4);
   (0xA9E6, 0xA9FE); (0xAA00, 0xAA28); (0xAA40, 0xAA42); (0xAA44, 0xAA4B);
   (0xAA50, 0xAA59); (0xAA60, 0xAA76); (0xAA7A, 0xAA7A); (0xAA7E, 0xAAAF);
   (0xAAB1, 0xAAB1); (0xAAB5, 0xAAB6); (0xAAB9, 0xAABD); (0xAAC0, 0xAAC0);
   (0xAAC2, 0xAAC2); (0xAADB, 0xAADD); (0xAAE0, 0xAAEA); (0xAAF2, 0xAAF4);
   (0xAB01, 0xAB06); (0xAB09, 0xAB0E); (0xAB11, 0xAB16); (0xAB20, 0xAB26);
   (0xAB28, 0xAB2E); (0xAB30, 0xAB5A); (0xAB5C, 0xAB69); (0xAB70, 0xABE2);
   (0xABF0, 0xABF9); (0xAC00, 0xD7A3); (0xD7B0, 0xD7C6); (0xD7CB, 0xD7FB);
   (0xF900, 0xFA6D); (0xFA70, 0xFAD9); (0xFB00, 0xFB06); (0xFB13, 0xFB17);
   (0xFB1D, 0xFB1D); (0xFB1F, 0xFB28); (0xFB2A, 0xFB36); (0xFB38, 0xFB3C);
   (0xFB3E, 0xFB3E); (0xFB40, 0xFB41); (0xFB43, 0xFB44); (0xFB46, 0xFBB1);
   (0xFBD3, 0xFD3D); (0xFD50, 0xFD8F); (0xFD92, 0xFDC7); (0xFDF0, 0xFDFB);
   (0xFE70, 0xFE74); (0xFE76, 0xFEFC); (0xFF10, 0xFF19); (0xFF21, 0xFF3A);
   (0xFF41, 0xFF5A); (0xFF66, 0xFFBE); (0xFFC2, 0xFFC7); (0xFFCA, 0xFFCF);
   (0xFFD2, 0xFFD7); (0xFFDA, 0xFFDC); (0x10000, 0x1000B);
   (0x1000D, 0x10026); (0x10028, 0x1003A); (0x1003C, 0x1003D);
   (0x1003F, 0x1004D); (0x10050, 0x1005D); (0x10080, 0x100FA);
   (0x10107, 0x10133); (0x10140, 0x10178); (0x1018A, 0x1018B);
   (0x10280, 0x1029C); (0x102A0, 0x102D0); (0x102E1, 0x102FB);
   (0x10300, 0x10323); (0x1032D, 0x1034A); (0x10350, 0x10375);
   (0x10380, 0x1039D); (0x103A0, 0x103C3); (0x103C8, 0x103CF);
   (0x103D1, 0x103D5); (0x10400, 0x1049D); (0x104A0, 0x104A9);
   (0x104B0, 0x104D3); (0x104D8, 0x104FB); (0x10500, 0x10527);
   (0x10530, 0x10563); (0x10570, 0x1057A); (0x1057C, 0x1058A);
   (0x1058C, 0x10592); (0x10594, 0x10595); (0x10597, 0x105A1);
   (0x105A3, 0x105B1); (0x105B3, 0x105B9); (0x105BB, 0x105BC);
   (0x10600, 0x10736); (0x10740, 0x10755); (0x10760, 0x10767);
   (0x10780, 0x10785); (0x10787, 0x107B0); (0x107B2, 0x107BA);
   (0x10800, 0x10805); (0x10808, 0x10808); (0x1080A, 0x10835);
   (0x10837, 0x10838); (0x1083C, 0x1083C); (0x1083F, 0x10855);
   (0x10858, 0x10876); (0x10879, 0x1089E); (0x108A7, 0x108AF);
   (0x108E0, 0x108F2); (0x108F4, 0x108F5); (0x108FB, 0x1091B);
   (0x10920, 0x10939); (0x10980, 0x109B7); (0x109BC, 0x109CF);
   (0x109D2, 0x10A00); (0x10A10, 0x10A13); (0x10A15, 0x10A17);
   (0x10A19, 0x10A35); (0x10A40, 0x10A48); (0x10A60, 0x10A7E);
   (0x10A80, 0x10A9F); (0x10AC0, 0x10AC7); (0x10AC9, 0x10AE4);
   (0x10AEB, 0x10AEF); (0x10B00, 0x10B35); (0x10B40, 0x10B55);
   (0x10B58, 0x10B72); (0x10B78, 0x10B91); (0x10BA9, 0x10BAF);
   (0x10C00, 0x10C48); (0x10C80, 0x10CB2); (0x10CC0, 0x10CF2);
   (0x10CFA, 0x10D23); (0x10D30, 0x10D39); (0x10E60, 0x10E7E);
   (0x10E80, 0x10EA9); (0x10EB0, 0x10EB1); (0x10F00, 0x10F27);
   (0x10F30, 0x10F45); (0x10F51, 0x10F54); (0x10F70, 0x10F81);
   (0x10FB0, 0x10FCB); (0x10FE0, 0x10FF6); (0x11003, 0x11037);
   (0x11052, 0x1106F); (0x11071, 0x11072); (0x11075, 0x11075);
   (0x11083, 0x110AF); (0x110D0, 0x110E8); (0x110F0, 0x110F9);
   (0x11103, 0x11126); (0x11136, 0x1113F); (0x11144, 0x11144);
   (0x11147, 0x11147); (0x11150, 0x11172); (0x11176, 0x11176);
   (0x11183, 0x111B2); (0x111C1, 0x111C4); (0x111D0, 0x111DA);
   (0x111DC, 0x111DC); (0x111E1, 0x111F4); (0x11200, 0x11211);
   (0x11213, 0x1122B); (0x11280, 0x11286); (0x11288, 0x11288);
   (0x1128A, 0x1128D); (0x1128F, 0x1129D); (0x1129F, 0x112A8);
   (0x112B0, 0x112DE); (0x112F0, 0x112F9); (0x11305, 0x1130C);
   (0x1130F, 0x11310); (0x11313, 0x11328); (0x1132A, 0x11330);
   (0x11332, 0x11333); (0x11335, 0x11339); (0x1133D, 0x1133D);
   (0x11350, 0x11350); (0x1135D, 0x11361); (0x11400, 0x11434);
   (0x11447, 0x1144A); (0x11450, 0x11459); (0x1145F, 0x11461);
   (0x11480, 0x114AF); (0x114C4, 0x114C5); (0x114C7, 0x114C7);
   (0x114D0, 0x114D9); (0x11580, 0x115AE); (0x115D8, 0x115DB);
   (0x11600, 0x1162F); (0x11644, 0x11644); (0x11650, 0x11659);
   (0x11680, 0x116AA); (0x116B8, 0x116B8); (0x116C0, 0x116C9);
   (0x11700, 0x1171A); (0x11730, 0x1173B); (0x11740, 0x11746);
   (0x11800, 0x1182B); (0x118A0, 0x118F2); (0x118FF, 0x11906);
   (0x11909, 0x11909); (0x1190C, 0x11913); (0x11915, 0x11916);
   (0x11918, 0x1192F); (0x1193F, 0x1193F); (0x11941, 0x11941);
   (0x11950, 0x11959); (0x119A0, 0x119A7); (0x119AA, 0x119D0);
   (0x119E1, 0x119E1); (0x119E3, 0x119E3); (0x11A00, 0x11A00);
   (0x11A0B, 0x11A32); (0x11A3A, 0x11A3A); (0x11A50, 0x11A50);
   (0x11A5C, 0x11A89); (0x11A9D, 0x11A9D); (0x11AB0, 0x11AF8);
   (0x11C00, 0x11C08); (0x11C0A, 0x11C2E); (0x11C40, 0x11C40);
   (0x11C50, 0x11C6C); (0x11C72, 0x11C8F); (0x11D00, 0x11D06);
   (0x11D08, 0x11D09); (0x11D0B, 0x11D30); (0x11D46, 0x11D46);
   (0x11D50, 0x11D59); (0x11D60, 0x11D65); (0x11D67, 0x11D68);
   (0x11D6A, 0x11D89); (0x11D98, 0x11D98); (0x11DA0, 0x11DA9);
   (0x11EE0, 0x11EF2); (0x11FB0, 0x11FB0); (0x11FC0, 0x11FD4);
   (0x12000, 0x12399); (0x12400, 0x1246E); (0x12480, 0x12543);
   (0x12F90, 0x12FF0); (0x13000, 0x1342E); (0x14400, 0x14646);
   (0x16800, 0x16A38); (0x16A40, 0x16A5E); (0x16A60, 0x16A69);
   (0x16A70, 0x16ABE); (0x16AC0, 0x16AC9); (0x16AD0, 0x16AED);
   (0x16B00, 0x16B2F); (0x16B40, 0x16B43); (0x16B50, 0x16B59);
   (0x16B5B, 0x16B61); (0x16B63, 0x16B77); (0x16B7D, 0x16B8F);
   (0x16E40, 0x16E96); (0x16F00, 0x16F4A); (0x16F50, 0x16F50);
   (0x16F93, 0x16F9F); (0x16FE0, 0x16FE1); (0x16FE3, 0x16FE3);
   (0x17000, 0x187F7); (0x18800, 0x18CD5); (0x18D00, 0x18D08);
   (0x1AFF0, 0x1AFF3); (0x1AFF5, 0x1AFFB); (0x1AFFD, 0x1AFFE);
   (0x1B000, 0x1B122); (0x1B150, 0x1B152); (0x1B164, 0x1B167);
   (0x1B170, 0x1B2FB); (0x1BC00, 0x1BC6A); (0x1BC70, 0x1BC7C);
   (0x1BC80, 0x1BC88); (0x1BC90, 0x1BC99); (0x1D2E0, 0x1D2F3);
   (0x1D360, 0x1D378); (0x1D400, 0x1D454); (0x1D456, 0x1D49C);
   (0x1D49E, 0x1D49F); (0x1D4A2, 0x1D4A2); (0x1D4A5, 0x1D4A6);
   (0x1D4A9, 0x1D4AC); (0x1D4AE, 0x1D4B9); (0x1D4BB, 0x1D4BB);
   (0x1D4BD, 0x1D4C3); (0x1D4C5, 0x1D505); (0x1D507, 0x1D50A);
   (0x1D50D, 0x1D514); (0x1D516, 0x1D51C); (0x1D51E, 0x1D539);
   (0x1D53B, 0x1D53E); (0x1D540, 0x1D544); (0x1D546, 0x1D546);
   (0x1D54A, 0x1D550); (0x1D552, 0x1D6A5); (0x1D6A8, 0x1D6C0);
   (0x1D6C2, 0x1D6DA); (0x1D6DC, 0x1D6FA); (0x1D6FC, 0x1D714);
   (0x1D716, 0x1D734); (0x1D736, 0x1D74E); (0x1D750, 0x1D76E);
   (0x1D770, 0x1D788); (0x1D78A, 0x1D7A8); (0x1D7AA, 0x1D7C2);
   (0x1D7C4, 0x1D7CB); (0x1D7CE, 0x1D7FF); (0x1DF00, 0x1DF1E);
   (0x1E100, 0x1E12C); (0x1E137, 0x1E13D); (0x1E140, 0x1E149);
   (0x1E14E, 0x1E14E); (0x1E290, 0x1E2AD); (0x1E2C0, 0x1E2EB);
   (0x1E2F0, 0x1E2F9); (0x1E7E0, 0x1E7E6); (0x1E7E8, 0x1E7EB);
   (0x1E7ED, 0x1E7EE); (0x1E7F0, 0x1E7FE); (0x1E800, 0x1E8C4);
   (0x1E8C7, 0x1E8CF); (0x1E900, 0x1E943); (0x1E94B, 0x1E94B);
   (0x1E950, 0x1E959); (0x1EC71, 0x1ECAB); (0x1ECAD, 0x1ECAF);
   (0x1ECB1, 0x1ECB4); (0x1ED01, 0x1ED2D); (0x1ED2F, 0x1ED3D);
   (0x1EE00, 0x1EE03); (0x1EE05, 0x1EE1F); (0x1EE21, 0x1EE22);
   (0x1EE24, 0x1EE24); (0x1EE27, 0x1EE27); (0x1EE29, 0x1EE32);
   (0x1EE34, 0x1EE37); (0x1EE39, 0x1EE39); (0x1EE3B, 0x1EE3B);
   (0x1EE42, 0x1EE42); (0x1EE47, 0x1EE47); (0x1EE49, 0x1EE49);
   (0x1EE4B, 0x1EE4B); (0x1EE4D, 0x1EE4F); (0x1EE51, 0x1EE52);
   (0x1EE54, 0x1EE54); (0x1EE57, 0x1EE57); (0x1EE59, 0x1EE59);
   (0x1EE5B, 0x1EE5B); (0x1EE5D, 0x1EE5D); (0x1EE5F, 0x1EE5F);
   (0x1EE61, 0x1EE62); (0x1EE64, 0x1EE64); (0x1EE67, 0x1EE6A);
   (0x1EE6C, 0x1EE72); (0x1EE74, 0x1EE77); (0x1EE79, 0x1EE7C);
   (0x1EE7E, 0x1EE7E); (0x1EE80, 0x1EE89); (0x1EE8B, 0x1EE9B);
   (0x1EEA1, 0x1EEA3); (0x1EEA5, 0x1EEA9); (0x1EEAB, 0x1EEBB);
   (0x1F100, 0x1F10C); (0x1FBF0, 0x1FBF9); (0x20000, 0x2A6DF);
   (0x2A700, 0x2B738); (0x2B740, 0x2B81D); (0x2B820, 0x2CEA1);
   (0x2CEB0, 0x2EBE0); (0x2F800, 0x2FA1D); (0x30000, 0x3134A)].

(** The decimal digits (category Nd), as ranges; each range starts at a
    digit zero, and the digit at offset [k] has the value [k mod 10]. *)
Definition decimal_table : list (Z * Z) :=
  [(0x30, 0x39); (0x660, 0x669); (0x6F0, 0x6F9); (0x7C0, 0x7C9);
   (0x966, 0x96F); (0x9E6, 0x9EF); (0xA66, 0xA6F); (0xAE6, 0xAEF);
   (0xB66, 0xB6F); (0xBE6, 0xBEF); (0xC66, 0xC6F); (0xCE6, 0xCEF);
   (0xD66, 0xD6F); (0xDE6, 0xDEF); (0xE50, 0xE59); (0xED0, 0xED9);
   (0xF20, 0xF29); (0x1040, 0x1049); (0x1090, 0x1099); (0x17E0, 0x17E9);
   (0x1810, 0x1819); (0x1946, 0x194F); (0x19D0, 0x19D9); (0x1A80, 0x1A89);
   (0x1A90, 0x1A99); (0x1B50, 0x1B59); (0x1BB0, 0x1BB9); (0x1C40, 0x1C49);
   (0x1C50, 0x1C59); (0xA620, 0xA629); (0xA8D0, 0xA8D9); (0xA900, 0xA909);
   (0xA9D0, 0xA9D9); (0xA9F0, 0xA9F9); (0xAA50, 0xAA59); (0xABF0, 0xABF9);
   (0xFF10, 0xFF19); (0x104A0, 0x104A9); (0x10D30, 0x10D39);
   (0x11066, 0x1106F); (0x110F0, 0x110F9); (0x11136, 0x1113F);
   (0x111D0, 0x111D9); (0x112F0, 0x112F9); (0x11450, 0x11459);
   (0x114D0, 0x114D9); (0x11650, 0x11659); (0x116C0, 0x116C9);
   (0x11730, 0x11739); (0x118E0, 0x118E9); (0x11950, 0x11959);
   (0x11C50, 0x11C59); (0x11D50, 0x11D59); (0x11DA0, 0x11DA9);
   (0x16A60, 0x16A69); (0x16AC0, 0x16AC9); (0x16B50, 0x16B59);
   (0x1D7CE, 0x1D7FF); (0x1E140, 0x1E149); (0x1E2F0, 0x1E2F9);
   (0x1E950, 0x1E959); (0x1FBF0, 0x1FBF9)].

(** Lower case: ranges whose code points all move by the same offset. *)
Definition lower_blocks : list (Z * Z * Z) :=
  [(0x41, 0x5A, 32); (0xC0, 0xD6, 32); (0xD8, 0xDE, 32);
   (0x178, 0x178, -121); (0x181, 0x181, 210); (0x186, 0x186, 206);
   (0x187, 0x187, 1); (0x189, 0x18A, 205); (0x18B, 0x18B, 1);
   (0x18E, 0x18E, 79); (0x18F, 0x18F, 202); (0x190, 0x190, 203);
   (0x191, 0x191, 1); (0x193, 0x193, 205); (0x194, 0x194, 207);
   (0x196, 0x196, 211); (0x197, 0x197, 209); (0x198, 0x198, 1);
   (0x19C, 0x19C, 211); (0x19D, 0x19D, 213); (0x19F, 0x19F, 214);
   (0x1A6, 0x1A6, 218); (0x1A7, 0x1A7, 1); (0x1A9, 0x1A9, 218);
   (0x1AC, 0x1AC, 1); (0x1AE, 0x1AE, 218); (0x1AF, 0x1AF, 1);
   (0x1B1, 0x1B2, 217); (0x1B7, 0x1B7, 219); (0x1B8, 0x1B8, 1);
   (0x1BC, 0x1BC, 1); (0x1C4, 0x1C4, 2); (0x1C5, 0x1C5, 1);
   (0x1C7, 0x1C7, 2); (0x1C8, 0x1C8, 1); (0x1CA, 0x1CA, 2);
   (0x1F1, 0x1F1, 2); (0x1F6, 0x1F6, -97); (0x1F7, 0x1F7, -56);
   (0x220, 0x220, -130); (0x23A, 0x23A, 10795); (0x23B, 0x23B, 1);
   (0x23D, 0x23D, -163); (0x23E, 0x23E, 10792); (0x241, 0x241, 1);
   (0x243, 0x243, -195); (0x244, 0x244, 69); (0x245, 0x245, 71);
   (0x376, 0x376, 1); (0x37F, 0x37F, 116); (0x386, 0x386, 38);
   (0x388, 0x38A, 37); (0x38C, 0x38C, 64); (0x38E, 0x38F, 63);
   (0x391, 0x3A1, 32); (0x3A3, 0x3AB, 32); (0x3CF, 0x3CF, 8);
   (0x3F4, 0x3F4, -60); (0x3F7, 0x3F7, 1); (0x3F9, 0x3F9, -7);
   (0x3FA, 0x3FA, 1); (0x3FD, 0x3FF, -130); (0x400, 0x40F, 80);
   (0x410, 0x42F, 32); (0x4C0, 0x4C0, 15); (0x531, 0x556, 48);
   (0x10A0, 0x10C5, 7264); (0x10C7, 0x10C7, 7264); (0x10CD, 0x10CD, 7264);
   (0x13A0, 0x13EF, 38864); (0x13F0, 0x13F5, 8); (0x1C90, 0x1CBA, -3008);
   (0x1CBD, 0x1CBF, -3008); (0x1E9E, 0x1E9E, -7615); (0x1F08, 0x1F0F, -8);
   (0x1F18, 0x1F1D, -8); (0x1F28, 0x1F2F, -8); (0x1F38, 0x1F3F, -8);
   (0x1F48, 0x1F4D, -8); (0x1F59, 0x1F59, -8); (0x1F5B, 0x1F5B, -8);
   (0x1F5D, 0x1F5D, -8); (0x1F5F, 0x1F5F, -8); (0x1F68, 0x1F6F, -8);
   (0x1F88, 0x1F8F, -8); (0x1F98, 0x1F9F, -8); (0x1FA8, 0x1FAF, -8);
   (0x1FB8, 0x1FB9, -8); (0x1FBA, 0x1FBB, -74); (0x1FBC, 0x1FBC, -9);
   (0x1FC8, 0x1FCB, -86); (0x1FCC, 0x1FCC, -9); (0x1FD8, 0x1FD9, -8);
   (0x1FDA, 0x1FDB, -100); (0x1FE8, 0x1FE9, -8); (0x1FEA, 0x1FEB, -112);
   (0x1FEC, 0x1FEC, -7); (0x1FF8, 0x1FF9, -128); (0x1FFA, 0x1FFB, -126);
   (0x1FFC, 0x1FFC, -9); (0x2126, 0x2126, -7517); (0x212A, 0x212A, -8383);
   (0x212B, 0x212B, -8262); (0x2132, 0x2132, 28); (0x2160, 0x216F, 16);
   (0x2183, 0x2183, 1); (0x24B6, 0x24CF, 26); (0x2C00, 0x2C2F, 48);
   (0x2C60, 0x2C60, 1); (0x2C62, 0x2C62, -10743); (0x2C63, 0x2C63, -3814);
   (0x2C64, 0x2C64, -10727); (0x2C6D, 0x2C6D, -10780);
   (0x2C6E, 0x2C6E, -10749); (0x2C6F, 0x2C6F, -10783);
   (0x2C70, 0x2C70, -10782); (0x2C72, 0x2C72, 1); (0x2C75, 0x2C75, 1);
   (0x2C7E, 0x2C7F, -10815); (0x2CF2, 0x2CF2, 1); (0xA77D, 0xA77D, -35332);
   (0xA78B, 0xA78B, 1); (0xA78D, 0xA78D, -42280); (0xA7AA, 0xA7AA, -42308);
   (0xA7AB, 0xA7AB, -42319); (0xA7AC, 0xA7AC, -42315);
   (0xA7AD, 0xA7AD, -42305); (0xA7AE, 0xA7AE, -42308);
   (0xA7B0, 0xA7B0, -42258); (0xA7B1, 0xA7B1, -42282);
   (0xA7B2, 0xA7B2, -42261); (0xA7B3, 0xA7B3, 928); (0xA7C4, 0xA7C4, -48);
   (0xA7C5, 0xA7C5, -42307); (0xA7C6, 0xA7C6, -35384); (0xA7D0, 0xA7D0, 1);
   (0xA7F5, 0xA7F5, 1); (0xFF21, 0xFF3A, 32); (0x10400, 0x10427, 40);
   (0x104B0, 0x104D3, 40); (0x10570, 0x1057A, 39); (0x1057C, 0x1058A, 39);
   (0x1058C, 0x10592, 39); (0x10594, 0x10595, 39); (0x10C80, 0x10CB2, 64);
   (0x118A0, 0x118BF, 32); (0x16E40, 0x16E5F, 32); (0x1E900, 0x1E921, 34)].

(** Lower case: ranges in which every second code point, from the first
    on, is an upper-case letter followed by its lower case. *)
Definition lower_pairs : list (Z * Z) :=
  [(0x100, 0x12E); (0x132, 0x136); (0x139, 0x147); (0x14A, 0x176);
   (0x179, 0x17D); (0x182, 0x184); (0x1A0, 0x1A4); (0x1B3, 0x1B5);
   (0x1CB, 0x1DB); (0x1DE, 0x1EE); (0x1F2, 0x1F4); (0x1F8, 0x21E);
   (0x222, 0x232); (0x246, 0x24E); (0x370, 0x372); (0x3D8, 0x3EE);
   (0x460, 0x480); (0x48A, 0x4BE); (0x4C1, 0x4CD); (0x4D0, 0x52E);
   (0x1E00, 0x1E94); (0x1EA0, 0x1EFE); (0x2C67, 0x2C6B); (0x2C80, 0x2CE2);
   (0x2CEB, 0x2CED); (0xA640, 0xA66C); (0xA680, 0xA69A); (0xA722, 0xA72E);
   (0xA732, 0xA76E); (0xA779, 0xA77B); (0xA77E, 0xA786); (0xA790, 0xA792);
   (0xA796, 0xA7A8); (0xA7B4, 0xA7C2); (0xA7C7, 0xA7C9); (0xA7D6, 0xA7D8)].

(** The case-ignorable code points, as ranges. *)
Definition case_ignorable_table : list (Z * Z) :=
  [(0x27, 0x27); (0x2E, 0x2E); (0x3A, 0x3A); (0x5E, 0x5E); (0x60, 0x60);
   (0xA8, 0xA8); (0xAD, 0xAD); (0xAF, 0xAF); (0xB4, 0xB4); (0xB7, 0xB8);
   (0x2B0, 0x36F); (0x374, 0x375); (0x37A, 0x37A); (0x384, 0x385);
   (0x387, 0x387); (0x483, 0x489); (0x559, 0x559); (0x55F, 0x55F);
   (0x591, 0x5BD); (0x5BF, 0x5BF); (0x5C1, 0x5C2); (0x5C4, 0x5C5);
   (0x5C7, 0x5C7); (0x5F4, 0x5F4); (0x600, 0x605); (0x610, 0x61A);
   (0x61C, 0x61C); (0x640, 0x640); (0x64B, 0x65F); (0x670, 0x670);
   (0x6D6, 0x6DD); (0x6DF, 0x6E8); (0x6EA, 0x6ED); (0x70F, 0x70F);
   (0x711, 0x711); (0x730, 0x74A); (0x7A6, 0x7B0); (0x7EB, 0x7F5);
   (0x7FA, 0x7FA); (0x7FD, 0x7FD); (0x816, 0x82D); (0x859, 0x85B);
   (0x888, 0x888); (0x890, 0x891); (0x898, 0x89F); (0x8C9, 0x902);
   (0x93A, 0x93A); (0x93C, 0x93C); (0x941, 0x948); (0x94D, 0x94D);
   (0x951, 0x957); (0x962, 0x963); (0x971, 0x971); (0x981, 0x981);
   (0x9BC, 0x9BC); (0x9C1, 0x9C4); (0x9CD, 0x9CD); (0x9E2, 0x9E3);
   (0x9FE, 0x9FE); (0xA01, 0xA02); (0xA3C, 0xA3C); (0xA41, 0xA42);
   (0xA47, 0xA48); (0xA4B, 0xA4D); (0xA51, 0xA51); (0xA70, 0xA71);
   (0xA75, 0xA75); (0xA81, 0xA82); (0xABC, 0xABC); (0xAC1, 0xAC5);
   (0xAC7, 0xAC8); (0xACD, 0xACD); (0xAE2, 0xAE3); (0xAFA, 0xAFF);
   (0xB01, 0xB01); (0xB3C, 0xB3C); (0xB3F, 0xB3F); (0xB41, 0xB44);
   (0xB4D, 0xB4D); (0xB55, 0xB56); (0xB62, 0xB63); (0xB82, 0xB82);
   (0xBC0, 0xBC0); (0xBCD, 0xBCD); (0xC00, 0xC00); (0xC04, 0xC04);
   (0xC3C, 0xC3C); (0xC3E, 0xC40); (0xC46, 0xC48); (0xC4A, 0xC4D);
   (0xC55, 0xC56); (0xC62, 0xC63); (0xC81, 0xC81); (0xCBC, 0xCBC);
   (0xCBF, 0xCBF); (0xCC6, 0xCC6); (0xCCC, 0xCCD); (0xCE2, 0xCE3);
   (0xD00, 0xD01); (0xD3B, 0xD3C); (0xD41, 0xD44); (0xD4D, 0xD4D);
   (0xD62, 0xD63); (0xD81, 0xD81); (0xDCA, 0xDCA); (0xDD2, 0xDD4);
   (0xDD6, 0xDD6); (0xE31, 0xE31); (0xE34, 0xE3A); (0xE46, 0xE4E);
   (0xEB1, 0xEB1); (0xEB4, 0xEBC); (0xEC6, 0xEC6); (0xEC8, 0xECD);
   (0xF18, 0xF19); (0xF35, 0xF35); (0xF37, 0xF37); (0xF39, 0xF39);
   (0xF71, 0xF7E); (0xF80, 0xF84); (0xF86, 0xF87); (0xF8D, 0xF97);
   (0xF99, 0xFBC); (0xFC6, 0xFC6); (0x102D, 0x1030); (0x1032, 0x1037);
   (0x1039, 0x103A); (0x103D, 0x103E); (0x1058, 0x1059); (0x105E, 0x1060);
   (0x1071, 0x1074); (0x1082, 0x1082); (0x1085, 0x1086); (0x108D, 0x108D);
   (0x109D, 0x109D); (0x10FC, 0x10FC); (0x135D, 0x135F); (0x1712, 0x1714);
   (0x1732, 0x1733); (0x1752, 0x1753); (0x1772, 0x1773); (0x17B4, 0x17B5);
   (0x17B7, 0x17BD); (0x17C6, 0x17C6); (0x17C9, 0x17D3); (0x17D7, 0x17D7);
   (0x17DD, 0x17DD); (0x180B, 0x180F); (0x1843, 0x1843); (0x1885, 0x1886);
   (0x18A9, 0x18A9); (0x1920, 0x1922); (0x1927, 0x1928); (0x1932, 0x1932);
   (0x1939, 0x193B); (0x1A17, 0x1A18); (0x1A1B, 0x1A1B); (0x1A56, 0x1A56);
   (0x1A58, 0x1A5E); (0x1A60, 0x1A60); (0x1A62, 0x1A62); (0x1A65, 0x1A6C);
   (0x1A73, 0x1A7C); (0x1A7F, 0x1A7F); (0x1AA7, 0x1AA7); (0x1AB0, 0x1ACE);
   (0x1B00, 0x1B03); (0x1B34, 0x1B34); (0x1B36, 0x1B3A); (0x1B3C, 0x1B3C);
   (0x1B42, 0x1B42); (0x1B6B, 0x1B73); (0x1B80, 0x1B81); (0x1BA2, 0x1BA5);
   (0x1BA8, 0x1BA9); (0x1BAB, 0x1BAD); (0x1BE6, 0x1BE6); (0x1BE8, 0x1BE9);
   (0x1BED, 0x1BED); (0x1BEF, 0x1BF1); (0x1C2C, 0x1C33); (0x1C36, 0x1C37);
   (0x1C78, 0x1C7D); (0x1CD0, 0x1CD2); (0x1CD4, 0x1CE0); (0x1CE2, 0x1CE8);
   (0x1CED, 0x1CED); (0x1CF4, 0x1CF4); (0x1CF8, 0x1CF9); (0x1D2C, 0x1D6A);
   (0x1D78, 0x1D78); (0x1D9B, 0x1DFF); (0x1FBD, 0x1FBD); (0x1FBF, 0x1FC1);
   (0x1FCD, 0x1FCF); (0x1FDD, 0x1FDF); (0x1FED, 0x1FEF); (0x1FFD, 0x1FFE);
   (0x200B, 0x200F); (0x2018, 0x2019); (0x2024, 0x2024); (0x2027, 0x2027);
   (0x202A, 0x202E); (0x2060, 0x2064); (0x2066, 0x206F); (0x2071, 0x2071);
   (0x207F, 0x207F); (0x2090, 0x209C); (0x20D0, 0x20F0); (0x2C7C, 0x2C7D);
   (0x2CEF, 0x2CF1); (0x2D6F, 0x2D6F); (0x2D7F, 0x2D7F); (0x2DE0, 0x2DFF);
   (0x2E2F, 0x2E2F); (0x3005, 0x3005); (0x302A, 0x302D); (0x3031, 0x3035);
   (0x303B, 0x303B); (0x3099, 0x309E); (0x30FC, 0x30FE); (0xA015, 0xA015);
   (0xA4F8, 0xA4FD); (0xA60C, 0xA60C); (0xA66F, 0xA672); (0xA674, 0xA67D);
   (0xA67F, 0xA67F); (0xA69C, 0xA69F); (0xA6F0, 0xA6F1); (0xA700, 0xA721);
   (0xA770, 0xA770); (0xA788, 0xA78A); (0xA7F2, 0xA7F4); (0xA7F8, 0xA7F9);
   (0xA802, 0xA802); (0xA806, 0xA806); (0xA80B, 0xA80B); (0xA825, 0xA826);
   (0xA82C, 0xA82C); (0xA8C4, 0xA8C5); (0xA8E0, 0xA8F1); (0xA8FF, 0xA8FF);
   (0xA926, 0xA92D); (0xA947, 0xA951); (0xA980, 0xA982); (0xA9B3, 0xA9B3);
   (0xA9B6, 0xA9B9); (0xA9BC, 0xA9BD); (0xA9CF, 0xA9CF); (0xA9E5, 0xA9E6);
   (0xAA29, 0xAA2E); (0xAA31, 0xAA32); (0xAA35, 0xAA36); (0xAA43, 0xAA43);
   (0xAA4C, 0xAA4C); (0xAA70, 0xAA70); (0xAA7C, 0xAA7C); (0xAAB0, 0xAAB0);
   (0xAAB2, 0xAAB4); (0xAAB7, 0xAAB8); (0xAABE, 0xAABF); (0xAAC1, 0xAAC1);
   (0xAADD, 0xAADD); (0xAAEC, 0xAAED); (0xAAF3, 0xAAF4); (0xAAF6, 0xAAF6);
   (0xAB5B, 0xAB5F); (0xAB69, 0xAB6B); (0xABE5, 0xABE5); (0xABE8, 0xABE8);
   (0xABED, 0xABED); (0xFB1E, 0xFB1E); (0xFBB2, 0xFBC2); (0xFE00, 0xFE0F);
   (0xFE13, 0xFE13); (0xFE20, 0xFE2F); (0xFE52, 0xFE52); (0xFE55, 0xFE55);
   (0xFEFF, 0xFEFF); (0xFF07, 0xFF07); (0xFF0E, 0xFF0E); (0xFF1A, 0xFF1A);
   (0xFF3E, 0xFF3E); (0xFF40, 0xFF40); (0xFF70, 0xFF70); (0xFF9E, 0xFF9F);
   (0xFFE3, 0xFFE3); (0xFFF9, 0xFFFB); (0x101FD, 0x101FD);
   (0x102E0, 0x102E0); (0x10376, 0x1037A); (0x10780, 0x10785);
   (0x10787, 0x107B0); (0x107B2, 0x107BA); (0x10A01, 0x10A03);
   (0x10A05, 0x10A06); (0x10A0C, 0x10A0F); (0x10A38, 0x10A3A);
   (0x10A3F, 0x10A3F); (0x10AE5, 0x10AE6); (0x10D24, 0x10D27);
   (0x10EAB, 0x10EAC); (0x10F46, 0x10F50); (0x10F82, 0x10F85);
   (0x11001, 0x11001); (0x11038, 0x11046); (0x11070, 0x11070);
   (0x11073, 0x11074); (0x1107F, 0x11081); (0x110B3, 0x110B6);
   (0x110B9, 0x110BA); (0x110BD, 0x110BD); (0x110C2, 0x110C2);
   (0x110CD, 0x110CD); (0x11100, 0x11102); (0x11127, 0x1112B);
   (0x1112D, 0x11134); (0x11173, 0x11173); (0x11180, 0x11181);
   (0x111B6, 0x111BE); (0x111C9, 0x111CC); (0x111CF, 0x111CF);
   (0x1122F, 0x11231); (0x11234, 0x11234); (0x11236, 0x11237);
   (0x1123E, 0x1123E); (0x112DF, 0x112DF); (0x112E3, 0x112EA);
   (0x11300, 0x11301); (0x1133B, 0x1133C); (0x11340, 0x11340);
   (0x11366, 0x1136C); (0x11370, 0x11374); (0x11438, 0x1143F);
   (0x11442, 0x11444); (0x11446, 0x11446); (0x1145E, 0x1145E);
   (0x114B3, 0x114B8); (0x114BA, 0x114BA); (0x114BF, 0x114C0);
   (0x114C2, 0x114C3); (0x115B2, 0x115B5); (0x115BC, 0x115BD);
   (0x115BF, 0x115C0); (0x115DC, 0x115DD); (0x11633, 0x1163A);
   (0x1163D, 0x1163D); (0x1163F, 0x11640); (0x116AB, 0x116AB);
   (0x116AD, 0x116AD); (0x116B0, 0x116B5); (0x116B7, 0x116B7);
   (0x1171D, 0x1171F); (0x11722, 0x11725); (0x11727, 0x1172B);
   (0x1182F, 0x11837); (0x11839, 0x1183A); (0x1193B, 0x1193C);
   (0x1193E, 0x1193E); (0x11943, 0x11943); (0x119D4, 0x119D7);
   (0x119DA, 0x119DB); (0x119E0, 0x119E0); (0x11A01, 0x11A0A);
   (0x11A33, 0x11A38); (0x11A3B, 0x11A3E); (0x11A47, 0x11A47);
   (0x11A51, 0x11A56); (0x11A59, 0x11A5B); (0x11A8A, 0x11A96);
   (0x11A98, 0x11A99); (0x11C30, 0x11C36); (0x11C38, 0x11C3D);
   (0x11C3F, 0x11C3F); (0x11C92, 0x11CA7); (0x11CAA, 0x11CB0);
   (0x11CB2, 0x11CB3); (0x11CB5, 0x11CB6); (0x11D31, 0x11D36);
   (0x11D3A, 0x11D3A); (0x11D3C, 0x11D3D); (0x11D3F, 0x11D45);
   (0x11D47, 0x11D47); (0x11D90, 0x11D91); (0x11D95, 0x11D95);
   (0x11D97, 0x11D97); (0x11EF3, 0x11EF4); (0x13430, 0x13438);
   (0x16AF0, 0x16AF4); (0x16B30, 0x16B36); (0x16B40, 0x16B43);
   (0x16F4F, 0x16F4F); (0x16F8F, 0x16F9F); (0x16FE0, 0x16FE1);
   (0x16FE3, 0x16FE4); (0x1AFF0, 0x1AFF3); (0x1AFF5, 0x1AFFB);
   (0x1AFFD, 0x1AFFE); (0x1BC9D, 0x1BC9E); (0x1BCA0, 0x1BCA3);
   (0x1CF00, 0x1CF2D); (0x1CF30, 0x1CF46); (0x1D167, 0x1D169);
   (0x1D173, 0x1D182); (0x1D185, 0x1D18B); (0x1D1AA, 0x1D1AD);
   (0x1D242, 0x1D244); (0x1DA00, 0x1DA36); (0x1DA3B, 0x1DA6C);
   (0x1DA75, 0x1DA75); (0x1DA84, 0x1DA84); (0x1DA9B, 0x1DA9F);
   (0x1DAA1, 0x1DAAF); (0x1E000, 0x1E006); (0x1E008, 0x1E018);
   (0x1E01B, 0x1E021); (0x1E023, 0x1E024); (0x1E026, 0x1E02A);
   (0x1E130, 0x1E13D); (0x1E2AE, 0x1E2AE); (0x1E2EC, 0x1E2EF);
   (0x1E8D0, 0x1E8D6); (0x1E944, 0x1E94B); (0x1F3FB, 0x1F3FF);
   (0xE0001, 0xE0001); (0xE0020, 0xE007F); (0xE0100, 0xE01EF)].

(** The cased code points that are not case-ignorable, as ranges. *)
Definition cased_table : list (Z * Z) :=
  [(0x41, 0x5A); (0x61, 0x7A); (0xAA, 0xAA); (0xB5, 0xB5); (0xBA, 0xBA);
   (0xC0, 0xD6); (0xD8, 0xF6); (0xF8, 0x1BA); (0x1BC, 0x1BF); (0x1C4, 0x293);
   (0x295, 0x2AF); (0x370, 0x373); (0x376, 0x377); (0x37B, 0x37D);
   (0x37F, 0x37F); (0x386, 0x386); (0x388, 0x38A); (0x38C, 0x38C);
   (0x38E, 0x3A1); (0x3A3, 0x3F5); (0x3F7, 0x481); (0x48A, 0x52F);
   (0x531, 0x556); (0x560, 0x588); (0x10A0, 0x10C5); (0x10C7, 0x10C7);
   (0x10CD, 0x10CD); (0x10D0, 0x10FA); (0x10FD, 0x10FF); (0x13A0, 0x13F5);
   (0x13F8, 0x13FD); (0x1C80, 0x1C88); (0x1C90, 0x1CBA); (0x1CBD, 0x1CBF);
   (0x1D00, 0x1D2B); (0x1D6B, 0x1D77); (0x1D79, 0x1D9A); (0x1E00, 0x1F15);
   (0x1F18, 0x1F1D); (0x1F20, 0x1F45); (0x1F48, 0x1F4D); (0x1F50, 0x1F57);
   (0x1F59, 0x1F59); (0x1F5B, 0x1F5B); (0x1F5D, 0x1F5D); (0x1F5F, 0x1F7D);
   (0x1F80, 0x1FB4); (0x1FB6, 0x1FBC); (0x1FBE, 0x1FBE); (0x1FC2, 0x1FC4);
   (0x1FC6, 0x1FCC); (0x1FD0, 0x1FD3); (0x1FD6, 0x1FDB); (0x1FE0, 0x1FEC);
   (0x1FF2, 0x1FF4); (0x1FF6, 0x1FFC); (0x2102, 0x2102); (0x2107, 0x2107);
   (0x210A, 0x2113); (0x2115, 0x2115); (0x2119, 0x211D); (0x2124, 0x2124);
   (0x2126, 0x2126); (0x2128, 0x2128); (0x212A, 0x212D); (0x212F, 0x2134);
   (0x2139, 0x2139); (0x213C, 0x213F); (0x2145, 0x2149); (0x214E, 0x214E);
   (0x2160, 0x217F); (0x2183, 0x2184); (0x24B6, 0x24E9); (0x2C00, 0x2C7B);
   (0x2C7E, 0x2CE4); (0x2CEB, 0x2CEE); (0x2CF2, 0x2CF3); (0x2D00, 0x2D25);
   (0x2D27, 0x2D27); (0x2D2D, 0x2D2D); (0xA640, 0xA66D); (0xA680, 0xA69B);
   (0xA722, 0xA76F); (0xA771, 0xA787); (0xA78B, 0xA78E); (0xA790, 0xA7CA);
   (0xA7D0, 0xA7D1); (0xA7D3, 0xA7D3); (0xA7D5, 0xA7D9); (0xA7F5, 0xA7F6);
   (0xA7FA, 0xA7FA); (0xAB30, 0xAB5A); (0xAB60, 0xAB68); (0xAB70, 0xABBF);
   (0xFB00, 0xFB06); (0xFB13, 0xFB17); (0xFF21, 0xFF3A); (0xFF41, 0xFF5A);
   (0x10400, 0x1044F); (0x104B0, 0x104D3); (0x104D8, 0x104FB);
   (0x10570, 0x1057A); (0x1057C, 0x1058A); (0x1058C, 0x10592);
   (0x10594, 0x10595); (0x10597, 0x105A1); (0x105A3, 0x105B1);
   (0x105B3, 0x105B9); (0x105BB, 0x105BC); (0x10C80, 0x10CB2);
   (0x10CC0, 0x10CF2); (0x118A0, 0x118DF); (0x16E40, 0x16E7F);
   (0x1D400, 0x1D454); (0x1D456, 0x1D49C); (0x1D49E, 0x1D49F);
   (0x1D4A2, 0x1D4A2); (0x1D4A5, 0x1D4A6); (0x1D4A9, 0x1D4AC);
   (0x1D4AE, 0x1D4B9); (0x1D4BB, 0x1D4BB); (0x1D4BD, 0x1D4C3);
   (0x1D4C5, 0x1D505); (0x1D507, 0x1D50A); (0x1D50D, 0x1D514);
   (0x1D516, 0x1D51C); (0x1D51E, 0x1D539); (0x1D53B, 0x1D53E);
   (0x1D540, 0x1D544); (0x1D546, 0x1D546); (0x1D54A, 0x1D550);
   (0x1D552, 0x1D6A5); (0x1D6A8, 0x1D6C0); (0x1D6C2, 0x1D6DA);
   (0x1D6DC, 0x1D6FA); (0x1D6FC, 0x1D714); (0x1D716, 0x1D734);
   (0x1D736, 0x1D74E); (0x1D750, 0x1D76E); (0x1D770, 0x1D788);
   (0x1D78A, 0x1D7A8); (0x1D7AA, 0x1D7C2); (0x1D7C4, 0x1D7CB);
   (0x1DF00, 0x1DF09); (0x1DF0B, 0x1DF1E); (0x1E900, 0x1E943);
   (0x1F130, 0x1F149); (0x1F150, 0x1F169); (0x1F170, 0x1F189)].

(** The class [\d] of [re], [str.isdecimal] of one character. *)
Definition is_digit (c : Z) : bool := in_table decimal_table c.

(** The value of a decimal digit. *)
Definition decimal_value (c : Z) : option Z :=
  match List.find (fun r => (fst r <=? c) && (c <=? snd r)) decimal_table with
  | Some r => Some ((c - fst r) mod 10)
  | None => None
  end.

(** [str.isalnum] of one character. *)
Definition is_alnum (c : Z) : bool := in_table alnum_table c.

(** The class [\w] of [re]: alphanumeric or underscore. *)
Definition is_word (c : Z) : bool := is_alnum c || (c =? 95).

(** Lower case of one character out of context; U+0130 is the one
    character whose lower case is two code points. *)
Definition lower_cp (c : Z) : pystr :=
  if c =? 0x130 then [0x69; 0x307]
  else
    match List.find (fun b => (fst (fst b) <=? c) && (c <=? snd (fst b)))
                    lower_blocks with
    | Some b => [c + snd b]
    | None =>
        if existsb (fun r => (fst r <=? c) && (c <=? snd r)
                             && Z.even (c - fst r)) lower_pairs
        then [c + 1] else [c]
    end.

Definition is_case_ignorable (c : Z) : bool := in_table case_ignorable_table c.
Definition is_cased (c : Z) : bool := in_table cased_table c.

Fixpoint drop_while {A} (p : A -> bool) (l : list A) : list A :=
  match l with
  | [] => []
  | x :: r => if p x then drop_while p r else l
  end.

(** Whether a capital sigma stands at the end of a word: the nearest
    character before it that is not case-ignorable is cased, and the
    nearest one after it, if any, is not.  [before] is what precedes the
    sigma, nearest first. *)
Definition final_sigma (before after : pystr) : bool :=
  match drop_while is_case_ignorable before with
  | c :: _ => is_cased c
  | [] => false
  end
  && match drop_while is_case_ignorable after with
     | c :: _ => negb (is_cased c)
     | [] => true
     end.

(** Lower case of one character of a string: the capital sigma U+03A3
    becomes the final sigma U+03C2 at the end of a word, and U+03C3
    elsewhere. *)
Definition lower_at (before after : pystr) (c : Z) : pystr :=
  if c =? 0x3A3 then [if final_sigma before after then 0x3C2 else 0x3C3]
  else lower_cp c.

Fixpoint lower_from (before : pystr) (s : pystr) : pystr :=
  match s with
  | [] => []
  | c :: r => lower_at before r c ++ lower_from (c :: before) r
  end.

(** [s.lower()] *)
Definition lower (s : pystr) : pystr := lower_from [] s.

(** [s.lstrip()], [s.rstrip()], [s.strip()] *)
Definition lstrip (s : pystr) : pystr := drop_while is_space s.
Definition rstrip (s : pystr) : pystr := rev (drop_while is_space (rev s)).
Definition strip (s : pystr) : pystr := rstrip (lstrip s).

(** [s.split()]: the maximal runs of characters that are not white space.
    [cur] is the run being read, in reverse. *)
Fixpoint split_from (cur : pystr) (s : pystr) : list pystr :=
  match s with
  | [] => match cur with [] => [] | _ => [rev cur] end
  | c :: r =>
      if is_space c then
        match cur with
        | [] => split_from [] r
        | _ => rev cur :: split_from [] r
        end
      else split_from (c :: cur) r
  end.

Definition split (s : pystr) : list pystr := split_from [] s.

(** [' '.join(ws)] *)
Fixpoint join_space (ws : list pystr) : pystr :=
  match ws with
  | [] => []
  | [w] => w
  | w :: r => w ++ 32 :: join_space r
  end.

(** [s.split(sep)[-1]]: what follows the last occurrence of [sep]. *)
Fixpoint after_last (sep : Z) (s : pystr) : pystr :=
  match s with
  | [] => []
  | c :: r =>
      if contains sep r then after_last sep r
      else if c =? sep then r else c :: r
  end.

(** [s.rfind(x)] for a single character: the index of its last
    occurrence, or -1. *)
Fixpoint rfind (x : Z) (s : pystr) : Z :=
  match s with
  | [] => -1
  | c :: r =>
      let i := rfind x r in
      if 0 <=? i then i + 1 else if c =? x then 0 else -1
  end.

(** [s.endswith(t)] *)
Definition ends_with (t s : pystr) : bool :=
  if decide (skipn (length s - length t) s = t) then
    (length t <=? length s)%nat
  else false.

(** Decimal digits with single underscores between them, as [int]
    reads them; [prev] tells whether the character before was a digit. *)
Fixpoint digits_value (acc : Z) (prev : bool) (s : pystr) : option Z :=
  match s with
  | [] => if prev then Some acc else None
  | c :: r =>
      match decimal_value c with
      | Some d => digits_value (10 * acc + d) true r
      | None =>
          if (c =? 95) && prev then digits_value acc false r
          else None
      end
  end.

(** The white space that [int] skips around the digits: the ASCII white
    space of C, and the Unicode white space from U+007F on. *)
Definition int_space (c : Z) : bool :=
  ((9 <=? c) && (c <=? 13)) || (c =? 32) || ((127 <=? c) && is_space c).

(** [sys.get_int_max_str_digits()], at its default. *)
Definition int_max_str_digits : Z := 4300.

(** The digits after the sign, when there are not too many of them. *)
Definition limited_digits (s : pystr) : option Z :=
  if int_max_str_digits <? len (List.filter is_digit s) then None
  else digits_value 0 false s.

(** [int(s)] for a [str]: optional surrounding white space, an optional
    sign, decimal digits of any script; [None] stands for [ValueError]. *)
Definition py_int (s : pystr) : option Z :=
  match rev (drop_while int_space (rev (drop_while int_space s))) with
  | [] => None
  | c :: r =>
      if c =? 43 then limited_digits r
      else if c =? 45 then option_map Z.opp (limited_digits r)
      else limited_digits (c :: r)
  end.

End PyStr.
Import PyStr.

(** ** UTF-8, as [str.encode('utf-8')] and [bytes.decode('utf-8', errors='ignore')] *)

Module Utf8.

(** The bytes of one scalar value. *)
Definition encode_cp (c : Z) : list Z :=
  if c <? 0x80 then [c]
  else if c <? 0x800 then [0xC0 + c / 64; 0x80 + c mod 64]
  else if c <? 0x10000 then
    [0xE0 + c / 4096; 0x80 + (c / 64) mod 64; 0x80 + c mod 64]
  else
    [0xF0 + c / 262144; 0x80 + (c / 4096) mod 64;
     0x80 + (c / 64) mod 64; 0x80 + c mod 64].

(** [s.encode('utf-8')]: raises [UnicodeEncodeError] ([None]) on a code
    point that is not a scalar value (a lone surrogate). *)
Fixpoint encode (s : pystr) : option (list Z) :=
  match s with
  | [] => Some []
  | c :: r =>
      if is_scalar c then
        match encode r with
        | Some bs => Some (encode_cp c ++ bs)
        | None => None
        end
      else None
  end.

(** State of the decoder: at a character boundary, or inside a sequence
    with [k] bytes still to come, the bits read so far, and the range the
    next byte has to lie in. *)
Inductive dstate :=
| Start
| Need (k : nat) (acc : Z) (lo hi : Z).

(** What a start byte announces. *)
Definition start_byte (b : Z) : option Z + dstate :=
  if b <? 0x80 then inl (Some b)
  else if (0xC2 <=? b) && (b <=? 0xDF) then inr (Need 1 (b - 0xC0) 0x80 0xBF)
  else if b =? 0xE0 then inr (Need 2 0 0xA0 0xBF)
  else if b =? 0xED then inr (Need 2 13 0x80 0x9F)
  else if (0xE1 <=? b) && (b <=? 0xEF) then inr (Need 2 (b - 0xE0) 0x80 0xBF)
  else if b =? 0xF0 then inr (Need 3 0 0x90 0xBF)
  else if (0xF1 <=? b) && (b <=? 0xF3) then inr (Need 3 (b - 0xF0) 0x80 0xBF)
  else if b =? 0xF4 then inr (Need 3 4 0x80 0x8F)
  else inl None.

(** Decoding with [errors='ignore']: an invalid start byte is skipped; an
    invalid continuation byte drops the sequence read so far and is itself
    read again as a start byte; a sequence cut by the end of the input is
    dropped. *)
Fixpoint decode_from (st : dstate) (bs : list Z) : pystr :=
  match bs with
  | [] => []
  | b :: r =>
      let restart :=
        match start_byte b with
        | inl (Some c) => c :: decode_from Start r
        | inl None => decode_from Start r
        | inr st' => decode_from st' r
        end in
      match st with
      | Start => restart
      | Need k acc lo hi =>
          if (lo <=? b) && (b <=? hi) then
            let acc' := acc * 64 + (b - 0x80) in
            match k with
            | S (S k') => decode_from (Need (S k') acc' 0x80 0xBF) r
            | _ => acc' :: decode_from Start r
            end
          else restart
      end
  end.

Definition decode_ignore (bs : list Z) : pystr := decode_from Start bs.

(** The continuation bytes. *)
Definition cont_byte (b : Z) : Prop := 0x80 <= b <= 0xBF.

(** [len(s.encode('utf-8'))] of a string that can be encoded. *)
Definition utf8_len (s : pystr) : Z :=
  match encode s with
  | Some bs => len bs
  | None => 0
  end.

End Utf8.

(** ** Name sanitizer *)

(** The character class of [re.sub(r'[\/:*?"<>|]', '_', title)]: inside the
    class, [\/] is an escaped slash, so the class holds the eight
    characters [/ : * ? " < > |]. *)
Definition invalid_char (c : Z) : bool :=
  existsb (Z.eqb c) [47; 58; 42; 63; 34; 60; 62; 124].

Definition replace_invalid (title : pystr) : pystr :=
  map (fun c => if invalid_char c then 95 else c) title.

(** [(b & 0xC0) == 0x80] *)
Definition is_continuation (b : Z) : bool := Z.land b 0xC0 =? 0x80.

(** The loop [while truncated and (truncated[-1] & 0xC0) == 0x80:
    truncated = truncated[:-1]]. *)
Definition strip_continuation (truncated : list Z) : list Z :=
  rev (drop_while is_continuation (rev truncated)).

Definition ellipsis : pystr := str_of "...".

(** [sanitize_filename(title, extension, max_bytes)]; [None] stands for the
    [UnicodeEncodeError] of an unencodable argument. *)
Definition sanitize_filename (title extension : pystr) (max_bytes : Z)
  : option pystr :=
  let filename := replace_invalid title in
  match Utf8.encode extension with
  | None => None
  | Some ext_bytes =>
      let available_bytes := max_bytes - len ext_bytes in
      match Utf8.encode filename with
      | None => None
      | Some encoded =>
          if available_bytes <? len encoded then
            let truncated := slice_to (available_bytes - 3) encoded in
            let truncated := strip_continuation truncated in
            Some ((Utf8.decode_ignore truncated ++ ellipsis) ++ extension)
          else Some (filename ++ extension)
      end
  end.

Definition default_max_bytes : Z := 240.


(** ** Paths, as [pathlib.PurePosixPath] reads them (Python 3.8 to 3.13) *)

Module PathLib.

(** The components of a path: [split('/')] without the empty and the
    ['.'] components.  [cur] is the component being read, in reverse. *)
Fixpoint components_from (cur : pystr) (s : pystr) : list pystr :=
  let close (rest : list pystr) :=
    if bool_decide (cur = [] \/ cur = [46]) then rest
    else rev cur :: rest in
  match s with
  | [] => close []
  | c :: r =>
      if c =? 47 then close (components_from [] r)
      else components_from (c :: cur) r
  end.

(** [Path(s).name]: the last component, or the empty string. *)
Definition name (s : pystr) : pystr := List.last (components_from [] s) [].

(** [Path(s).suffix] and [Path(s).stem], from the position of the last dot
    of the name when it is neither its first nor its last character. *)
Definition suffix_of_name (n : pystr) : pystr :=
  let i := rfind 46 n in
  if (0 <? i) && (i <? len n - 1) then skipn (Z.to_nat i) n else [].

Definition stem_of_name (n : pystr) : pystr :=
  let i := rfind 46 n in
  if (0 <? i) && (i <? len n - 1) then firstn (Z.to_nat i) n else n.

Definition suffix (s : pystr) : pystr := suffix_of_name (name s).
Definition stem (s : pystr) : pystr := stem_of_name (name s).

End PathLib.

(** ** Title normalizer *)

(** One match of [\s*\(\d{2}c\d\)\s*] (with [re.I]) at the start of [s]:
    its length.  Both [\s*] are greedy, and no shorter run of white space
    can be followed by the parenthesis, so the match is the only one. *)
Definition match_tag (s : pystr) : option nat :=
  let t := drop_while is_space s in
  match t with
  | o :: d1 :: d2 :: c :: d3 :: e :: rest =>
      if (o =? 40) && is_digit d1 && is_digit d2
         && ((c =? 99) || (c =? 67)) && is_digit d3 && (e =? 41)
      then Some (length s - length (drop_while is_space rest))%nat
      else None
  | _ => None
  end.

(** [re.sub(r'\s*\(\d{2}c\d\)\s*', '', name, flags=re.I)]: the matches are
    found from left to right and do not overlap; [skip] counts the
    characters of the current match still to be dropped. *)
Fixpoint remove_tags_from (skip : nat) (s : pystr) : pystr :=
  match s with
  | [] => []
  | c :: r =>
      match skip with
      | S k => remove_tags_from k r
      | O =>
          match match_tag s with
          | Some n => remove_tags_from (Nat.pred n) r
          | None => c :: remove_tags_from O r
          end
      end
  end.

Definition remove_tags (s : pystr) : pystr := remove_tags_from O s.

(** The class [[_\-–—]]. *)
Definition is_separator (c : Z) : bool :=
  (c =? 95) || (c =? 45) || (c =? 0x2013) || (c =? 0x2014).

(** The complement of the class [[^\w\sÀ-ſ]]. *)
Definition is_kept (c : Z) : bool :=
  is_word c || is_space c || ((0xC0 <=? c) && (c <=? 0x17F)).

Definition normalize_title (filename : pystr) : pystr :=
  let name := PathLib.stem filename in
  let name := remove_tags name in
  let name := map (fun c => if is_separator c then 32 else c) name in
  let name := List.filter is_kept name in
  let name := join_space (split name) in
  strip (lower name).

(** ** Similarity matcher *)

(** A directory entry as [glob] yields it. *)
Record dirent := { d_name : pystr; d_is_file : bool }.

(** A directory: absent, or its entries in the order of enumeration. *)
Definition directory := option (list dirent).

Definition media_suffixes : list pystr :=
  [str_of ".mp4"; str_of ".webm"; str_of ".mp3"; str_of ".opus"].

Definition has_media_suffix (n : pystr) : bool :=
  existsb (fun x => bool_decide (lower (PathLib.suffix_of_name n) = x))
          media_suffixes.

Definition default_threshold : Q := 85 # 100.

Section Matcher.

(** [difflib.SequenceMatcher(None, a, b).ratio()] *)
Variable ratio : pystr -> pystr -> Q.

(** The loop over [releases_dir.glob("*")]. *)
Fixpoint first_match (normalized_relive : pystr) (threshold : Q)
    (entries : list dirent) : option dirent :=
  match entries with
  | [] => None
  | release_file :: rest =>
      if negb (d_is_file release_file) then
        first_match normalized_relive threshold rest
      else if negb (has_media_suffix (d_name release_file)) then
        first_match normalized_relive threshold rest
      else
        let normalized_release := normalize_title (d_name release_file) in
        if Qle_bool threshold (ratio normalized_relive normalized_release)
        then Some release_file
        else first_match normalized_relive threshold rest
  end.

Definition find_matching_release (relive_title : pystr)
    (releases_dir : directory) (threshold : Q) : option dirent :=
  match releases_dir with
  | None => None
  | Some entries =>
      first_match (normalize_title relive_title) threshold entries
  end.

(** ** Cleanup pass *)

(** The two directories of a [Config], as listings. *)
Record Dirs := { relive_dir : directory; releases_dir : directory }.

(** [relive_file.unlink()]: removes a regular file; [None] stands for the
    [OSError] raised when the name is missing or is a directory. *)
Definition unlink_entry (n : pystr) (entries : list dirent)
  : option (list dirent) :=
  if existsb (fun e => bool_decide (d_name e = n) && d_is_file e) entries
  then Some (List.filter (fun e => negb (bool_decide (d_name e = n))) entries)
  else None.

(** The loop over [list(config.relive_dir.glob("*.mp4"))]: the entries
    left in the directory and the count, or [None] when [unlink] raises. *)
Fixpoint cleanup_loop (snapshot : list dirent) (releases : directory)
    (entries : list dirent) (removed : Z) : option (list dirent * Z) :=
  match snapshot with
  | [] => Some (entries, removed)
  | relive_file :: rest =>
      match find_matching_release (d_name relive_file) releases
                                  default_threshold with
      | Some _ =>
          match unlink_entry (d_name relive_file) entries with
          | Some entries' => cleanup_loop rest releases entries' (removed + 1)
          | None => None
          end
      | None => cleanup_loop rest releases entries removed
      end
  end.

Definition glob_mp4 (entries : list dirent) : list dirent :=
  List.filter (fun e => ends_with (str_of ".mp4") (d_name e)) entries.

(** [cleanup_relive_duplicates(config)]: the directories afterwards and
    the number of files removed. *)
Definition cleanup_relive_duplicates (config : Dirs) : option (Dirs * Z) :=
  match relive_dir config, releases_dir config with
  | Some entries, Some _ =>
      match cleanup_loop (glob_mp4 entries) (releases_dir config) entries 0 with
      | Some (entries', removed) =>
          Some ({| relive_dir := Some entries';
                   releases_dir := releases_dir config |}, removed)
      | None => None
      end
  | _, _ => Some (config, 0)
  end.

End Matcher.

(** ** Resumable transfer engine *)

(** The file system: regular files by path, with their contents. *)
Abbreviation files := (gmap pystr (list Z)).

(** A request of [download_file]: the URL and the offset of the header
    [Range: bytes=<offset>-], when it is sent. *)
Record request := { rq_url : pystr; rq_range : option Z }.

(** A response: the status, the two headers the engine reads, the chunks
    that [iter_content] yields, and whether the stream then raises
    instead of ending. *)
Record response := {
  status_code : Z;
  content_range : option pystr;
  content_length : option pystr;
  body : list (list Z);
  body_fails : bool
}.

(** What [requests.get] does: raise, or return a response. *)
Inductive reply :=
| ConnectionError
| Reply (r : response).

(** What a call can observe and change: the files, the requests sent so
    far and the durations passed to [time.sleep], both oldest first. *)
Record world := {
  fs : files;
  sent : list request;
  slept : list Z
}.

Definition set_fs (f : files) (w : world) : world :=
  {| fs := f; sent := sent w; slept := slept w |}.
Definition log_request (rq : request) (w : world) : world :=
  {| fs := fs w; sent := sent w ++ [rq]; slept := slept w |}.
Definition sleep (seconds : Z) (w : world) : world :=
  {| fs := fs w; sent := sent w; slept := slept w ++ [seconds] |}.

(** The mode of [open]. *)
Inductive mode := WB | AB.

(** [open(part_path, mode)] *)
Definition open_part (m : mode) (part_path : pystr) (f : files) : files :=
  match m with
  | WB => <[part_path := []]> f
  | AB => match f !! part_path with
          | Some _ => f
          | None => <[part_path := []]> f
          end
  end.

(** [f.write(chunk)] for each chunk. *)
Definition write_chunks (part_path : pystr) (chunks : list (list Z))
    (f : files) : files :=
  fold_left (fun f chunk => alter (fun old => old ++ chunk) part_path f)
            chunks f.

(** [int(headers.get(name, 0))]; [None] stands for [ValueError]. *)
Definition int_header (h : option pystr) : option Z :=
  match h with
  | None => Some 0
  | Some v => py_int v
  end.

(** [r.raise_for_status()] raises for the statuses 400 to 599. *)
Definition raises_for_status (status : Z) : bool :=
  (400 <=? status) && (status <? 600).

(** The branch on [r.status_code]: the total size, the resume position
    and the mode to go on with, or [None] when an exception is raised. *)
Definition interpret_response (r : response) (resume_pos : Z) (m : mode)
  : option (Z * Z * mode) :=
  if status_code r =? 206 then
    let cr := default [] (content_range r) in
    if contains 47 cr then
      match py_int (after_last 47 cr) with
      | Some total_size => Some (total_size, resume_pos, m)
      | None => None
      end
    else
      match int_header (content_length r) with
      | Some n => Some (resume_pos + n, resume_pos, m)
      | None => None
      end
  else if status_code r =? 200 then
    match int_header (content_length r) with
    | Some total_size =>
        if 0 <? resume_pos then Some (total_size, 0, WB)
        else Some (total_size, resume_pos, m)
    | None => None
    end
  else if raises_for_status (status_code r) then None
  else Some (0, resume_pos, m).

(** How one pass through the body of the loop ends: [return True], the
    [continue] after a size mismatch, or the [except] clause. *)
Inductive attempt_result := Downloaded | SizeMismatch | Raised.

(** ** Double precision

    The products [check_size * 0.99] and [size * 0.99] are evaluated in
    binary64: the integer is converted to the nearest double (ties to
    even; [OverflowError] when it rounds to [2^1024]), multiplied by the
    double nearest to 0.99 and rounded again.  The comparison of an
    integer with a double is exact. *)

Module Float.

(** A positive double, as [m * 2^e]. *)
Definition float := (Z * Z)%type.

(** [n / 2^shift] rounded to the nearest integer, ties to even. *)
Definition round_to_even (n shift : Z) : Z :=
  let q := n / 2 ^ shift in
  let r := n mod 2 ^ shift in
  let half := 2 ^ (shift - 1) in
  if (half <? r) || ((r =? half) && Z.odd q) then q + 1 else q.

(** A positive integer rounded to 53 significant bits. *)
Definition round53 (n : Z) : float :=
  let shift := Z.log2 n + 1 - 53 in
  if 0 <? shift then (round_to_even n shift, shift) else (n, 0).

(** The least integer that [float] cannot convert. *)
Definition limit : Z := 2 ^ 1024 - 2 ^ 970.

(** [float(n)] for a positive [n]; [None] stands for [OverflowError]. *)
Definition of_int (n : Z) : option float :=
  let '(m, e) := round53 n in
  if 2 ^ 1024 <=? m * 2 ^ e then None else Some (m, e).

(** The double [0.99], which is [0x1.fae147ae147aep-1]. *)
Definition c099 : float := (8917127262193582, -53).

(** The product of two positive doubles, in the normal range. *)
Definition mul (a b : float) : float :=
  let '(m, s) := round53 (fst a * fst b) in (m, s + snd a + snd b).

(** [a < f] for an integer [a] and a double [f]. *)
Definition int_lt (a : Z) (f : float) : bool :=
  let '(m, e) := f in
  if 0 <=? e then a <? m * 2 ^ e else a * 2 ^ (- e) <? m.

End Float.

(** [check_size > 0 and actual_size < check_size * 0.99]; [None] stands
    for the [OverflowError] of the conversion. *)
Definition too_small (actual_size check_size : Z) : option bool :=
  if 0 <? check_size then
    match Float.of_int check_size with
    | None => None
    | Some f => Some (Float.int_lt actual_size (Float.mul f Float.c099))
    end
  else Some false.

Definition part_path_of (output_path : pystr) : pystr :=
  output_path ++ str_of ".part".

Section Transfer.

(** The server: its answer to the [n]-th request sent. *)
Variable net : nat -> request -> reply.

(** The [try] block of one attempt. *)
Definition attempt_once (url output_path : pystr) (expected_size : Z)
    (w : world) : attempt_result * world :=
  let part_path := part_path_of output_path in
  let '(resume_pos, range, m) :=
    match fs w !! part_path with
    | Some content => (len content, Some (len content), AB)
    | None => (0, None, WB)
    end in
  let rq := {| rq_url := url; rq_range := range |} in
  let answer := net (length (sent w)) rq in
  let w := log_request rq w in
  match answer with
  | ConnectionError => (Raised, w)
  | Reply r =>
      match interpret_response r resume_pos m with
      | None => (Raised, w)
      | Some (total_size, _, m) =>
          let f := write_chunks part_path (body r)
                     (open_part m part_path (fs w)) in
          let w := set_fs f w in
          if body_fails r then (Raised, w)
          else
            let actual_size := len (default [] (f !! part_path)) in
            let check_size :=
              if 0 <? expected_size then expected_size else total_size in
            match too_small actual_size check_size with
            | None => (Raised, w)
            | Some true => (SizeMismatch, w)
            | Some false =>
                let f := <[output_path := default [] (f !! part_path)]>
                           (delete part_path f) in
                (Downloaded, set_fs f w)
            end
      end
  end.

(** The loop [for attempt in range(max_retries)], with [n] attempts left. *)
Fixpoint download_loop (n : nat) (attempt : Z) (url output_path : pystr)
    (expected_size max_retries : Z) (w : world) : bool * world :=
  match n with
  | O => (false, w)
  | S n' =>
      match attempt_once url output_path expected_size w with
      | (Downloaded, w) => (true, w)
      | (SizeMismatch, w) =>
          download_loop n' (attempt + 1) url output_path
                        expected_size max_retries w
      | (Raised, w) =>
          let w :=
            if attempt <? max_retries - 1
            then sleep (2 ^ attempt * 5) w else w in
          download_loop n' (attempt + 1) url output_path
                        expected_size max_retries w
      end
  end.

(** [download_file(url, output_path, description, expected_size,
    max_retries)]; the description is only displayed. *)
Definition download_file (url output_path description : pystr)
    (expected_size max_retries : Z) (w : world) : bool * world :=
  download_loop (Z.to_nat max_retries) 0 url output_path
                expected_size max_retries w.

Definition default_max_retries : Z := 3.

(** ** Canonical-set reconciliation *)

(** An [<item>] of the feed: the text of its [<title>] and the attributes
    of its [<enclosure>], each when present. *)
Record enclosure := { enc_url : option pystr; enc_length : option pystr }.
Record item := { title_tag : option pystr; item_enclosure : option enclosure }.

(** The part of [Config] that [download_releases] reads. *)
Record Config := { config_releases_dir : pystr; file_extension : pystr }.

(** An entry of the list [downloads]. *)
Record download := {
  dl_title : pystr;
  dl_url : pystr;
  dl_filename : pystr;
  dl_output_path : pystr;
  dl_size : Z;
  dl_resumable : bool
}.

(** The variables of the listing loop. *)
Record listing := {
  l_fs : files;
  downloads : list download;
  already_have : Z;
  incomplete : Z
}.

(** The body of the loop [for item in items]; [None] stands for an
    exception, which leaves the loop and the [try] block. *)
Definition listing_step (config : Config) (it : item) (st : listing)
  : option listing :=
  match title_tag it, item_enclosure it with
  | Some title_text, Some enc =>
      let title := strip title_text in
      match int_header (enc_length enc) with
      | None => None
      | Some size =>
          match enc_url enc with
          | None | Some [] => Some st
          | Some url =>
              match sanitize_filename title (file_extension config)
                                      default_max_bytes with
              | None => None
              | Some filename =>
                  let output_path :=
                    config_releases_dir config ++ 47 :: filename in
                  let enqueue (st : listing) :=
                    {| l_fs := l_fs st;
                       downloads := downloads st ++
                         [{| dl_title := title; dl_url := url;
                             dl_filename := filename;
                             dl_output_path := output_path;
                             dl_size := size;
                             dl_resumable :=
                               bool_decide
                                 (is_Some (l_fs st !! part_path_of output_path))
                          |}];
                       already_have := already_have st;
                       incomplete := incomplete st |} in
                  match l_fs st !! output_path with
                  | Some content =>
                      let actual_size := len content in
                      match too_small actual_size size with
                      | None => None
                      | Some true =>
                          Some (enqueue
                                  {| l_fs := delete output_path (l_fs st);
                                     downloads := downloads st;
                                     already_have := already_have st;
                                     incomplete := incomplete st + 1 |})
                      | Some false =>
                          Some {| l_fs := l_fs st;
                                  downloads := downloads st;
                                  already_have := already_have st + 1;
                                  incomplete := incomplete st |}
                      end
                  | None => Some (enqueue st)
                  end
              end
          end
      end
  | _, _ => Some st
  end.

(** The listing loop: the variables when it ends, and whether it ended
    normally. *)
Fixpoint listing_loop (config : Config) (items : list item) (st : listing)
  : bool * listing :=
  match items with
  | [] => (true, st)
  | it :: rest =>
      match listing_step config it st with
      | Some st' => listing_loop config rest st'
      | None => (false, st)
      end
  end.

(** The loop [for i, dl in enumerate(downloads, 1)]. *)
Fixpoint transfer_loop (dls : list download) (downloaded : Z) (w : world)
  : Z * world :=
  match dls with
  | [] => (downloaded, w)
  | dl :: rest =>
      let '(ok, w) :=
        download_file (dl_url dl) (dl_output_path dl) (dl_filename dl)
                      (dl_size dl) default_max_retries w in
      transfer_loop rest (if ok then downloaded + 1 else downloaded) w
  end.

(** [download_releases(config)], given what fetching and parsing the feed
    produced: the list of its items, or [None] for an exception. *)
Definition download_releases (config : Config) (feed : option (list item))
    (w : world) : Z * world :=
  match feed with
  | None => (0, w)
  | Some [] => (0, w)
  | Some items =>
      let '(finished, st) :=
        listing_loop config items
          {| l_fs := fs w; downloads := []; already_have := 0;
             incomplete := 0 |} in
      let w := set_fs (l_fs st) w in
      if finished then transfer_loop (downloads st) 0 w else (0, w)
  end.

End Transfer.

(** ** Display helper *)

(** [truncate_for_display(text, max_width)] *)
Definition truncate_for_display (text : pystr) (max_width : Z) : pystr :=
  if len text <=? max_width then text
  else slice_to (max_width - 3) text ++ ellipsis.

(** ** Quality presets *)

(** [Config.QUALITY_PRESETS]: feed name, file extension, description. *)
Definition QUALITY_PRESETS : gmap pystr (pystr * pystr * pystr) :=
  list_to_map
    [(str_of "hd", (str_of "mp4-hq", str_of ".mp4", str_of "1080p MP4"));
     (str_of "sd", (str_of "mp4", str_of ".mp4", str_of "576p MP4"));
     (str_of "webm", (str_of "webm-hq", str_of ".webm", str_of "1080p WebM"));
     (str_of "webm-sd", (str_of "webm", str_of ".webm", str_of "576p WebM"));
     (str_of "mp3", (str_of "mp3", str_of ".mp3", str_of "MP3 audio"));
     (str_of "opus", (str_of "opus", str_of ".opus", str_of "Opus audio"))].

(** The properties [feed_name] and [file_extension] of a [Config] with
    the given quality; [None] stands for [KeyError]. *)
Definition preset_feed_name (quality : pystr) : option pystr :=
  (fun p => fst (fst p)) <$> QUALITY_PRESETS !! quality.
Definition preset_file_extension (quality : pystr) : option pystr :=
  (fun p => snd (fst p)) <$> QUALITY_PRESETS !! quality.

(** ** Substrings *)

(** [s.startswith(p)] *)
Fixpoint is_prefix (p s : pystr) : bool :=
  match p, s with
  | [], _ => true
  | _ :: _, [] => false
  | a :: p', b :: s' => (a =? b) && is_prefix p' s'
  end.

(** [p in s] *)
Fixpoint contains_sub (p s : pystr) : bool :=
  is_prefix p s ||
  match s with
  | [] => false
  | _ :: r => contains_sub p r
  end.

(** [s.split(sep)[0]] for a separator that is not empty: what precedes
    its first occurrence, or all of [s]. *)
Fixpoint before_first (sep s : pystr) : pystr :=
  if is_prefix sep s then []
  else match s with
       | [] => []
       | c :: r => c :: before_first sep r
       end.

(** [s.replace(old, "")] for an [old] that is not empty: the occurrences
    are found from left to right and do not overlap; [skip] counts the
    characters of the current occurrence still to be dropped. *)
Fixpoint remove_all_from (skip : nat) (old s : pystr) : pystr :=
  match s with
  | [] => []
  | c :: r =>
      match skip with
      | S k => remove_all_from k old r
      | O =>
          if is_prefix old s then remove_all_from (Nat.pred (length old)) old r
          else c :: remove_all_from O old r
      end
  end.

Definition remove_all (old s : pystr) : pystr := remove_all_from O old s.

(** ** Titles of relive pages *)

(** The separators tried in turn: em dash, en dash, hyphen, each between
    spaces. *)
Definition title_separators : list pystr :=
  [[32; 0x2014; 32]; [32; 0x2013; 32]; [32; 45; 32]].

(** The loop [for separator in ...: if separator in title: title =
    title.split(separator)[0]; break]. *)
Fixpoint cut_at_separator (separators : list pystr) (title : pystr) : pystr :=
  match separators with
  | [] => title
  | separator :: rest =>
      if contains_sub separator title then before_first separator title
      else cut_at_separator rest title
  end.

(** [get_relive_title], from [soup.title.string] of the page fetched:
    [None] when there is no title, also for a page that could not be
    fetched or parsed (the exception is caught and [None] returned). *)
Definition get_relive_title (page_title : option pystr) : option pystr :=
  match page_title with
  | None => None
  | Some title =>
      if bool_decide (title = []) || negb (contains_sub (str_of "Relive:") title)
      then None
      else
        let title := cut_at_separator title_separators title in
        let title := remove_all (str_of "Relive: ") title in
        Some (strip title)
  end.

(** ** Partial downloads *)

Definition glob_part (entries : list dirent) : list dirent :=
  List.filter (fun e => ends_with (str_of ".part") (d_name e)) entries.

(** The loop over [directory.glob("*.part")] of one directory:
    [part_file.unlink()] for each. *)
Fixpoint unlink_all (snapshot : list dirent) (entries : list dirent)
    (count : Z) : option (list dirent * Z) :=
  match snapshot with
  | [] => Some (entries, count)
  | part_file :: rest =>
      match unlink_entry (d_name part_file) entries with
      | Some entries' => unlink_all rest entries' (count + 1)
      | None => None
      end
  end.

Definition clean_directory (d : directory) (count : Z)
  : option (directory * Z) :=
  match d with
  | None => Some (None, count)
  | Some entries =>
      match unlink_all (glob_part entries) entries count with
      | Some (entries', count') => Some (Some entries', count')
      | None => None
      end
  end.

(** [cleanup_partial_downloads(config)]: the relive directory, then the
    releases directory; [None] when [unlink] raises. *)
Definition cleanup_partial_downloads (config : Dirs) : option (Dirs * Z) :=
  match clean_directory (relive_dir config) 0 with
  | None => None
  | Some (relive', count) =>
      match clean_directory (releases_dir config) count with
      | None => None
      | Some (releases', count') =>
          Some ({| relive_dir := relive'; releases_dir := releases' |}, count')
      end
  end.

(** [count_partial_downloads(config)] *)
Definition count_partial_downloads (config : Dirs) : Z :=
  fold_left
    (fun count d =>
       match d with
       | Some entries => count + len (glob_part entries)
       | None => count
       end)
    [relive_dir config; releases_dir config] 0.

(** ** Ephemeral-set reconciliation *)

(** An entry of the list [downloads] of [download_relive]. *)
Record relive_download := {
  rl_relive_id : pystr;
  rl_title : pystr;
  rl_filename : pystr;
  rl_output_path : pystr
}.

(** The variables of its listing loop. *)
Record relive_listing := {
  rl_downloads : list relive_download;
  rl_already_have : Z;
  rl_has_release : Z
}.

(** What [download_relive] reads of its [Config]: the relive directory as
    a path, the releases directory as a listing, and the base of the
    video URLs. *)
Record ReliveConfig := {
  config_relive_dir : pystr;
  config_releases : directory;
  relive_cdn_base : pystr
}.

Section Relive.

Variable ratio : pystr -> pystr -> Q.
Variable net : nat -> request -> reply.

(** [get_relive_title(config, relive_id)] for each identifier. *)
Variable title_of : pystr -> option pystr.

(** The body of the loop [for relive_id in sorted(relive_ids)]; [None]
    stands for the exception of [sanitize_filename]. *)
Definition relive_step (config : ReliveConfig) (f : files)
    (relive_id : pystr) (st : relive_listing) : option relive_listing :=
  match title_of relive_id with
  | None | Some [] => Some st
  | Some title =>
      match sanitize_filename title (str_of ".mp4") default_max_bytes with
      | None => None
      | Some filename =>
          let output_path := config_relive_dir config ++ 47 :: filename in
          if bool_decide (is_Some (f !! output_path)) then
            Some {| rl_downloads := rl_downloads st;
                    rl_already_have := rl_already_have st + 1;
                    rl_has_release := rl_has_release st |}
          else if bool_decide (is_Some (find_matching_release ratio title
                                 (config_releases config) default_threshold))
          then
            Some {| rl_downloads := rl_downloads st;
                    rl_already_have := rl_already_have st;
                    rl_has_release := rl_has_release st + 1 |}
          else
            Some {| rl_downloads := rl_downloads st ++
                      [{| rl_relive_id := relive_id; rl_title := title;
                          rl_filename := filename;
                          rl_output_path := output_path |}];
                    rl_already_have := rl_already_have st;
                    rl_has_release := rl_has_release st |}
      end
  end.

Fixpoint relive_loop (config : ReliveConfig) (f : files)
    (relive_ids : list pystr) (st : relive_listing)
  : option relive_listing :=
  match relive_ids with
  | [] => Some st
  | relive_id :: rest =>
      match relive_step config f relive_id st with
      | Some st' => relive_loop config f rest st'
      | None => None
      end
  end.

(** The loop [for i, dl in enumerate(downloads, 1)] of [download_relive]. *)
Fixpoint relive_transfer_loop (config : ReliveConfig)
    (dls : list relive_download) (downloaded : Z) (w : world) : Z * world :=
  match dls with
  | [] => (downloaded, w)
  | dl :: rest =>
      let video_url :=
        relive_cdn_base config ++ 47 :: rl_relive_id dl ++ str_of "/muxed.mp4" in
      let '(ok, w) :=
        download_file net video_url (rl_output_path dl) (rl_filename dl)
                      0 default_max_retries w in
      relive_transfer_loop config rest
        (if ok then downloaded + 1 else downloaded) w
  end.

(** [download_relive(config)], given [sorted(relive_ids)] as read from
    the page, or [None] when fetching it raised. *)
Definition download_relive (config : ReliveConfig)
    (page : option (list pystr)) (w : world) : Z * world :=
  match page with
  | None => (0, w)
  | Some [] => (0, w)
  | Some relive_ids =>
      match relive_loop config (fs w) relive_ids
              {| rl_downloads := []; rl_already_have := 0;
                 rl_has_release := 0 |} with
      | None => (0, w)
      | Some st => relive_transfer_loop config (rl_downloads st) 0 w
      end
  end.

End Relive.

(** ** Vocabulary of the properties *)

(** A character that a second pass of the normalizer leaves alone: kept
    by the filter, neither white space nor a separator, and its own
    lower case. *)
Definition stable_char (c : Z) : bool :=
  is_kept c && negb (is_space c) && negb (is_separator c)
  && bool_decide (lower_cp c = [c]).

(** A word of a normalized title. *)
Definition stable_word (w : pystr) : Prop :=
  w <> [] /\ Forall (fun c => stable_char c = true) w.

(** An entry that the matcher accepts for a title: a regular file with a
    media suffix whose normalized name is similar enough. *)
Definition is_match (ratio : pystr -> pystr -> Q) (title : pystr)
    (threshold : Q) (e : dirent) : Prop :=
  d_is_file e = true /\ has_media_suffix (d_name e) = true /\
  (threshold <= ratio (normalize_title title) (normalize_title (d_name e)))%Q.

(** An entry of the relive directory that the cleanup pass is to remove:
    it is named [*.mp4] and the matcher finds a release for its name. *)
Definition superseded (ratio : pystr -> pystr -> Q) (releases : directory)
    (e : dirent) : bool :=
  ends_with (str_of ".mp4") (d_name e)
  && bool_decide (is_Some (find_matching_release ratio (d_name e) releases
                                                 default_threshold)).

(** What the [.part] file holds once the chunks are written: they follow
    the old contents when the file is opened for appending and exists,
    else they are all there is. *)
Definition streamed (m : mode) (old : option (list Z))
    (chunks : list (list Z)) : list Z :=
  match m, old with
  | AB, Some c => c ++ concat chunks
  | _, _ => concat chunks
  end.

(** Where the data of an attempt is afterwards: in the final file, the
    [.part] file gone, when the attempt succeeded by renaming, else in
    the [.part] file. *)
Definition holds_data (output_path : pystr) (res : attempt_result * world)
    (data : list Z) : Prop :=
  match fst res with
  | Downloaded =>
      fs (snd res) !! output_path = Some data /\
      fs (snd res) !! part_path_of output_path = None
  | _ => fs (snd res) !! part_path_of output_path = Some data
  end.

(** The mode an attempt starts with. *)
Definition initial_mode (old : option (list Z)) : mode :=
  match old with Some _ => AB | None => WB end.

(** The request of an attempt, from what the [.part] file holds. *)
Definition probe (url : pystr) (old : option (list Z)) : request :=
  {| rq_url := url; rq_range := len <$> old |}.

(** The waits of a call whose every attempt raises: [5 * 2^attempt]
    seconds after each attempt but the last. *)
Definition backoff (max_retries : Z) : list Z :=
  map (fun a => 2 ^ Z.of_nat a * 5) (seq 0 (Z.to_nat (max_retries - 1))).

(** The waits left from attempt [a] on. *)
Definition backoff_from (a max_retries : Z) : list Z :=
  map (fun k => 2 ^ (a + Z.of_nat k) * 5)
      (seq 0 (Z.to_nat (max_retries - 1 - a))).

(** A server that is down, and one that answers 200 without a length
    and with the given body. *)
Definition net_down : nat -> request -> reply := fun _ _ => ConnectionError.
Definition net_body (chunks : list (list Z)) : nat -> request -> reply :=
  fun _ _ => Reply {| status_code := 200; content_range := None;
                      content_length := None; body := chunks;
                      body_fails := false |}.

(** A server that honours ranges: 206, two bytes from offset 3 of 5. *)
Definition net_range : nat -> request -> reply :=
  fun _ _ => Reply {| status_code := 206;
                      content_range := Some (str_of "bytes 3-4/5");
                      content_length := Some (str_of "2");
                      body := [[4]; [5]];
                      body_fails := false |}.

(** A world with a [.part] file of three bytes for [a.mp4]. *)
Definition world_part : world :=
  {| fs := {[ str_of "a.mp4.part" := [1; 2; 3] ]}; sent := []; slept := [] |}.

(** A server that resumes without knowing the total: 206 with the total
    of [Content-Range] left open. *)
Definition net_open_total : nat -> request -> reply :=
  fun _ _ => Reply {| status_code := 206;
                      content_range := Some (str_of "bytes 3-4/*");
                      content_length := Some (str_of "2");
                      body := [[4]; [5]];
                      body_fails := false |}.

(** The same without a content length. *)
Definition net_no_total : nat -> request -> reply :=
  fun _ _ => Reply {| status_code := 206;
                      content_range := Some (str_of "bytes 3-4/*");
                      content_length := None;
                      body := [[4]; [5]];
                      body_fails := false |}.

(** A server that answers 200 with the given content length and body. *)
Definition net_length (length : pystr) (chunks : list (list Z))
  : nat -> request -> reply :=
  fun _ _ => Reply {| status_code := 200; content_range := None;
                      content_length := Some length; body := chunks;
                      body_fails := false |}.

(** A server that answers 200 without a length and with [n] zero bytes
    in one chunk. *)
Definition net_zeros (n : Z) : nat -> request -> reply :=
  fun _ _ => Reply {| status_code := 200; content_range := None;
                      content_length := None;
                      body := [repeat 0 (Z.to_nat n)];
                      body_fails := false |}.

(** A ratio for examples: 1 on equal strings, 0 otherwise. *)
Definition exact_ratio (a b : pystr) : Q :=
  if bool_decide (a = b) then 1%Q else 0%Q.

(** A congress tag: parenthesis, two digits, [c] or [C], a digit,
    parenthesis. *)
Definition is_tag (tag : pystr) : Prop :=
  exists d1 d2 c d3,
    tag = [40; d1; d2; c; d3; 41] /\
    is_digit d1 = true /\ is_digit d2 = true /\ is_digit d3 = true /\
    (c = 99 \/ c = 67).

(** A string without its trailing white space. *)
Fixpoint chop (s : pystr) : pystr :=
  match s with
  | [] => []
  | x :: r => if forallb is_space s then [] else x :: chop r
  end.

(** A directory as the functions of this part expect it: distinct names,
    and only regular files named [*.part]. *)
Definition tidy (d : directory) : Prop :=
  match d with
  | None => True
  | Some entries =>
      List.NoDup (map d_name entries) /\
      Forall (fun e => ends_with (str_of ".part") (d_name e) = true ->
                       d_is_file e = true) entries
  end.

(** Without its [*.part] entries. *)
Definition without_part (d : directory) : directory :=
  List.filter (fun e => negb (ends_with (str_of ".part") (d_name e))) <$> d.

(** An item of the feed that the listing loop does not skip: it has a
    title, an enclosure and a URL that is not empty. *)
Definition usable (it : item) : bool :=
  match title_tag it, item_enclosure it with
  | Some _, Some enc =>
      match enc_url enc with
      | Some (_ :: _) => true
      | _ => false
      end
  | _, _ => false
  end.

(** A relive identifier whose page gave a title that is not empty. *)
Definition titled (title_of : pystr -> option pystr) (relive_id : pystr)
  : bool :=
  match title_of relive_id with
  | Some (_ :: _) => true
  | _ => false
  end.

(** The dashes of the title separators, in the order in which the
    separators are tried. *)
Definition dashes : list Z := [0x2014; 0x2013; 45].

(** An entry that [download_relive] may queue: it carries the title of
    the page of its identifier, which is not empty, the file name made
    from the title and the path of that file in the relive directory;
    there is no file at that path and the matcher finds no release for
    the title. *)
Definition missing (ratio : pystr -> pystr -> Q)
    (title_of : pystr -> option pystr) (config : ReliveConfig) (f : files)
    (dl : relive_download) : Prop :=
  title_of (rl_relive_id dl) = Some (rl_title dl) /\
  rl_title dl <> [] /\
  sanitize_filename (rl_title dl) (str_of ".mp4") default_max_bytes
    = Some (rl_filename dl) /\
  rl_output_path dl = config_relive_dir config ++ 47 :: rl_filename dl /\
  f !! rl_output_path dl = None /\
  find_matching_release ratio (rl_title dl) (config_releases config)
                        default_threshold = None.

(** The URL of the video of a relive identifier. *)
Definition video_url (config : ReliveConfig) (relive_id : pystr) : pystr :=
  relive_cdn_base config ++ 47 :: relive_id ++ str_of "/muxed.mp4".

(** The ranges in which the lower-case tables have entries. *)
Definition lower_domain : list (Z * Z) := map fst lower_blocks ++ lower_pairs.


(** A word in the sense of [str.split]. *)
Definition plain_word (w : pystr) : Prop :=
  w <> [] /\ Forall (fun c => is_space c = false) w.

(** * Properties *)

(** ** UTF-8 *)

Section Utf8Facts.
Import Utf8.

Lemma range_cases (n : nat) (P : Z -> Prop) (test : Z -> bool) :
  forallb test (map Z.of_nat (seq 0 n)) = true ->
  (forall b, test b = true -> P b) ->
  forall b, 0 <= b < Z.of_nat n -> P b.
Proof.
  intros Hall Htest b Hb. apply Htest.
  rewrite forallb_forall in Hall. apply Hall.
  apply in_map_iff. exists (Z.to_nat b). split; [lia|].
  apply in_seq. lia.
Qed.

Lemma is_continuation_range b :
  0 <= b < 256 -> is_continuation b = (0x80 <=? b) && (b <? 0xC0).
Proof.
  revert b.
  apply (range_cases 256
    (fun b => is_continuation b = (0x80 <=? b) && (b <? 0xC0))
    (fun b => Bool.eqb (is_continuation b) ((0x80 <=? b) && (b <? 0xC0)))).
  - vm_compute. reflexivity.
  - intros b0 H. apply Bool.eqb_prop in H. exact H.
Qed.

Lemma start_byte_ascii b : 0 <= b < 0x80 -> start_byte b = inl (Some b).
Proof.
  intros H. unfold start_byte.
  destruct (Z.ltb_spec b 0x80); [reflexivity | lia].
Qed.

Ltac bool_arith :=
  repeat match goal with
    | |- context [?a <? ?b] => destruct (Z.ltb_spec a b); try lia
    | |- context [?a <=? ?b] => destruct (Z.leb_spec a b); try lia
    | |- context [?a =? ?b] => destruct (Z.eqb_spec a b); try lia
    end;
  simpl; try reflexivity; try lia.

Lemma start_byte_2 b :
  0xC2 <= b <= 0xDF -> start_byte b = inr (Need 1 (b - 0xC0) 0x80 0xBF).
Proof. intros H. unfold start_byte. bool_arith. Qed.

Lemma start_byte_3 b :
  0xE0 <= b <= 0xEF ->
  start_byte b =
    inr (Need 2 (b - 0xE0) (if b =? 0xE0 then 0xA0 else 0x80)
                           (if b =? 0xED then 0x9F else 0xBF)).
Proof.
  intros H. unfold start_byte. bool_arith; f_equal; f_equal; lia.
Qed.

Lemma start_byte_4 b :
  0xF0 <= b <= 0xF4 ->
  start_byte b =
    inr (Need 3 (b - 0xF0) (if b =? 0xF0 then 0x90 else 0x80)
                           (if b =? 0xF4 then 0x8F else 0xBF)).
Proof.
  intros H. unfold start_byte. bool_arith; f_equal; f_equal; lia.
Qed.

Lemma decode_start b r :
  decode_from Start (b :: r) =
    match start_byte b with
    | inl (Some c) => c :: decode_from Start r
    | inl None => decode_from Start r
    | inr st' => decode_from st' r
    end.
Proof. reflexivity. Qed.

Lemma decode_need_more k acc lo hi b r :
  lo <= b <= hi ->
  decode_from (Need (S (S k)) acc lo hi) (b :: r) =
    decode_from (Need (S k) (acc * 64 + (b - 0x80)) 0x80 0xBF) r.
Proof.
  intros H. cbn [decode_from].
  destruct (Z.leb_spec lo b); [|lia]. destruct (Z.leb_spec b hi); [|lia].
  reflexivity.
Qed.

Lemma decode_need_last acc lo hi b r :
  lo <= b <= hi ->
  decode_from (Need 1 acc lo hi) (b :: r) =
    (acc * 64 + (b - 0x80)) :: decode_from Start r.
Proof.
  intros H. cbn [decode_from].
  destruct (Z.leb_spec lo b); [|lia]. destruct (Z.leb_spec b hi); [|lia].
  reflexivity.
Qed.

Lemma is_scalar_range c :
  is_scalar c = true -> 0 <= c < 0x110000 /\ (c < 0xD800 \/ 0xDFFF < c).
Proof. unfold is_scalar. intros H. revert H. bool_arith; discriminate. Qed.

(** Decoding reads back an encoded scalar value. *)
Lemma decode_encode_cp c rest :
  is_scalar c = true ->
  decode_from Start (encode_cp c ++ rest) = c :: decode_from Start rest.
Proof.
  intros Hc. apply is_scalar_range in Hc. destruct Hc as [Hr Hs].
  unfold encode_cp.
  destruct (Z.ltb_spec c 0x80).
  { simpl app. rewrite decode_start, start_byte_ascii by lia. reflexivity. }
  destruct (Z.ltb_spec c 0x800).
  { simpl app. rewrite decode_start, start_byte_2
      by (Z.div_mod_to_equations; lia).
    rewrite decode_need_last by (Z.div_mod_to_equations; lia).
    f_equal. Z.div_mod_to_equations; lia. }
  destruct (Z.ltb_spec c 0x10000).
  { simpl app. rewrite decode_start, start_byte_3
      by (Z.div_mod_to_equations; lia).
    rewrite decode_need_more.
    2:{ destruct (Z.eqb_spec (0xE0 + c / 4096) 0xE0);
        destruct (Z.eqb_spec (0xE0 + c / 4096) 0xED);
        Z.div_mod_to_equations; lia. }
    rewrite decode_need_last by (Z.div_mod_to_equations; lia).
    f_equal. Z.div_mod_to_equations; lia. }
  simpl app. rewrite decode_start, start_byte_4
    by (Z.div_mod_to_equations; lia).
  rewrite decode_need_more.
  2:{ destruct (Z.eqb_spec (0xF0 + c / 262144) 0xF0);
      destruct (Z.eqb_spec (0xF0 + c / 262144) 0xF4);
      Z.div_mod_to_equations; lia. }
  rewrite decode_need_more by (Z.div_mod_to_equations; lia).
  rewrite decode_need_last by (Z.div_mod_to_equations; lia).
  f_equal. Z.div_mod_to_equations; lia.
Qed.

Lemma decode_encode_app p pb rest :
  encode p = Some pb ->
  decode_from Start (pb ++ rest) = p ++ decode_from Start rest.
Proof.
  revert pb. induction p as [|c p IH]; intros pb H; simpl in H.
  - inversion H. reflexivity.
  - destruct (is_scalar c) eqn:Hc; [|discriminate].
    destruct (encode p) as [bs|] eqn:Hp; [|discriminate].
    inversion H; subst pb. rewrite <- app_assoc.
    rewrite decode_encode_cp by assumption.
    simpl. f_equal. apply IH. reflexivity.
Qed.

Lemma encode_app_Some a b x :
  encode (a ++ b) = Some x ->
  exists xa xb, encode a = Some xa /\ encode b = Some xb /\ x = xa ++ xb.
Proof.
  revert x. induction a as [|c a IH]; intros x H; simpl in *.
  - exists [], x. auto.
  - destruct (is_scalar c); [|discriminate].
    destruct (encode (a ++ b)) as [y|] eqn:Hy; [|discriminate].
    destruct (IH y eq_refl) as (xa & xb & Ha & Hb & ->).
    rewrite Ha. inversion H. exists (encode_cp c ++ xa), xb.
    rewrite app_assoc. auto.
Qed.

Lemma encode_app a b xa xb :
  encode a = Some xa -> encode b = Some xb ->
  encode (a ++ b) = Some (xa ++ xb).
Proof.
  revert xa. induction a as [|c a IH]; intros xa Ha Hb; simpl in *.
  - inversion Ha. assumption.
  - destruct (is_scalar c); [|discriminate].
    destruct (encode a) as [y|]; [|discriminate].
    rewrite (IH y eq_refl Hb). inversion Ha. rewrite app_assoc. reflexivity.
Qed.

Lemma encode_scalar s :
  forallb is_scalar s = true -> exists bs, encode s = Some bs.
Proof.
  induction s as [|c s IH]; simpl; intros H.
  - eauto.
  - apply andb_true_iff in H. destruct H as [Hc Hs]. rewrite Hc.
    destruct (IH Hs) as [bs ->]. eauto.
Qed.

(** The bytes of a scalar value: one byte below 0x80, or a lead byte
    followed by continuation bytes. *)
Lemma encode_cp_shape c :
  is_scalar c = true ->
  (0 <= c < 0x80 /\ encode_cp c = [c]) \/
  (exists lead conts, encode_cp c = lead :: conts /\
     0xC2 <= lead <= 0xF4 /\ Forall cont_byte conts).
Proof.
  intros Hc. apply is_scalar_range in Hc. destruct Hc as [Hr Hs].
  unfold encode_cp, cont_byte.
  destruct (Z.ltb_spec c 0x80); [left; split; [lia | reflexivity] |].
  right.
  destruct (Z.ltb_spec c 0x800); [|destruct (Z.ltb_spec c 0x10000)];
    eexists; eexists; (split; [reflexivity|]);
    (split; [Z.div_mod_to_equations; lia|]);
    repeat constructor; Z.div_mod_to_equations; lia.
Qed.

Lemma cont_byte_is_continuation b : cont_byte b -> is_continuation b = true.
Proof.
  unfold cont_byte. intros H. rewrite is_continuation_range by lia.
  destruct (Z.leb_spec 0x80 b); [|lia]. destruct (Z.ltb_spec b 0xC0); [|lia].
  reflexivity.
Qed.

Lemma not_cont_is_continuation b :
  0 <= b < 0x80 \/ 0xC0 <= b < 256 -> is_continuation b = false.
Proof.
  intros H. rewrite is_continuation_range by lia.
  destruct (Z.leb_spec 0x80 b); destruct (Z.ltb_spec b 0xC0);
    simpl; try reflexivity; lia.
Qed.

Lemma drop_while_all {A} (p : A -> bool) l r :
  Forall (fun x => p x = true) l -> drop_while p (l ++ r) = drop_while p r.
Proof.
  induction 1 as [|x l Hx Hl IH]; simpl; [reflexivity|].
  rewrite Hx. exact IH.
Qed.

(** The loop stops at the last byte that is not a continuation byte. *)
Lemma strip_continuation_stop a b cs :
  is_continuation b = false -> Forall cont_byte cs ->
  strip_continuation (a ++ b :: cs) = a ++ [b].
Proof.
  intros Hb Hcs. unfold strip_continuation.
  rewrite rev_app_distr. simpl rev. rewrite <- app_assoc.
  rewrite drop_while_all.
  - simpl. rewrite Hb. simpl. rewrite rev_involutive. reflexivity.
  - apply List.Forall_forall. intros x Hx. apply in_rev in Hx.
    rewrite List.Forall_forall in Hcs. apply cont_byte_is_continuation.
    apply Hcs. assumption.
Qed.

Lemma Forall_firstn {A} (P : A -> Prop) k l :
  Forall P l -> Forall P (firstn k l).
Proof.
  intros H. revert k. induction H; intros [|k]; simpl; constructor; auto.
Qed.

(** A prefix of an encoding: whole characters, then possibly the lead
    byte of the next character and some of its continuation bytes. *)
Lemma firstn_encode_cut s : forall bs n,
  encode s = Some bs ->
  exists p q pb,
    s = p ++ q /\ encode p = Some pb /\
    (firstn n bs = pb \/
     exists lead conts,
       0xC2 <= lead <= 0xF4 /\ Forall cont_byte conts /\
       firstn n bs = pb ++ lead :: conts).
Proof.
  induction s as [|c s IH]; intros bs n H; simpl in H.
  - inversion H. exists [], [], []. rewrite firstn_nil. auto.
  - destruct (is_scalar c) eqn:Hc; [|discriminate].
    destruct (encode s) as [bs'|] eqn:Hs; [|discriminate].
    inversion H; subst bs; clear H.
    destruct (le_lt_dec (length (encode_cp c)) n) as [Hn|Hn].
    + rewrite firstn_app.
      rewrite firstn_all2 by assumption.
      destruct (IH bs' (n - length (encode_cp c))%nat eq_refl)
        as (p & q & pb & -> & Hp & Hcut).
      exists (c :: p), q, (encode_cp c ++ pb).
      split; [reflexivity|]. split; [simpl; rewrite Hc, Hp; reflexivity|].
      destruct Hcut as [-> | (lead & conts & Hl & Hcs & ->)].
      * left. reflexivity.
      * right. exists lead, conts. rewrite app_assoc. auto.
    + exists [], (c :: s), []. split; [reflexivity|]. split; [reflexivity|].
      rewrite firstn_app.
      replace (n - length (encode_cp c))%nat with O by lia.
      rewrite firstn_O, app_nil_r.
      destruct n as [|n]; [left; reflexivity|].
      destruct (encode_cp_shape c Hc) as [[_ E] | (lead & conts & E & Hl & Hcs)].
      * rewrite E in Hn. simpl in Hn. lia.
      * right. rewrite E. simpl. exists lead, (firstn n conts).
        split; [assumption|]. split; [|reflexivity].
        apply Forall_firstn. assumption.
Qed.

Lemma decode_lead_only lead :
  0xC2 <= lead <= 0xF4 -> decode_from Start [lead] = [].
Proof.
  intros H. rewrite decode_start.
  destruct (Z_le_gt_dec lead 0xDF); [rewrite start_byte_2 by lia; reflexivity|].
  destruct (Z_le_gt_dec 0xE0 lead).
  - destruct (Z_le_gt_dec lead 0xEF);
      [rewrite start_byte_3 by lia | rewrite start_byte_4 by lia];
      reflexivity.
  - lia.
Qed.

(** What the truncation keeps: a prefix of the characters, whose
    encoding fits in the [n] bytes. *)
Lemma truncate_decodes s bs n :
  encode s = Some bs ->
  exists p q pb,
    s = p ++ q /\ encode p = Some pb /\ (length pb <= n)%nat /\
    decode_ignore (strip_continuation (firstn n bs)) = p.
Proof.
  intros H.
  destruct (firstn_encode_cut s bs n H) as (p & q & pb & -> & Hp & Hcut).
  assert (Hlen : (length (firstn n bs) <= n)%nat) by apply firstn_le_length.
  destruct Hcut as [E | (lead & conts & Hl & Hcs & E)]; rewrite E in *.
  - destruct p as [|c0 p0] using rev_ind.
    + simpl in Hp. inversion Hp. exists [], q, []. simpl. auto with arith.
    + clear IHp0.
      destruct (encode_app_Some _ _ _ Hp) as (xa & xb & Ha & Hb & ->).
      simpl in Hb. destruct (is_scalar c0) eqn:Hc0; [|discriminate].
      inversion Hb; subst xb; clear Hb. rewrite app_nil_r in *.
      destruct (encode_cp_shape c0 Hc0)
        as [[Hr E0] | (lead & conts & E0 & Hl & Hcs)]; rewrite E0 in *.
      * exists (p0 ++ [c0]), q, (xa ++ [c0]).
        split; [reflexivity|]. split; [assumption|]. split; [assumption|].
        rewrite (strip_continuation_stop xa c0 [])
          by (auto using not_cont_is_continuation).
        unfold decode_ignore. rewrite (decode_encode_app _ _ _ Ha).
        rewrite decode_start, start_byte_ascii by lia. reflexivity.
      * exists p0, ([c0] ++ q), xa.
        split; [rewrite <- app_assoc; reflexivity|]. split; [assumption|].
        split; [rewrite length_app in Hlen; lia|].
        rewrite strip_continuation_stop
          by (auto; apply not_cont_is_continuation; lia).
        unfold decode_ignore. rewrite (decode_encode_app _ _ _ Ha).
        rewrite decode_lead_only by assumption. apply app_nil_r.
  - exists p, q, pb. split; [reflexivity|]. split; [assumption|].
    split; [rewrite length_app in Hlen; lia|].
    rewrite strip_continuation_stop
      by (auto; apply not_cont_is_continuation; lia).
    unfold decode_ignore. rewrite (decode_encode_app _ _ _ Hp).
    rewrite decode_lead_only by assumption. apply app_nil_r.
Qed.

End Utf8Facts.

(** ** Name sanitizer *)

Section Sanitizer.
Import Utf8.

Lemma encode_Some_scalar s bs :
  encode s = Some bs -> forallb is_scalar s = true.
Proof.
  revert bs. induction s as [|c s IH]; intros bs H; simpl in *; [reflexivity|].
  destruct (is_scalar c); [|discriminate].
  destruct (encode s) as [y|]; [|discriminate]. simpl. eauto.
Qed.

Lemma utf8_len_encode s bs : encode s = Some bs -> utf8_len s = len bs.
Proof. intros H. unfold utf8_len. rewrite H. reflexivity. Qed.

Lemma replace_invalid_scalar title :
  forallb is_scalar title = true ->
  forallb is_scalar (replace_invalid title) = true.
Proof.
  induction title as [|c t IH]; simpl; [reflexivity|].
  intros H. apply andb_true_iff in H. destruct H as [Hc Ht].
  rewrite (IH Ht), andb_true_r.
  destruct (invalid_char c); [reflexivity | assumption].
Qed.

(** The eight characters of the class do not occur in the name that
    [re.sub] returns. *)
Lemma replace_invalid_clean title c :
  invalid_char c = true -> contains c (replace_invalid title) = false.
Proof.
  intros Hc. unfold contains, replace_invalid.
  induction title as [|x t IH]; simpl; [reflexivity|].
  rewrite IH, orb_false_r.
  destruct (invalid_char x) eqn:Hx.
  - destruct (Z.eqb_spec c 95); [subst c; discriminate | reflexivity].
  - destruct (Z.eqb_spec c x); [subst x; congruence | reflexivity].
Qed.

(** C4, at the input where the code departs from it: the backslash is
    not in the character class of the sanitizer, so a title with a
    backslash keeps it: [sanitize_filename("a\b", ".mp4")] is ["a\b.mp4"],
    while a slash in the same place is replaced. *)
Theorem sanitize_filename_keeps_backslash :
  sanitize_filename (str_of "a\b") (str_of ".mp4") default_max_bytes
    = Some (str_of "a\b.mp4") /\
  contains 92 (str_of "a\b.mp4") = true /\
  sanitize_filename (str_of "a/b") (str_of ".mp4") default_max_bytes
    = Some (str_of "a_b.mp4").
Proof. repeat split; vm_compute; reflexivity. Qed.

(** C5 fails as stated: an extension of 238 bytes leaves a positive
    budget of 2 bytes for the name, the slice bound [2 - 3] is negative and
    drops only the last byte of the title, and the result has 250 bytes. *)
Lemma sanitize_filename_bound_fails :
  let title := str_of "aaaaaaaaaa" in
  let extension := repeat 120 238%nat in
  forallb is_scalar title = true /\
  forallb is_scalar extension = true /\
  0 < default_max_bytes - utf8_len extension /\
  sanitize_filename title extension default_max_bytes
    = Some (str_of "aaaaaaaaa..." ++ extension) /\
  ~ utf8_len (str_of "aaaaaaaaa..." ++ extension) <= default_max_bytes.
Proof. repeat split; vm_compute; congruence. Qed.

(** The shape of the result when the extension leaves room for the
    ellipsis. *)
Lemma sanitize_filename_shape title extension max_bytes :
  forallb is_scalar title = true ->
  forallb is_scalar extension = true ->
  3 <= max_bytes - utf8_len extension ->
  exists name,
    sanitize_filename title extension max_bytes = Some (name ++ extension) /\
    forallb is_scalar (name ++ extension) = true /\
    utf8_len (name ++ extension) <= max_bytes /\
    if max_bytes - utf8_len extension <? utf8_len (replace_invalid title)
    then exists kept dropped,
           replace_invalid title = kept ++ dropped /\
           name = kept ++ ellipsis /\
           utf8_len kept <= max_bytes - utf8_len extension - 3
    else name = replace_invalid title.
Proof.
  intros Ht He Hroom.
  destruct (encode_scalar _ He) as [ext_bytes Eext].
  destruct (encode_scalar _ (replace_invalid_scalar _ Ht)) as [encoded Eenc].
  rewrite (utf8_len_encode _ _ Eext) in *.
  rewrite (utf8_len_encode _ _ Eenc).
  unfold sanitize_filename. rewrite Eext, Eenc.
  destruct (Z.ltb_spec (max_bytes - len ext_bytes) (len encoded)) as [Hlong|Hfit].
  - unfold slice_to.
    destruct (Z.leb_spec 0 (max_bytes - len ext_bytes - 3)); [|lia].
    destruct (truncate_decodes _ _ (Z.to_nat (max_bytes - len ext_bytes - 3))
                Eenc) as (kept & dropped & pb & Hsplit & Hkept & Hlen & ->).
    exists (kept ++ ellipsis).
    assert (Eell : encode ellipsis = Some [46; 46; 46]) by reflexivity.
    pose proof (encode_app _ _ _ _ (encode_app _ _ _ _ Hkept Eell) Eext) as Eall.
    split; [reflexivity|].
    split; [exact (encode_Some_scalar _ _ Eall)|].
    split.
    + rewrite (utf8_len_encode _ _ Eall). unfold len in *.
      rewrite !length_app. simpl length. lia.
    + exists kept, dropped. split; [assumption|]. split; [reflexivity|].
      rewrite (utf8_len_encode _ _ Hkept). unfold len in *. lia.
  - exists (replace_invalid title).
    pose proof (encode_app _ _ _ _ Eenc Eext) as Eall.
    split; [reflexivity|].
    split; [exact (encode_Some_scalar _ _ Eall)|].
    split; [|reflexivity].
    rewrite (utf8_len_encode _ _ Eall). unfold len in *.
    rewrite length_app. lia.
Qed.

(** C5, amended: when the extension leaves at least 3 bytes for the name,
    the result is a name followed by the extension, its encoding has at
    most [max_bytes] bytes, and a title over the budget is cut to a prefix
    of whole characters of at most [max_bytes - len(ext) - 3] bytes
    followed by the ellipsis. *)
Theorem sanitize_filename_byte_bound title extension max_bytes :
  forallb is_scalar title = true ->
  forallb is_scalar extension = true ->
  3 <= max_bytes - utf8_len extension ->
  exists name,
    sanitize_filename title extension max_bytes = Some (name ++ extension) /\
    forallb is_scalar (name ++ extension) = true /\
    utf8_len (name ++ extension) <= max_bytes /\
    if max_bytes - utf8_len extension <? utf8_len (replace_invalid title)
    then exists kept dropped,
           replace_invalid title = kept ++ dropped /\
           name = kept ++ ellipsis /\
           utf8_len kept <= max_bytes - utf8_len extension - 3
    else name = replace_invalid title.
Proof. apply sanitize_filename_shape. Qed.

(** The bound at work on a title of two-, three- and four-byte
    characters cut inside a character. *)
Lemma sanitize_filename_byte_bound_witness :
  exists name,
    sanitize_filename [0xE9; 0x20AC; 0x1F600; 65; 66; 67] (str_of ".mp4") 12
      = Some (name ++ str_of ".mp4") /\
    forallb is_scalar (name ++ str_of ".mp4") = true /\
    utf8_len (name ++ str_of ".mp4") <= 12 /\
    if 12 - utf8_len (str_of ".mp4")
         <? utf8_len (replace_invalid [0xE9; 0x20AC; 0x1F600; 65; 66; 67])
    then exists kept dropped,
           replace_invalid [0xE9; 0x20AC; 0x1F600; 65; 66; 67]
             = kept ++ dropped /\
           name = kept ++ ellipsis /\
           utf8_len kept <= 12 - utf8_len (str_of ".mp4") - 3
    else name = replace_invalid [0xE9; 0x20AC; 0x1F600; 65; 66; 67].
Proof.
  apply (sanitize_filename_byte_bound
           [0xE9; 0x20AC; 0x1F600; 65; 66; 67] (str_of ".mp4") 12);
    vm_compute; congruence.
Defined.

End Sanitizer.

(** ** Title normalizer *)

Section Normalizer.

(** *** Strings that the steps leave alone *)

Lemma rfind_absent x s : ~ In x s -> rfind x s = -1.
Proof.
  induction s as [|c s IH]; simpl; intros H; [reflexivity|].
  rewrite IH by tauto. simpl.
  destruct (Z.eqb_spec c x); [subst; tauto | reflexivity].
Qed.

Lemma components_no_slash s : forall cur,
  ~ In 47 s ->
  PathLib.components_from cur s =
    if bool_decide (rev s ++ cur = [] \/ rev s ++ cur = [46]) then []
    else [rev (rev s ++ cur)].
Proof.
  induction s as [|c s IH]; intros cur H; simpl.
  - reflexivity.
  - destruct (Z.eqb_spec c 47); [subst; simpl in H; tauto|].
    rewrite IH by (simpl in H; tauto).
    rewrite <- app_assoc. reflexivity.
Qed.

Lemma stem_plain s : ~ In 47 s -> ~ In 46 s -> PathLib.stem s = s.
Proof.
  intros Hslash Hdot. unfold PathLib.stem, PathLib.name.
  rewrite components_no_slash by assumption. rewrite app_nil_r.
  assert (En : forall b : bool,
             (b = true -> s = []) ->
             List.last (if b then [] else [rev (rev s)]) [] = s).
  { intros [|] Hb; simpl; [symmetry; auto | apply rev_involutive]. }
  rewrite En.
  - unfold PathLib.stem_of_name.
    rewrite rfind_absent by assumption. reflexivity.
  - intros Hs. apply bool_decide_eq_true in Hs.
    destruct Hs as [Hs|Hs]; apply (f_equal (@rev Z)) in Hs;
      rewrite rev_involutive in Hs; subst s; [reflexivity|].
    simpl in Hdot. tauto.
Qed.

Lemma In_drop_while {A} (p : A -> bool) c s :
  In c (drop_while p s) -> In c s.
Proof.
  induction s as [|x s IH]; simpl; [tauto|].
  destruct (p x); simpl; tauto.
Qed.

Lemma match_tag_no_paren s : ~ In 40 s -> match_tag s = None.
Proof.
  intros H. unfold match_tag.
  destruct (drop_while is_space s) as [|o [|d1 [|d2 [|c [|d3 [|e rest]]]]]]
    eqn:Ht; try reflexivity.
  destruct (Z.eqb_spec o 40) as [->|]; [|reflexivity].
  exfalso. apply H. apply (In_drop_while is_space). rewrite Ht. left.
  reflexivity.
Qed.

Lemma remove_tags_plain s : ~ In 40 s -> remove_tags s = s.
Proof.
  unfold remove_tags. induction s as [|c s IH]; intros H; [reflexivity|].
  cbn [remove_tags_from]. rewrite match_tag_no_paren by assumption.
  rewrite IH by (simpl in H; tauto). reflexivity.
Qed.

Lemma map_id_on {A} (f : A -> A) l :
  Forall (fun x => f x = x) l -> map f l = l.
Proof. induction 1; simpl; congruence. Qed.

Lemma filter_all {A} (p : A -> bool) l :
  Forall (fun x => p x = true) l -> List.filter p l = l.
Proof.
  induction 1 as [|x l Hx Hl IH]; simpl; [reflexivity|].
  rewrite Hx, IH. reflexivity.
Qed.

Lemma lower_fixed s :
  Forall (fun c => lower_cp c = [c]) s -> lower s = s.
Proof.
  intros H. unfold lower.
  assert (Hall : forall before, lower_from before s = s); [|apply Hall].
  induction s as [|c s IH]; intros before; [reflexivity|].
  apply Forall_cons_iff in H. destruct H as [Hc Hs].
  cbn [lower_from]. unfold lower_at.
  destruct (Z.eqb_spec c 0x3A3) as [->|_]; [vm_compute in Hc; discriminate|].
  rewrite Hc, (IH Hs (c :: before)). reflexivity.
Qed.

(** *** Splitting and joining *)

Lemma split_from_word w : forall cur rest,
  Forall (fun c => is_space c = false) w ->
  split_from cur (w ++ rest) = split_from (rev w ++ cur) rest.
Proof.
  induction w as [|c w IH]; intros cur rest H; [reflexivity|].
  inversion H; subst. simpl. rewrite H2. rewrite IH by assumption.
  rewrite <- app_assoc. reflexivity.
Qed.

Lemma split_join ws :
  Forall plain_word ws -> split (join_space ws) = ws.
Proof.
  unfold split. induction 1 as [|w ws [Hne Hw] Hws IH]; [reflexivity|].
  assert (Hrev : rev w <> []).
  { intros E. apply Hne. apply (f_equal (@rev Z)) in E.
    rewrite rev_involutive in E. exact E. }
  destruct ws as [|w2 ws].
  - simpl. rewrite <- (app_nil_r w) at 1.
    rewrite split_from_word by assumption. rewrite app_nil_r. simpl.
    destruct (rev w) eqn:E; [congruence|].
    rewrite <- E, rev_involutive. reflexivity.
  - change (join_space (w :: w2 :: ws)) with (w ++ 32 :: join_space (w2 :: ws)).
    rewrite split_from_word by assumption. rewrite app_nil_r.
    cbn [split_from]. change (is_space 32) with true. cbv iota.
    destruct (rev w) eqn:E; [congruence|].
    rewrite <- E, rev_involutive, IH. reflexivity.
Qed.

Lemma join_space_cons w ws :
  ws <> [] -> join_space (w :: ws) = w ++ 32 :: join_space ws.
Proof. destruct ws; [congruence | reflexivity]. Qed.

Lemma join_space_head ws :
  Forall plain_word ws -> ws <> [] ->
  exists c r, join_space ws = c :: r /\ is_space c = false.
Proof.
  intros H Hne. destruct H as [|w ws [Hw Hc] Hws]; [congruence|].
  destruct w as [|c w]; [congruence|]. inversion Hc; subst.
  destruct ws; simpl; eauto.
Qed.

Lemma join_space_last ws :
  Forall plain_word ws -> ws <> [] ->
  exists r c, join_space ws = r ++ [c] /\ is_space c = false.
Proof.
  induction 1 as [|w ws [Hw Hc] Hws IH]; intros Hne; [congruence|].
  destruct ws as [|w2 ws].
  - simpl. destruct (exists_last Hw) as (r & c & ->).
    exists r, c. split; [reflexivity|].
    rewrite List.Forall_forall in Hc. apply Hc. apply in_or_app. right.
    left. reflexivity.
  - destruct IH as (r & c & E & Hsp); [congruence|].
    rewrite join_space_cons by congruence. rewrite E.
    exists (w ++ 32 :: r), c. rewrite <- app_assoc. auto.
Qed.

Lemma strip_join ws : Forall plain_word ws -> strip (join_space ws) = join_space ws.
Proof.
  intros H. destruct ws as [|w ws]; [reflexivity|].
  unfold strip, lstrip, rstrip.
  destruct (join_space_head _ H) as (c & r & E & Hc); [congruence|].
  destruct (join_space_last _ H) as (r' & c' & E' & Hc'); [congruence|].
  rewrite E. cbn [drop_while]. rewrite Hc. rewrite <- E, E'.
  rewrite rev_app_distr. cbn [rev app drop_while]. rewrite Hc'.
  change (c' :: rev r') with (rev [c'] ++ rev r').
  rewrite <- rev_app_distr, rev_involutive. reflexivity.
Qed.

(** *** Lower case and its context *)

Lemma space_uncased :
  is_case_ignorable 32 = false /\ is_cased 32 = false /\ lower_cp 32 = [32].
Proof. vm_compute. repeat split. Qed.

(** A space cuts the context of a capital sigma on both sides. *)
Lemma final_sigma_cut_before before x after :
  final_sigma (before ++ 32 :: x) after = final_sigma before after.
Proof.
  destruct space_uncased as (Hi & Hc & _).
  unfold final_sigma. f_equal.
  induction before as [|c before IH]; cbn [app drop_while].
  - rewrite Hi. assumption.
  - destruct (is_case_ignorable c); [assumption | reflexivity].
Qed.

Lemma final_sigma_cut_after before after x :
  final_sigma before (after ++ 32 :: x) = final_sigma before after.
Proof.
  destruct space_uncased as (Hi & Hc & _).
  unfold final_sigma. f_equal.
  induction after as [|c after IH]; cbn [app drop_while].
  - rewrite Hi, Hc. reflexivity.
  - destruct (is_case_ignorable c); [assumption | reflexivity].
Qed.

Lemma lower_from_cut s : forall before x,
  lower_from (before ++ 32 :: x) s = lower_from before s.
Proof.
  induction s as [|c s IH]; intros before x; [reflexivity|].
  cbn [lower_from]. unfold lower_at. rewrite final_sigma_cut_before.
  f_equal. apply (IH (c :: before)).
Qed.

Lemma lower_from_space w : forall before rest,
  lower_from before (w ++ 32 :: rest) = lower_from before w ++ 32 :: lower rest.
Proof.
  destruct space_uncased as (_ & _ & Hl).
  induction w as [|c w IH]; intros before rest.
  - cbn [app lower_from]. unfold lower_at. change (32 =? 0x3A3) with false.
    cbv iota. rewrite Hl. cbn [app]. f_equal.
    apply (lower_from_cut rest [] before).
  - cbn [app lower_from]. unfold lower_at. rewrite final_sigma_cut_after.
    rewrite IH, <- app_assoc. reflexivity.
Qed.

Lemma lower_join ws : lower (join_space ws) = join_space (map lower ws).
Proof.
  induction ws as [|w ws IH]; [reflexivity|].
  destruct ws as [|w2 ws]; [reflexivity|].
  change (join_space (w :: w2 :: ws)) with (w ++ 32 :: join_space (w2 :: ws)).
  unfold lower at 1. rewrite lower_from_space, IH. reflexivity.
Qed.

(** *** Character tables *)

Lemma table_cases (t : list (Z * Z)) (test : Z -> bool) :
  forallb (fun r => forallb test
                      (map (fun k => fst r + Z.of_nat k)
                           (seq 0 (Z.to_nat (snd r - fst r + 1))))) t = true ->
  forall c, in_table t c = true -> test c = true.
Proof.
  intros Hall c Hc. unfold in_table in Hc. apply existsb_exists in Hc.
  destruct Hc as (r & Hr & Hin). rewrite forallb_forall in Hall.
  specialize (Hall r Hr). rewrite forallb_forall in Hall. apply Hall.
  apply andb_true_iff in Hin. destruct Hin as [Hlo Hhi].
  apply Z.leb_le in Hlo, Hhi.
  apply in_map_iff. exists (Z.to_nat (c - fst r)). split; [lia|].
  apply in_seq. lia.
Qed.

Lemma find_outside {A} (span : A -> Z * Z) (l : list A) c :
  in_table (map span l) c = false ->
  List.find (fun b => (fst (span b) <=? c) && (c <=? snd (span b))) l = None.
Proof.
  unfold in_table. induction l as [|x l IH]; simpl; [reflexivity|].
  intros H. apply orb_false_iff in H. destruct H as [Hx Hl].
  rewrite Hx. auto.
Qed.

Lemma existsb_outside (l : list (Z * Z)) (extra : Z * Z -> bool) c :
  in_table l c = false ->
  existsb (fun r => (fst r <=? c) && (c <=? snd r) && extra r) l = false.
Proof.
  unfold in_table. induction l as [|x l IH]; simpl; [reflexivity|].
  intros H. apply orb_false_iff in H. destruct H as [Hx Hl].
  rewrite Hx. auto.
Qed.

(** Outside the ranges of the tables a character is its own lower case. *)
Lemma lower_cp_outside c :
  c <> 0x130 -> in_table lower_domain c = false -> lower_cp c = [c].
Proof.
  intros Hne Hout. unfold lower_cp.
  destruct (Z.eqb_spec c 0x130); [contradiction|].
  unfold lower_domain, in_table in Hout. rewrite existsb_app in Hout.
  apply orb_false_iff in Hout. destruct Hout as [Hb Hp].
  rewrite (find_outside fst lower_blocks c Hb).
  rewrite (existsb_outside lower_pairs (fun r => Z.even (c - fst r)) c Hp).
  reflexivity.
Qed.

Lemma lower_stable c :
  is_kept c = true -> is_space c = false -> is_separator c = false ->
  c <> 0x130 ->
  exists c', lower_cp c = [c'] /\ stable_char c' = true.
Proof.
  intros Hk Hs Hsep Hne.
  destruct (in_table lower_domain c) eqn:Hdom.
  - assert (Ht : implb (is_kept c && negb (is_space c)
                        && negb (is_separator c) && negb (c =? 0x130))
                       (match lower_cp c with
                        | [c'] => stable_char c'
                        | _ => false
                        end) = true).
    { clear Hk Hs Hsep Hne. revert c Hdom.
      apply (table_cases lower_domain
        (fun c => implb (is_kept c && negb (is_space c)
                         && negb (is_separator c) && negb (c =? 0x130))
                        (match lower_cp c with
                         | [c'] => stable_char c'
                         | _ => false
                         end))).
      vm_compute. reflexivity. }
    rewrite Hk, Hs, Hsep in Ht.
    destruct (Z.eqb_spec c 0x130); [contradiction|]. simpl in Ht.
    destruct (lower_cp c) as [|c' [|]]; try discriminate. eauto.
  - exists c. rewrite (lower_cp_outside c Hne Hdom). split; [reflexivity|].
    unfold stable_char. rewrite Hk, Hs, Hsep. simpl.
    apply bool_decide_eq_true_2. apply lower_cp_outside; assumption.
Qed.

Lemma stable_char_props c :
  stable_char c = true ->
  is_kept c = true /\ is_space c = false /\ is_separator c = false /\
  lower_cp c = [c] /\ c <> 40 /\ c <> 46 /\ c <> 47.
Proof.
  intros H. pose proof H as H0. unfold stable_char in H.
  repeat (apply andb_true_iff in H; destruct H as [H ?]).
  apply bool_decide_eq_true in H0 || idtac.
  repeat match goal with
    | X : negb _ = true |- _ => apply negb_true_iff in X
    | X : bool_decide _ = true |- _ => apply bool_decide_eq_true in X
    end.
  repeat split; try assumption; intros ->; vm_compute in H; discriminate.
Qed.

Lemma space_char_props :
  is_kept 32 = true /\ is_separator 32 = false /\ lower_cp 32 = [32].
Proof. vm_compute. repeat split. Qed.

(** *** Where the characters of each step come from *)

Lemma components_In s : forall cur comp c,
  In comp (PathLib.components_from cur s) -> In c comp ->
  In c cur \/ In c s.
Proof.
  induction s as [|x s IH]; intros cur comp c Hcomp Hc; simpl in Hcomp.
  - case_bool_decide; simpl in Hcomp; [tauto|].
    destruct Hcomp as [<-|[]]. left. apply in_rev. assumption.
  - destruct (Z.eqb_spec x 47).
    + case_bool_decide; simpl in Hcomp.
      * destruct (IH _ _ _ Hcomp Hc) as [[]|]. right. right. assumption.
      * destruct Hcomp as [<-|Hcomp]; [left; apply in_rev; assumption|].
        destruct (IH _ _ _ Hcomp Hc) as [[]|]. right. right. assumption.
    + destruct (IH _ _ _ Hcomp Hc) as [[->|]|]; simpl; auto.
Qed.

Lemma last_In {A} (l : list A) d : l <> [] -> In (List.last l d) l.
Proof.
  induction l as [|x l IH]; [congruence|]. intros _.
  destruct l as [|y l]; [left; reflexivity|].
  right. apply IH. congruence.
Qed.

Lemma stem_In x c : In c (PathLib.stem x) -> In c x.
Proof.
  unfold PathLib.stem, PathLib.stem_of_name, PathLib.name. intros H.
  assert (Hn : In c (List.last (PathLib.components_from [] x) [])).
  { destruct ((0 <? _) && _); [|assumption].
    rewrite <- (firstn_skipn (Z.to_nat
      (rfind 46 (List.last (PathLib.components_from [] x) [])))).
    apply in_or_app. left. assumption. }
  destruct (PathLib.components_from [] x) as [|a l] eqn:E; [destruct Hn|].
  rewrite <- E in Hn.
  assert (Hl : In (List.last (PathLib.components_from [] x) [])
                  (PathLib.components_from [] x))
    by (apply last_In; congruence).
  destruct (components_In _ _ _ _ Hl Hn) as [[]|]. assumption.
Qed.

Lemma remove_tags_from_In s : forall skip c,
  In c (remove_tags_from skip s) -> In c s.
Proof.
  induction s as [|x s IH]; intros skip c H; [assumption|].
  cbn [remove_tags_from] in H. destruct skip as [|k].
  - destruct (match_tag (x :: s)).
    + right. eapply IH. eassumption.
    + destruct H as [->|H]; [left; reflexivity|]. right. eapply IH.
      eassumption.
  - right. eapply IH. eassumption.
Qed.

Lemma split_from_In s : forall cur w,
  In w (split_from cur s) ->
  w <> [] /\ forall c, In c w -> In c cur \/ (In c s /\ is_space c = false).
Proof.
  induction s as [|x s IH]; intros cur w H; simpl in H.
  - destruct cur as [|a cur]; [destruct H|].
    destruct H as [<-|[]]. split.
    + intros E. apply (f_equal (@rev Z)) in E. rewrite rev_involutive in E.
      discriminate.
    + intros c Hc. left. apply in_rev. assumption.
  - destruct (is_space x) eqn:Hx.
    + assert (Hrest : In w (split_from [] s) ->
                w <> [] /\ forall c, In c w ->
                  In c cur \/ (In c (x :: s) /\ is_space c = false)).
      { intros Hw. destruct (IH _ _ Hw) as [Hne Hin]. split; [assumption|].
        intros c Hc. destruct (Hin c Hc) as [[]|[? ?]]. right. simpl. auto. }
      destruct cur as [|a cur]; [auto|].
      destruct H as [<-|H]; [|auto]. split.
      * intros E. apply (f_equal (@rev Z)) in E. rewrite rev_involutive in E.
        discriminate.
      * intros c Hc. left. apply in_rev. assumption.
    + destruct (IH _ _ H) as [Hne Hin]. split; [assumption|].
      intros c Hc. destruct (Hin c Hc) as [[->|]|[? ?]]; simpl; auto.
Qed.

(** *** The form of a normalized title *)

Lemma stable_plain w : stable_word w -> plain_word w.
Proof.
  intros [Hne Hw]. split; [assumption|].
  eapply List.Forall_impl; [|exact Hw]. intros c Hc.
  apply stable_char_props in Hc. tauto.
Qed.

Lemma join_chars ws :
  Forall stable_word ws ->
  Forall (fun c => c = 32 \/ stable_char c = true) (join_space ws).
Proof.
  induction 1 as [|w ws [Hne Hw] Hws IH]; [constructor|].
  assert (Hw' : Forall (fun c => c = 32 \/ stable_char c = true) w)
    by (eapply List.Forall_impl; [|exact Hw]; auto).
  destruct ws as [|w2 ws]; [exact Hw'|].
  rewrite join_space_cons by congruence.
  apply Forall_app. split; [assumption|]. constructor; auto.
Qed.

(** A title made of stable words separated by single spaces is a fixed
    point of the normalizer. *)
Lemma normalize_stable ws :
  Forall stable_word ws -> normalize_title (join_space ws) = join_space ws.
Proof.
  intros H. pose proof (join_chars ws H) as Hc.
  assert (Hp : Forall plain_word ws)
    by (eapply List.Forall_impl; [|exact H]; apply stable_plain).
  rewrite List.Forall_forall in Hc.
  assert (Hnot : forall x, (x = 40 \/ x = 46 \/ x = 47) ->
                   ~ In x (join_space ws)).
  { intros x Hx Hin. destruct (Hc x Hin) as [->|Hst]; [lia|].
    apply stable_char_props in Hst. lia. }
  unfold normalize_title.
  rewrite stem_plain by auto. rewrite remove_tags_plain by auto.
  rewrite map_id_on.
  2:{ apply List.Forall_forall. intros c Hin.
      destruct (Hc c Hin) as [->|Hst]; [reflexivity|].
      apply stable_char_props in Hst. destruct Hst as (_ & _ & -> & _).
      reflexivity. }
  rewrite filter_all.
  2:{ apply List.Forall_forall. intros c Hin.
      destruct (Hc c Hin) as [->|Hst]; [reflexivity|].
      apply stable_char_props in Hst. tauto. }
  rewrite split_join by assumption.
  rewrite lower_fixed.
  2:{ apply List.Forall_forall. intros c Hin.
      destruct (Hc c Hin) as [->|Hst]; [reflexivity|].
      apply stable_char_props in Hst. tauto. }
  apply strip_join. assumption.
Qed.

Lemma lower_at_stable before after c :
  is_kept c = true -> is_space c = false -> is_separator c = false ->
  c <> 0x130 ->
  exists c', lower_at before after c = [c'] /\ stable_char c' = true.
Proof.
  intros Hk Hs Hsep Hne. unfold lower_at.
  destruct (Z.eqb_spec c 0x3A3) as [_|_]; [|apply lower_stable; assumption].
  destruct (final_sigma before after); eexists;
    (split; [reflexivity | vm_compute; reflexivity]).
Qed.

Lemma lower_from_stable w : forall before,
  (forall c, In c w ->
     is_kept c = true /\ is_space c = false /\ is_separator c = false /\
     c <> 0x130) ->
  Forall (fun c => stable_char c = true) (lower_from before w) /\
  (w <> [] -> lower_from before w <> []).
Proof.
  induction w as [|c w IH]; intros before Hw; [split; [constructor | congruence]|].
  destruct (Hw c (or_introl eq_refl)) as (Hk & Hs & Hsep & Hne).
  destruct (lower_at_stable before w c Hk Hs Hsep Hne) as (c' & E & Hc').
  destruct (IH (c :: before)) as [Hall _];
    [intros x Hx; apply Hw; right; assumption|].
  cbn [lower_from]. rewrite E. split; [|discriminate].
  constructor; assumption.
Qed.

Lemma lower_word w :
  w <> [] ->
  (forall c, In c w ->
     is_kept c = true /\ is_space c = false /\ is_separator c = false /\
     c <> 0x130) ->
  stable_word (lower w).
Proof.
  intros Hne Hw. destruct (lower_from_stable w [] Hw) as [Hall Hnil].
  split; [apply Hnil; assumption | exact Hall].
Qed.

(** Without U+0130 in the input, the normalizer returns stable words
    separated by single spaces. *)
Lemma normalize_form x :
  ~ In 0x130 x ->
  exists ws, Forall stable_word ws /\ normalize_title x = join_space ws.
Proof.
  intros Hx. unfold normalize_title.
  set (t := List.filter is_kept
              (map (fun c => if is_separator c then 32 else c)
                   (remove_tags (PathLib.stem x)))).
  assert (Ht : forall c, In c t ->
            is_kept c = true /\ is_separator c = false /\ (c = 32 \/ In c x)).
  { intros c Hc. apply filter_In in Hc. destruct Hc as [Hc Hk].
    split; [assumption|]. apply in_map_iff in Hc.
    destruct Hc as (c0 & E & Hc0).
    destruct (is_separator c0) eqn:Hsep; subst c; [auto|].
    split; [assumption|]. right. apply stem_In.
    apply (remove_tags_from_In _ O). assumption. }
  exists (map lower (split t)). split.
  - apply List.Forall_forall. intros w' Hw'. apply in_map_iff in Hw'.
    destruct Hw' as (w & <- & Hw). apply split_from_In in Hw.
    destruct Hw as [Hne Hw]. apply lower_word; [assumption|].
    intros c Hc. destruct (Hw c Hc) as [[]|[Hin Hsp]].
    destruct (Ht c Hin) as (Hk & Hsep & Hor).
    repeat split; try assumption.
    intros ->. destruct Hor as [|Hin']; [discriminate | auto].
  - rewrite lower_join. apply strip_join.
    apply List.Forall_forall. intros w' Hw'. apply in_map_iff in Hw'.
    destruct Hw' as (w & <- & Hw). apply split_from_In in Hw.
    destruct Hw as [Hne Hw]. apply stable_plain. apply lower_word; [assumption|].
    intros c Hc. destruct (Hw c Hc) as [[]|[Hin Hsp]].
    destruct (Ht c Hin) as (Hk & Hsep & Hor).
    repeat split; try assumption.
    intros ->. destruct Hor as [|Hin']; [discriminate | auto].
Qed.

(** C9 fails as stated: the lower case of U+0130 is [i] followed by the
    combining dot above U+0307, which the filter of the second pass
    removes. *)
Lemma normalize_title_not_idempotent :
  normalize_title [0x130] = [0x69; 0x307] /\
  normalize_title (normalize_title [0x130]) = [0x69] /\
  normalize_title (normalize_title [0x130]) <> normalize_title [0x130].
Proof. repeat split; vm_compute; congruence. Qed.

(** C9, amended: on every string that does not contain U+0130, a second
    pass of the normalizer changes nothing; the empty string is
    normalized to the empty string. *)
Theorem normalize_title_idempotent x :
  ~ In 0x130 x ->
  normalize_title (normalize_title x) = normalize_title x /\
  normalize_title [] = [].
Proof.
  intros Hx. split; [|reflexivity].
  destruct (normalize_form x Hx) as (ws & Hws & ->).
  apply normalize_stable. assumption.
Qed.

Lemma normalize_title_idempotent_witness :
  normalize_title (normalize_title (str_of "Talk_Title - Part 2 (39C3).mp4"))
    = normalize_title (str_of "Talk_Title - Part 2 (39C3).mp4") /\
  normalize_title [] = [].
Proof.
  apply (normalize_title_idempotent (str_of "Talk_Title - Part 2 (39C3).mp4")).
  vm_compute. intros H. repeat (destruct H as [H|H]; [discriminate|]).
    exact H.
Defined.

End Normalizer.

(** ** Similarity matcher *)

Section MatcherFacts.

Variable ratio : pystr -> pystr -> Q.

Lemma first_match_spec title threshold entries :
  match first_match ratio (normalize_title title) threshold entries with
  | Some e =>
      exists before after,
        entries = before ++ e :: after /\
        is_match ratio title threshold e /\
        Forall (fun e' => ~ is_match ratio title threshold e') before
  | None => Forall (fun e' => ~ is_match ratio title threshold e') entries
  end.
Proof.
  induction entries as [|x entries IH]; simpl; [constructor|].
  assert (Hskip : ~ is_match ratio title threshold x ->
    match first_match ratio (normalize_title title) threshold entries with
    | Some e =>
        exists before after,
          x :: entries = before ++ e :: after /\
          is_match ratio title threshold e /\
          Forall (fun e' => ~ is_match ratio title threshold e') before
    | None => Forall (fun e' => ~ is_match ratio title threshold e') (x :: entries)
    end).
  { intros Hx. destruct (first_match _ _ _ entries) as [e|].
    - destruct IH as (before & after & -> & He & Hb).
      exists (x :: before), after. repeat split; try apply He.
      constructor; assumption.
    - constructor; assumption. }
  destruct (d_is_file x) eqn:Hf; simpl.
  2:{ apply Hskip. intros (H & _). congruence. }
  destruct (has_media_suffix (d_name x)) eqn:Hm; simpl.
  2:{ apply Hskip. intros (_ & H & _). congruence. }
  destruct (Qle_bool threshold _) eqn:Hq.
  - exists [], entries. split; [reflexivity|]. split; [|constructor].
    repeat split; try assumption. apply Qle_bool_iff. assumption.
  - apply Hskip. intros (_ & _ & H). apply Qle_bool_iff in H. congruence.
Qed.

(** C6: the matcher returns nothing for a missing directory; otherwise it
    returns the first entry, in the order of enumeration, that is a regular
    file with an allowed suffix and a ratio at or above the threshold, and
    nothing when there is none.  A sole candidate whose ratio equals the
    threshold is returned, one whose ratio is below it is not. *)
Theorem find_matching_release_first title threshold :
  find_matching_release ratio title None threshold = None /\
  (forall entries,
     match find_matching_release ratio title (Some entries) threshold with
     | Some e =>
         exists before after,
           entries = before ++ e :: after /\
           is_match ratio title threshold e /\
           Forall (fun e' => ~ is_match ratio title threshold e') before
     | None => Forall (fun e' => ~ is_match ratio title threshold e') entries
     end) /\
  (forall e,
     d_is_file e = true -> has_media_suffix (d_name e) = true ->
     (ratio (normalize_title title) (normalize_title (d_name e)) == threshold
      -> find_matching_release ratio title (Some [e]) threshold = Some e)%Q /\
     (ratio (normalize_title title) (normalize_title (d_name e)) < threshold
      -> find_matching_release ratio title (Some [e]) threshold = None)%Q).
Proof.
  split; [reflexivity|]. split.
  - intros entries. apply first_match_spec.
  - intros e Hf Hm. simpl. rewrite Hf, Hm. simpl. split; intros H.
    + assert (Hq : Qle_bool threshold
                (ratio (normalize_title title) (normalize_title (d_name e)))
              = true)
        by (apply Qle_bool_iff; rewrite H; apply Qle_refl).
      rewrite Hq. reflexivity.
    + destruct (Qle_bool threshold _) eqn:Hq; [|reflexivity].
      apply Qle_bool_iff in Hq. exfalso.
      exact (Qlt_not_le _ _ H Hq).
Qed.

End MatcherFacts.

(** ** Cleanup pass *)

Section CleanupFacts.

Variable ratio : pystr -> pystr -> Q.
Variable releases : list dirent.

Let matched (e : dirent) : bool :=
  bool_decide (is_Some (find_matching_release ratio (d_name e)
                          (Some releases) default_threshold)).

Let named (ns : list pystr) (e : dirent) : bool :=
  existsb (fun n => bool_decide (d_name e = n)) ns.

Lemma named_In ns e : named ns e = true <-> In (d_name e) ns.
Proof.
  unfold named. rewrite existsb_exists. split.
  - intros (n & Hn & E). apply bool_decide_eq_true in E. congruence.
  - intros H. exists (d_name e). split; [assumption|].
    apply bool_decide_eq_true_2. reflexivity.
Qed.

Lemma named_not_In ns e : named ns e = false <-> ~ In (d_name e) ns.
Proof.
  rewrite <- named_In. destruct (named ns e); split; congruence.
Qed.

Lemma filter_filter {A} (p q : A -> bool) l :
  List.filter p (List.filter q l) = List.filter (fun x => q x && p x) l.
Proof.
  induction l as [|x l IH]; simpl; [reflexivity|].
  destruct (q x); simpl; [destruct (p x)|]; rewrite IH; reflexivity.
Qed.

Lemma filter_ext_in_bool {A} (p q : A -> bool) l :
  (forall x, In x l -> p x = q x) -> List.filter p l = List.filter q l.
Proof.
  induction l as [|x l IH]; simpl; intros H; [reflexivity|].
  rewrite (H x) by auto. rewrite IH by auto. reflexivity.
Qed.

(** The loop removes from the directory the entries named like a matched
    entry of the snapshot, and counts them. *)
Lemma cleanup_loop_spec snapshot : forall cur removed,
  List.NoDup (map d_name snapshot) ->
  (forall e, In e snapshot -> In e cur /\ d_is_file e = true) ->
  cleanup_loop ratio snapshot (Some releases) cur removed =
    Some (List.filter
            (fun e => negb (named (map d_name (List.filter matched snapshot)) e))
            cur,
          removed + len (List.filter matched snapshot)).
Proof.
  induction snapshot as [|x snapshot IH]; intros cur removed Hnd Hin.
  - simpl. f_equal. f_equal; [|unfold len; simpl; lia].
    symmetry. apply filter_all. apply List.Forall_forall. intros e _.
    reflexivity.
  - inversion Hnd as [|? ? Hx Hnd']; subst.
    cbn [cleanup_loop List.filter].
    destruct (find_matching_release ratio (d_name x) (Some releases)
                default_threshold) as [r|] eqn:Hm.
    + assert (Hmx : matched x = true)
        by (unfold matched; rewrite Hm; apply bool_decide_eq_true_2; eauto).
      rewrite Hmx.
      destruct (Hin x (or_introl eq_refl)) as [Hxc Hxf].
      unfold unlink_entry.
      assert (Hex : existsb (fun e => bool_decide (d_name e = d_name x)
                                       && d_is_file e) cur = true).
      { apply existsb_exists. exists x. split; [assumption|].
        rewrite bool_decide_eq_true_2 by reflexivity. assumption. }
      rewrite Hex. rewrite IH; [| assumption |].
      * f_equal. f_equal.
        -- rewrite filter_filter. apply filter_ext_in_bool. intros e _.
           unfold named. cbn [map existsb].
           destruct (decide (d_name e = d_name x)) as [E|E].
           ++ rewrite (bool_decide_eq_true_2 _ E). reflexivity.
           ++ rewrite (bool_decide_eq_false_2 _ E). reflexivity.
        -- unfold len. cbn [length]. lia.
      * intros e He. destruct (Hin e (or_intror He)) as [Hec Hef].
        split; [|assumption]. apply filter_In. split; [assumption|].
        rewrite bool_decide_eq_false_2; [reflexivity|].
        intros E. apply Hx. rewrite <- E. apply in_map. assumption.
    + assert (Hmx : matched x = false)
        by (unfold matched; rewrite Hm; apply bool_decide_eq_false_2;
            intros [? ?]; discriminate).
      rewrite Hmx.
      apply IH; [assumption|]. intros e He. apply Hin. right. assumption.
Qed.

Lemma NoDup_map_filter {A B} (f : A -> B) (p : A -> bool) l :
  List.NoDup (map f l) -> List.NoDup (map f (List.filter p l)).
Proof.
  induction l as [|x l IH]; simpl; intros H; [constructor|].
  inversion H as [|? ? Hx Hl]; subst.
  destruct (p x); simpl; [|auto]. constructor; [|auto].
  intros Hin. apply Hx. apply in_map_iff in Hin.
  destruct Hin as (y & E & Hy). apply filter_In in Hy.
  rewrite <- E. apply in_map. tauto.
Qed.

(** One run on two existing directories. *)
Lemma cleanup_once entries :
  List.NoDup (map d_name entries) ->
  Forall (fun e => ends_with (str_of ".mp4") (d_name e) = true ->
                   d_is_file e = true) entries ->
  cleanup_relive_duplicates ratio
    {| relive_dir := Some entries; releases_dir := Some releases |} =
  Some ({| relive_dir :=
             Some (List.filter
                     (fun e => negb (superseded ratio (Some releases) e))
                     entries);
           releases_dir := Some releases |},
        len (List.filter (superseded ratio (Some releases)) entries)).
Proof.
  intros Hnd Hfiles. unfold cleanup_relive_duplicates. cbn [relive_dir releases_dir].
  rewrite cleanup_loop_spec.
  - f_equal. f_equal.
    + f_equal. f_equal. apply filter_ext_in_bool. intros e He. f_equal.
      unfold named, superseded, glob_mp4. rewrite filter_filter.
      destruct (ends_with (str_of ".mp4") (d_name e)
                && bool_decide (is_Some (find_matching_release ratio (d_name e)
                     (Some releases) default_threshold))) eqn:Hs.
      * apply named_In. apply in_map. apply filter_In.
        split; [assumption|]. exact Hs.
      * apply named_not_In. intros Hin. apply in_map_iff in Hin.
        destruct Hin as (e' & E & He'). apply filter_In in He'.
        destruct He' as [_ He']. unfold matched in He'. rewrite E in He'.
        congruence.
    + unfold glob_mp4. rewrite filter_filter. reflexivity.
  - apply NoDup_map_filter. assumption.
  - intros e He. apply filter_In in He. destruct He as [He Hmp4].
    split; [assumption|]. rewrite List.Forall_forall in Hfiles. auto.
Qed.

End CleanupFacts.

(** C8: on two existing directories whose entries have distinct names and
    whose [*.mp4] entries are regular files, the cleanup pass removes
    exactly the [*.mp4] entries for which the matcher finds a release,
    leaves the releases alone and returns the number removed; run again on
    the result, it removes nothing and returns zero. *)
Theorem cleanup_relive_duplicates_idempotent ratio entries releases :
  List.NoDup (map d_name entries) ->
  Forall (fun e => ends_with (str_of ".mp4") (d_name e) = true ->
                   d_is_file e = true) entries ->
  let config := {| relive_dir := Some entries; releases_dir := Some releases |} in
  let kept := List.filter (fun e => negb (superseded ratio (Some releases) e))
                          entries in
  let after := {| relive_dir := Some kept; releases_dir := Some releases |} in
  cleanup_relive_duplicates ratio config
    = Some (after, len (List.filter (superseded ratio (Some releases)) entries))
  /\ cleanup_relive_duplicates ratio after = Some (after, 0).
Proof.
  intros Hnd Hfiles config kept after. split; [apply cleanup_once; assumption|].
  unfold after. rewrite cleanup_once.
  - f_equal. f_equal.
    + f_equal. f_equal. unfold kept. rewrite filter_filter.
      apply filter_ext_in_bool. intros e _. apply andb_diag.
    + unfold kept. rewrite filter_filter.
      assert (E : List.filter
                (fun e => negb (superseded ratio (Some releases) e)
                          && superseded ratio (Some releases) e) entries = []).
      { clear. induction entries as [|e l IH]; simpl; [reflexivity|].
        destruct (superseded ratio (Some releases) e); simpl; assumption. }
      rewrite E. reflexivity.
  - apply NoDup_map_filter. assumption.
  - unfold kept. apply List.Forall_forall. intros e He. apply filter_In in He.
    rewrite List.Forall_forall in Hfiles. apply Hfiles. tauto.
Qed.

(** ** Double precision *)

Section FloatFacts.
Import Float.

Lemma round_to_even_spec n s :
  0 < s -> 0 <= n ->
  exists q r,
    n = q * 2 ^ s + r /\ 0 <= r < 2 ^ s /\
    (round_to_even n s = q /\
       (2 * r < 2 ^ s \/ 2 * r = 2 ^ s /\ Z.odd q = false) \/
     round_to_even n s = q + 1 /\
       (2 ^ s < 2 * r \/ 2 * r = 2 ^ s /\ Z.odd q = true)).
Proof.
  intros Hs Hn. exists (n / 2 ^ s), (n mod 2 ^ s).
  set (q := n / 2 ^ s). set (r := n mod 2 ^ s).
  assert (Hp : 0 < 2 ^ s) by (apply Z.pow_pos_nonneg; lia).
  assert (Hh : 2 ^ s = 2 * 2 ^ (s - 1)).
  { replace s with (1 + (s - 1)) at 1 by lia.
    rewrite Z.pow_add_r by lia. reflexivity. }
  pose proof (Z.div_mod n (2 ^ s) ltac:(lia)) as Hdm.
  pose proof (Z.mod_pos_bound n (2 ^ s) Hp) as Hr.
  fold q r in Hdm, Hr.
  split; [rewrite Z.mul_comm; exact Hdm|]. split; [assumption|].
  unfold round_to_even. fold q r.
  destruct (Z.ltb_spec (2 ^ (s - 1)) r); cbn [orb andb].
  - right. split; [reflexivity | lia].
  - destruct (Z.eqb_spec r (2 ^ (s - 1))); cbn [orb andb].
    + destruct (Z.odd q) eqn:Ho; [right | left];
        (split; [reflexivity | right; split; [lia | reflexivity]]).
    + left. split; [reflexivity | lia].
Qed.

(** What [round53] returns for a positive integer. *)
Lemma round53_spec n :
  0 < n ->
  (round53 n = (n, 0) /\ n < 2 ^ 53) \/
  exists e q r,
    0 < e /\ 2 ^ 52 * 2 ^ e <= n < 2 ^ 53 * 2 ^ e /\
    n = q * 2 ^ e + r /\ 0 <= r < 2 ^ e /\
    (round53 n = (q, e) /\
       (2 * r < 2 ^ e \/ 2 * r = 2 ^ e /\ Z.odd q = false) \/
     round53 n = (q + 1, e) /\
       (2 ^ e < 2 * r \/ 2 * r = 2 ^ e /\ Z.odd q = true)).
Proof.
  intros Hn. unfold round53.
  pose proof (Z.log2_spec n Hn) as [Hlo Hhi].
  pose proof (Z.log2_nonneg n) as Hl.
  destruct (Z.ltb_spec 0 (Z.log2 n + 1 - 53)) as [Hs|Hs].
  - right. set (e := Z.log2 n + 1 - 53) in *.
    assert (E1 : 2 ^ Z.log2 n = 2 ^ 52 * 2 ^ e).
    { rewrite <- Z.pow_add_r by lia. f_equal. lia. }
    assert (E2 : 2 ^ Z.succ (Z.log2 n) = 2 ^ 53 * 2 ^ e).
    { rewrite <- Z.pow_add_r by lia. f_equal. lia. }
    destruct (round_to_even_spec n e Hs ltac:(lia))
      as (q & r & Hq & Hr & Hm).
    exists e, q, r. split; [assumption|]. split; [lia|].
    split; [assumption|]. split; [assumption|].
    destruct Hm as [[-> H]|[-> H]]; [left | right]; auto.
  - left. split; [reflexivity|].
    assert (Z.succ (Z.log2 n) <= 53) by lia.
    assert (2 ^ Z.succ (Z.log2 n) <= 2 ^ 53)
      by (apply Z.pow_le_mono_r; lia).
    lia.
Qed.

(** Rounding moves a value up by at most one part in [2^53]. *)
Lemma round53_upper n m e :
  0 < n -> round53 n = (m, e) ->
  0 <= e /\ 0 < m /\ 2 ^ 53 * (m * 2 ^ e) <= (2 ^ 53 + 1) * n.
Proof.
  intros Hn E. destruct (round53_spec n Hn) as [[E0 Hlt]|H].
  - rewrite E0 in E. inversion E; subst. rewrite Z.mul_1_r. lia.
  - destruct H as (e' & q & r & He & Hb & Hq & Hr & Hm).
    assert (Hp : 0 < 2 ^ e') by (apply Z.pow_pos_nonneg; lia).
    set (G := 2 ^ e') in *.
    assert (Hq52 : 2 ^ 52 <= q) by nia.
    destruct Hm as [[E' H]|[E' H]]; rewrite E' in E; inversion E; subst;
      fold G; (split; [lia|]); (split; [lia|]); nia.
Qed.

Lemma of_int_eq n m e :
  round53 n = (m, e) ->
  of_int n = if 2 ^ 1024 <=? m * 2 ^ e then None else Some (m, e).
Proof. intros E. unfold of_int. rewrite E. reflexivity. Qed.

(** [float(n)] raises exactly from [2^1024 - 2^970] on. *)
Lemma of_int_overflow n :
  0 < n -> (of_int n = None <-> limit <= n).
Proof.
  intros Hn. unfold limit.
  destruct (round53_spec n Hn) as [[E0 Hlt]|H].
  - rewrite (of_int_eq _ _ _ E0). rewrite Z.mul_1_r.
    destruct (Z.leb_spec (2 ^ 1024) n); split; intros; try discriminate; lia.
  - destruct H as (e & q & r & He & Hb & Hq & Hr & Hm).
    assert (Hp : 0 < 2 ^ e) by (apply Z.pow_pos_nonneg; lia).
    assert (Hq52 : 2 ^ 52 <= q < 2 ^ 53) by nia.
    destruct (Z_lt_ge_dec e 971) as [Hlow|Hhigh];
      [|destruct (Z.eq_dec e 971) as [->|Hne]].
    + assert (HG : 2 ^ e <= 2 ^ 970) by (apply Z.pow_le_mono_r; lia).
      set (G := 2 ^ e) in *.
      assert (Hsmall : forall m, m <= q + 1 -> m * G < 2 ^ 1024).
      { intros m Hm'.
        assert (m * G <= 2 ^ 53 * G) by (apply Z.mul_le_mono_nonneg_r; lia).
        assert (2 ^ 53 * G <= 2 ^ 53 * 2 ^ 970) by lia.
        change (2 ^ 53 * 2 ^ 970) with (2 ^ 1023) in *. lia. }
      pose proof (Hsmall q ltac:(lia)) as Hs1.
      pose proof (Hsmall (q + 1) ltac:(lia)) as Hs2.
      assert (Hn' : n < 2 ^ 1024 - 2 ^ 970).
      { assert (2 ^ 53 * G <= 2 ^ 53 * 2 ^ 970) by lia.
        change (2 ^ 53 * 2 ^ 970) with (2 ^ 1023) in *. lia. }
      destruct Hm as [[E _]|[E _]]; rewrite (of_int_eq _ _ _ E); fold G;
        match goal with
        | |- context [2 ^ 1024 <=? ?x] => destruct (Z.leb_spec (2 ^ 1024) x)
        end; split; intros; try discriminate; lia.
    + let v := eval vm_compute in (2 ^ 971) in change (2 ^ 971) with v in *.
      let v := eval vm_compute in (2 ^ 1024) in change (2 ^ 1024) with v in *.
      let v := eval vm_compute in (2 ^ 970) in change (2 ^ 970) with v in *.
      let v := eval vm_compute in (2 ^ 53) in change (2 ^ 53) with v in *.
      let v := eval vm_compute in (2 ^ 52) in change (2 ^ 52) with v in *.
      destruct Hm as [[E H]|[E H]]; rewrite (of_int_eq _ _ _ E);
        let v := eval vm_compute in (2 ^ 971) in change (2 ^ 971) with v;
        let v := eval vm_compute in (2 ^ 1024) in change (2 ^ 1024) with v;
        match goal with
        | |- context [?c <=? ?x] => destruct (Z.leb_spec c x) as [Hbig|Hsm]
        end; split; intros Hx; try discriminate; try reflexivity.
      * lia.
      * exfalso. assert (q = 9007199254740991) by lia. subst q.
        destruct H as [H|[H Ho]]; [lia | clear - Ho; discriminate Ho].
      * assert (q = 9007199254740991) by lia. subst q. lia.
      * exfalso. lia.
    + assert (HG : 2 ^ 972 <= 2 ^ e) by (apply Z.pow_le_mono_r; lia).
      set (G := 2 ^ e) in *.
      assert (Hbig : forall m, q <= m -> 2 ^ 1024 <= m * G).
      { intros m Hm'.
        assert (2 ^ 52 * G <= m * G) by (apply Z.mul_le_mono_nonneg_r; lia).
        assert (2 ^ 52 * 2 ^ 972 <= 2 ^ 52 * G) by lia.
        change (2 ^ 52 * 2 ^ 972) with (2 ^ 1024) in *. lia. }
      pose proof (Hbig q ltac:(lia)) as Hb1.
      pose proof (Hbig (q + 1) ltac:(lia)) as Hb2.
      assert (Hn' : 2 ^ 1024 <= n).
      { assert (2 ^ 52 * 2 ^ 972 <= 2 ^ 52 * G) by lia.
        change (2 ^ 52 * 2 ^ 972) with (2 ^ 1024) in *. lia. }
      destruct Hm as [[E _]|[E _]]; rewrite (of_int_eq _ _ _ E); fold G;
        match goal with
        | |- context [2 ^ 1024 <=? ?x] => destruct (Z.leb_spec (2 ^ 1024) x)
        end; split; intros; try reflexivity; lia.
Qed.

Lemma of_int_round n f :
  of_int n = Some f -> round53 n = f.
Proof.
  unfold of_int. destruct (round53 n) as [m e].
  destruct (_ <=? _); [discriminate|]. congruence.
Qed.

(** The product with [0.99] is never above the integer itself. *)
Lemma times_c099_le c f :
  0 < c -> of_int c = Some f ->
  forall a, c <= a -> int_lt a (mul f c099) = false.
Proof.
  intros Hc Hf a Ha. apply of_int_round in Hf. destruct f as [m e].
  destruct (round53_upper c m e Hc Hf) as (He & Hm & Hup).
  unfold mul, c099. cbn [fst snd].
  destruct (round53 (m * 8917127262193582)) as [q t] eqn:Ep.
  destruct (round53_upper (m * 8917127262193582) q t ltac:(lia) Ep)
    as (Ht & Hq & Hup').
  assert (HG : 0 < 2 ^ e) by (apply Z.pow_pos_nonneg; lia).
  assert (HT : 0 < 2 ^ t) by (apply Z.pow_pos_nonneg; lia).
  assert (Hkey : q * 2 ^ t * 2 ^ e <= 2 ^ 53 * c).
  { set (G := 2 ^ e) in *. set (T := 2 ^ t) in *.
    set (X := q * T) in *. set (Y := m * G) in *.
    assert (H1 : 2 ^ 53 * X * G <= (2 ^ 53 + 1) * 8917127262193582 * Y).
    { unfold Y.
      replace ((2 ^ 53 + 1) * 8917127262193582 * (m * G))
        with ((2 ^ 53 + 1) * (m * 8917127262193582) * G) by ring.
      apply Z.mul_le_mono_nonneg_r; lia. }
    assert (H2 : 2 ^ 53 * (2 ^ 53 * X * G)
                 <= (2 ^ 53 + 1) * 8917127262193582 * ((2 ^ 53 + 1) * c)).
    { etransitivity.
      - apply Z.mul_le_mono_nonneg_l; [lia | exact H1].
      - replace (2 ^ 53 * ((2 ^ 53 + 1) * 8917127262193582 * Y))
          with ((2 ^ 53 + 1) * 8917127262193582 * (2 ^ 53 * Y)) by ring.
        apply Z.mul_le_mono_nonneg_l; [lia | exact Hup]. }
    assert (H3 : (2 ^ 53 + 1) * 8917127262193582 * ((2 ^ 53 + 1) * c)
                 <= 2 ^ 53 * (2 ^ 53 * (2 ^ 53 * c))).
    { replace ((2 ^ 53 + 1) * 8917127262193582 * ((2 ^ 53 + 1) * c))
        with ((2 ^ 53 + 1) * 8917127262193582 * (2 ^ 53 + 1) * c) by ring.
      replace (2 ^ 53 * (2 ^ 53 * (2 ^ 53 * c)))
        with (2 ^ 53 * 2 ^ 53 * 2 ^ 53 * c) by ring.
      apply Z.mul_le_mono_nonneg_r; [lia|]. vm_compute. discriminate. }
    assert (H4 : 2 ^ 53 * (2 ^ 53 * (X * G))
                 <= 2 ^ 53 * (2 ^ 53 * (2 ^ 53 * c))).
    { replace (2 ^ 53 * (2 ^ 53 * (X * G)))
        with (2 ^ 53 * (2 ^ 53 * X * G)) by ring. lia. }
    apply Z.mul_le_mono_pos_l in H4; [|reflexivity].
    apply Z.mul_le_mono_pos_l in H4; [|reflexivity].
    exact H4. }
  unfold int_lt.
  destruct (Z.leb_spec 0 (t + e + -53)) as [Hpos|Hneg].
  - apply Z.ltb_ge.
    assert (E : 2 ^ t * 2 ^ e = 2 ^ (t + e + -53) * 2 ^ 53).
    { rewrite <- !Z.pow_add_r by lia. f_equal. lia. }
    assert (HE : 0 < 2 ^ (t + e + -53)) by (apply Z.pow_pos_nonneg; lia).
    set (U := 2 ^ (t + e + -53)) in *.
    assert (H5 : 2 ^ 53 * (q * U) <= 2 ^ 53 * c).
    { replace (2 ^ 53 * (q * U)) with (q * (U * 2 ^ 53)) by ring.
      rewrite <- E. rewrite Z.mul_assoc. exact Hkey. }
    apply Z.mul_le_mono_pos_l in H5; [lia | reflexivity].
  - apply Z.ltb_ge.
    assert (E : 2 ^ 53 = 2 ^ t * 2 ^ e * 2 ^ (- (t + e + -53))).
    { rewrite <- !Z.pow_add_r by lia. f_equal. lia. }
    assert (HE : 0 < 2 ^ (- (t + e + -53))) by (apply Z.pow_pos_nonneg; lia).
    set (U := 2 ^ (- (t + e + -53))) in *.
    rewrite E in Hkey.
    assert (H5 : 2 ^ t * 2 ^ e * q <= 2 ^ t * 2 ^ e * (c * U)).
    { replace (2 ^ t * 2 ^ e * q) with (q * 2 ^ t * 2 ^ e) by ring.
      replace (2 ^ t * 2 ^ e * (c * U)) with (2 ^ t * 2 ^ e * U * c) by ring.
      exact Hkey. }
    apply Z.mul_le_mono_pos_l in H5; [|apply Z.mul_pos_pos; assumption].
    assert (c * U <= a * U) by (apply Z.mul_le_mono_nonneg_r; lia).
    lia.
Qed.

(** A file that has the reference size or more passes the test, whenever
    the reference can be converted. *)
Lemma too_small_full a c :
  c <= a -> c < limit -> too_small a c = Some false.
Proof.
  intros Ha Hc. unfold too_small.
  destruct (Z.ltb_spec 0 c) as [Hpos|_]; [|reflexivity].
  destruct (of_int c) as [f|] eqn:Hf.
  - f_equal. apply (times_c099_le c f Hpos Hf a Ha).
  - apply (of_int_overflow c Hpos) in Hf. lia.
Qed.

(** Up to [2^46] the test in double precision is the exact one. *)
Lemma too_small_exact a c :
  0 < c <= 2 ^ 46 -> too_small a c = Some (100 * a <? 99 * c).
Proof.
  intros [Hc Hle]. unfold too_small.
  destruct (Z.ltb_spec 0 c) as [_|]; [|lia].
  assert (Hsmall : c < 2 ^ 53) by (change (2 ^ 46) with 70368744177664 in Hle;
                                   change (2 ^ 53) with 9007199254740992; lia).
  assert (Hr : round53 c = (c, 0)).
  { destruct (round53_spec c Hc) as [[E _]|H]; [exact E|].
    destruct H as (e & q & r & He & Hb & _).
    assert (1 <= 2 ^ e) by (assert (0 < 2 ^ e) by (apply Z.pow_pos_nonneg; lia); lia).
    change (2 ^ 52) with 4503599627370496 in Hb.
    change (2 ^ 53) with 9007199254740992 in Hsmall. lia. }
  rewrite (of_int_eq _ _ _ Hr). rewrite Z.mul_1_r.
  change (2 ^ 46) with 70368744177664 in Hle.
  change (2 ^ 53) with 9007199254740992 in Hsmall.
  destruct (Z.leb_spec (2 ^ 1024) c) as [Hbig|_].
  { exfalso. assert (9007199254740992 < 2 ^ 1024) by (vm_compute; reflexivity).
    lia. }
  f_equal. unfold mul, c099. cbn [fst snd].
  set (P := c * 8917127262193582).
  assert (HP : 0 < P) by (unfold P; lia).
  assert (H100 : 100 * P = 99 * c * 9007199254740992 - 8 * c)
    by (unfold P; lia).
  destruct (round53_spec P HP) as [[E Hlt]|H].
  - rewrite E. unfold int_lt. cbn [Z.leb Z.add Z.compare Z.opp].
    change (2 ^ 53) with 9007199254740992.
    destruct (Z.ltb_spec (100 * a) (99 * c));
      [apply Z.ltb_lt | apply Z.ltb_ge]; lia.
  - destruct H as (t & q & r & Ht & Hb & Hq & Hrr & Hm).
    assert (Ht47 : t < 47).
    { destruct (Z_lt_ge_dec t 47) as [|Hge]; [assumption|]. exfalso.
      assert (2 ^ 47 <= 2 ^ t) by (apply Z.pow_le_mono_r; lia).
      change (2 ^ 47) with 140737488355328 in *.
      change (2 ^ 52) with 4503599627370496 in Hb. unfold P in Hb. lia. }
    assert (HG : 0 < 2 ^ t) by (apply Z.pow_pos_nonneg; lia).
    assert (HH : 0 < 2 ^ (53 - t)) by (apply Z.pow_pos_nonneg; lia).
    assert (HGH : 2 ^ (53 - t) * 2 ^ t = 9007199254740992).
    { rewrite <- Z.pow_add_r by lia. replace (53 - t + t) with 53 by lia.
      reflexivity. }
    change (2 ^ 52) with 4503599627370496 in Hb.
    change (2 ^ 53) with 9007199254740992 in Hb.
    set (G := 2 ^ t) in *. set (H := 2 ^ (53 - t)) in *.
    assert (HG2 : G < 2 * c) by (unfold P in Hb; nia).
    assert (Hcmp : forall m',
              (m' = q /\ (2 * r < G \/ 2 * r = G /\ Z.odd q = false) \/
               m' = q + 1 /\ (G < 2 * r \/ 2 * r = G /\ Z.odd q = true)) ->
              (a * H <? m') = (100 * a <? 99 * c)).
    { intros m' Hm'.
      destruct (Z.ltb_spec (100 * a) (99 * c)) as [Hlt|Hge].
      - apply Z.ltb_lt.
        assert (Hgap : G < 2 * (P - a * H * G)).
        { assert (100 * (a * H * G) <= 100 * P + 8 * c - 9007199254740992).
          { replace (100 * (a * H * G)) with (100 * a * (H * G)) by ring.
            rewrite HGH. lia. }
          lia. }
        destruct (Z_lt_ge_dec (a * H) m') as [|Hbad]; [assumption|]. exfalso.
        destruct Hm' as [[-> Hr']|[-> Hr']].
        + assert (q * G <= a * H * G) by (apply Z.mul_le_mono_nonneg_r; lia).
          lia.
        + assert ((q + 1) * G <= a * H * G)
            by (apply Z.mul_le_mono_nonneg_r; lia).
          lia.
      - apply Z.ltb_ge.
        assert (Habove : P < a * H * G).
        { assert (100 * P < 100 * (a * H * G)); [|lia].
          replace (100 * (a * H * G)) with (100 * a * (H * G)) by ring.
          rewrite HGH. lia. }
        destruct (Z_lt_ge_dec q (a * H)) as [Hok|Hbad].
        + destruct Hm' as [[-> _]|[-> _]]; lia.
        + exfalso.
          assert (a * H * G <= q * G) by (apply Z.mul_le_mono_nonneg_r; lia).
          lia. }
    assert (Hexp : t + 0 + -53 < 0) by lia.
    destruct Hm as [[E Hr']|[E Hr']]; rewrite E; unfold int_lt;
      (destruct (Z.leb_spec 0 (t + 0 + -53)); [lia|]);
      replace (- (t + 0 + -53)) with (53 - t) by lia; fold H;
      apply Hcmp; auto.
Qed.

End FloatFacts.

(** ** Resumable transfer engine *)

Section TransferFacts.

Variable net : nat -> request -> reply.

Lemma part_path_ne output_path : part_path_of output_path <> output_path.
Proof.
  unfold part_path_of. intros E. apply (f_equal (@length Z)) in E.
  rewrite length_app in E. simpl in E. lia.
Qed.

Lemma write_chunks_insert (part_path : pystr) (chunks : list (list Z)) :
  forall (f : files) (old : list Z),
  f !! part_path = Some old ->
  write_chunks part_path chunks f = <[part_path := old ++ concat chunks]> f.
Proof.
  unfold write_chunks.
  induction chunks as [|c chunks IH]; intros f old H; simpl.
  - rewrite app_nil_r. symmetry. apply insert_id. assumption.
  - rewrite (IH _ (old ++ c)).
    + rewrite <- app_assoc. apply map_eq. intros k.
      destruct (decide (k = part_path)) as [->|Hk].
      * rewrite !lookup_insert_eq. reflexivity.
      * rewrite !lookup_insert_ne by congruence.
        rewrite lookup_alter_ne by congruence. reflexivity.
    + rewrite lookup_alter_eq, H. reflexivity.
Qed.

(** Opening the [.part] file and writing the chunks. *)
Lemma stream_to_part (m : mode) (part_path : pystr)
    (chunks : list (list Z)) (f : files) :
  write_chunks part_path chunks (open_part m part_path f)
  = <[part_path := streamed m (f !! part_path) chunks]> f.
Proof.
  destruct m; simpl.
  - rewrite (write_chunks_insert _ _ _ []) by apply lookup_insert_eq.
    rewrite insert_insert_eq. destruct (f !! part_path); reflexivity.
  - destruct (f !! part_path) as [old|] eqn:E.
    + apply write_chunks_insert. assumption.
    + rewrite (write_chunks_insert _ _ _ []) by apply lookup_insert_eq.
      rewrite insert_insert_eq. reflexivity.
Qed.

(** One attempt whose request is answered and whose headers are read
    without an exception. *)
Lemma attempt_once_reply url output_path expected_size w old r total rp m :
  fs w !! part_path_of output_path = old ->
  net (length (sent w)) (probe url old) = Reply r ->
  interpret_response r (default 0 (len <$> old)) (initial_mode old)
    = Some (total, rp, m) ->
  attempt_once net url output_path expected_size w =
    let part_path := part_path_of output_path in
    let data := streamed m old (body r) in
    let w1 := set_fs (<[part_path := data]> (fs w))
                     (log_request (probe url old) w) in
    if body_fails r then (Raised, w1)
    else
      match too_small (len data)
                      (if 0 <? expected_size then expected_size else total) with
      | None => (Raised, w1)
      | Some true => (SizeMismatch, w1)
      | Some false =>
          (Downloaded,
           set_fs (<[output_path := data]>
                     (delete part_path (<[part_path := data]> (fs w))))
                  (log_request (probe url old) w))
      end.
Proof.
  intros Hold Hnet Hint. unfold attempt_once. rewrite Hold.
  unfold probe in *.
  destruct old as [content|]; simpl in *;
    rewrite Hnet, Hint; cbn [fs log_request set_fs];
    rewrite stream_to_part, Hold, lookup_insert_eq; reflexivity.
Qed.

(** Every attempt sends one request, built from the [.part] file, and
    does not sleep. *)
Lemma attempt_once_log url output_path expected_size w :
  let res := attempt_once net url output_path expected_size w in
  sent (snd res)
    = sent w ++ [probe url (fs w !! part_path_of output_path)] /\
  slept (snd res) = slept w.
Proof.
  unfold attempt_once, probe.
  destruct (fs w !! part_path_of output_path) as [content|]; simpl;
    match goal with |- context [net ?n ?rq] => destruct (net n rq) as [|r] end;
    simpl; try (split; reflexivity);
    match goal with
    | |- context [interpret_response ?r ?p ?m] =>
        destruct (interpret_response r p m) as [[[total rp] m']|]
    end; simpl; try (split; reflexivity);
    destruct (body_fails r); simpl; try (split; reflexivity);
    match goal with
    | |- context [too_small ?a ?c] => destruct (too_small a c) as [[|]|]
    end;
    simpl; split; reflexivity.
Qed.

Lemma holds_data_reply url output_path expected_size w old r total rp m :
  fs w !! part_path_of output_path = old ->
  net (length (sent w)) (probe url old) = Reply r ->
  interpret_response r (default 0 (len <$> old)) (initial_mode old)
    = Some (total, rp, m) ->
  holds_data output_path (attempt_once net url output_path expected_size w)
             (streamed m old (body r)).
Proof.
  intros Hold Hnet Hint.
  rewrite (attempt_once_reply _ _ _ _ _ _ _ _ _ Hold Hnet Hint).
  cbv zeta. unfold holds_data.
  destruct (body_fails r); [simpl; apply lookup_insert_eq|].
  destruct (too_small _ _) as [[|]|]; simpl; try apply lookup_insert_eq.
  split; [apply lookup_insert_eq|].
  rewrite lookup_insert_ne by (intros E; symmetry in E; revert E; apply part_path_ne).
  apply lookup_delete_eq.
Qed.

(** An attempt whose headers cannot be read raises once the request is
    sent, before the [.part] file is opened. *)
Lemma attempt_once_headers url output_path expected_size w old r :
  fs w !! part_path_of output_path = old ->
  net (length (sent w)) (probe url old) = Reply r ->
  interpret_response r (default 0 (len <$> old)) (initial_mode old) = None ->
  attempt_once net url output_path expected_size w
    = (Raised, log_request (probe url old) w).
Proof.
  intros Hold Hnet Hint. unfold attempt_once. rewrite Hold.
  unfold probe in *.
  destruct old as [content|]; simpl in *; rewrite Hnet, Hint; reflexivity.
Qed.

(** C1, amended: when a [.part] file exists at the start of an attempt,
    the request carries the range header from its length.  On a 206
    response the total size is the integer after the last slash of
    [Content-Range] when the header has a slash, else the offset plus the
    content length, and the body is appended to the [.part] file.  On a
    200 response with a nonzero offset the offset is reset and the
    [.part] file holds the body alone.  When the text after the slash, or
    the content length that is read, is not an integer, the attempt
    raises: the request has been sent and no file is touched. *)
Theorem download_attempt_resume url output_path expected_size w content r :
  fs w !! part_path_of output_path = Some content ->
  net (length (sent w)) {| rq_url := url; rq_range := Some (len content) |}
    = Reply r ->
  let res := attempt_once net url output_path expected_size w in
  let cr := default [] (content_range r) in
  let raised :=
    (Raised,
     log_request {| rq_url := url; rq_range := Some (len content) |} w) in
  sent (snd res)
    = sent w ++ [{| rq_url := url; rq_range := Some (len content) |}] /\
  (status_code r = 206 ->
     (forall t, contains 47 cr = true -> py_int (after_last 47 cr) = Some t ->
        interpret_response r (len content) AB = Some (t, len content, AB)) /\
     (forall n, contains 47 cr = false ->
        int_header (content_length r) = Some n ->
        interpret_response r (len content) AB
          = Some (len content + n, len content, AB)) /\
     (forall total,
        interpret_response r (len content) AB = Some (total, len content, AB) ->
        holds_data output_path res (content ++ concat (body r)))) /\
  (status_code r = 200 -> 0 < len content ->
     forall n, int_header (content_length r) = Some n ->
       interpret_response r (len content) AB = Some (n, 0, WB) /\
       holds_data output_path res (concat (body r))) /\
  (status_code r = 206 ->
     (contains 47 cr = true -> py_int (after_last 47 cr) = None ->
        res = raised) /\
     (contains 47 cr = false -> int_header (content_length r) = None ->
        res = raised)) /\
  (status_code r = 200 -> int_header (content_length r) = None ->
     res = raised).
Proof.
  intros Hold Hnet res cr raised.
  assert (Hraise : interpret_response r (len content) AB = None ->
                   res = raised).
  { intros Hint.
    apply (attempt_once_headers url output_path expected_size w
             (Some content) r Hold Hnet Hint). }
  split; [|split; [|split; [|split]]].
  - destruct (attempt_once_log url output_path expected_size w) as [Hs _].
    fold res in Hs. rewrite Hs, Hold. reflexivity.
  - intros H206. unfold interpret_response. rewrite H206. simpl. fold cr.
    split; [|split].
    + intros t Hc Ht. rewrite Hc, Ht. reflexivity.
    + intros n Hc Hn. rewrite Hc, Hn. reflexivity.
    + intros total Hint.
      apply (holds_data_reply url output_path expected_size w (Some content)
               r total (len content) AB); try assumption.
      unfold interpret_response. rewrite H206. exact Hint.
  - intros H200 Hpos n Hn.
    assert (Hint : interpret_response r (len content) AB = Some (n, 0, WB)).
    { unfold interpret_response. rewrite H200. simpl. rewrite Hn.
      destruct (Z.ltb_spec 0 (len content)); [reflexivity | lia]. }
    split; [assumption|].
    apply (holds_data_reply url output_path expected_size w (Some content)
             r n 0 WB); assumption.
  - intros H206. split; intros Hc Hn; apply Hraise;
      unfold interpret_response; rewrite H206; simpl; fold cr;
      rewrite Hc, Hn; reflexivity.
  - intros H200 Hn. apply Hraise.
    unfold interpret_response. rewrite H200. simpl. rewrite Hn. reflexivity.
Qed.

(** The verification step of an attempt whose stream has ended. *)
Lemma attempt_once_verify url output_path expected_size w old r
    total rp m :
  fs w !! part_path_of output_path = old ->
  net (length (sent w)) (probe url old) = Reply r ->
  interpret_response r (default 0 (len <$> old)) (initial_mode old)
    = Some (total, rp, m) ->
  body_fails r = false ->
  let data := streamed m old (body r) in
  let reference := if 0 <? expected_size then expected_size else total in
  let res := attempt_once net url output_path expected_size w in
  (too_small (len data) reference = Some false ->
     fst res = Downloaded /\
     fs (snd res) !! output_path = Some data /\
     fs (snd res) !! part_path_of output_path = None) /\
  (too_small (len data) reference = Some true ->
     fst res = SizeMismatch /\
     fs (snd res) !! part_path_of output_path = Some data /\
     forall n attempt max_retries,
       download_loop net (S n) attempt url output_path expected_size
                     max_retries w
       = download_loop net n (attempt + 1) url output_path expected_size
                       max_retries (snd res)) /\
  (too_small (len data) reference = None ->
     fst res = Raised /\
     fs (snd res) !! part_path_of output_path = Some data /\
     forall n attempt max_retries,
       download_loop net (S n) attempt url output_path expected_size
                     max_retries w
       = download_loop net n (attempt + 1) url output_path expected_size
           max_retries
           (if attempt <? max_retries - 1
            then sleep (2 ^ attempt * 5) (snd res) else snd res)).
Proof.
  intros Hold Hnet Hint Hbody data reference res.
  pose proof (holds_data_reply url output_path expected_size w old r total
                rp m Hold Hnet Hint) as Hdata.
  fold res in Hdata. fold data in Hdata.
  pose proof (attempt_once_reply url output_path expected_size w old r total
                rp m Hold Hnet Hint) as Hres.
  fold res in Hres. cbv zeta in Hres. fold data reference in Hres.
  rewrite Hbody in Hres. unfold holds_data in Hdata.
  split; [|split]; intros Hcmp; rewrite Hcmp in Hres.
  - rewrite Hres in *. simpl in *. tauto.
  - split; [rewrite Hres; reflexivity|].
    split; [rewrite Hres in Hdata |- *; exact Hdata|].
    intros n attempt max_retries. cbn [download_loop].
    fold res. rewrite Hres. reflexivity.
  - split; [rewrite Hres; reflexivity|].
    split; [rewrite Hres in Hdata |- *; exact Hdata|].
    intros n attempt max_retries. cbn [download_loop].
    fold res. rewrite Hres. reflexivity.
Qed.

(** What the size test computes. *)
Lemma too_small_cases actual reference :
  (reference <= 0 -> too_small actual reference = Some false) /\
  (0 < reference <= 2 ^ 46 ->
     too_small actual reference = Some (100 * actual <? 99 * reference)) /\
  (0 < reference ->
     (too_small actual reference = None <-> Float.limit <= reference)).
Proof.
  split; [|split].
  - intros H. unfold too_small.
    destruct (Z.ltb_spec 0 reference); [lia | reflexivity].
  - apply too_small_exact.
  - intros H. unfold too_small.
    destruct (Z.ltb_spec 0 reference); [|lia].
    rewrite <- (of_int_overflow reference H).
    destruct (Float.of_int reference); split; intros; congruence.
Qed.

(** C3, amended: once the stream has ended, the length of the [.part]
    file is tested against the expected size when that is positive, else
    against the total size of the headers; a reference that is not
    positive is not tested.  The test is [actual < reference * 0.99] in
    double precision: up to [2^46] it fails exactly below 99% of the
    reference, and from [2^1024 - 2^970] on it raises.  When the test
    passes the [.part] file is renamed to the final path and the attempt
    succeeds; when it fails the [.part] file stays as it is and the loop
    goes on to the next attempt at once; when it raises the [.part] file
    stays and the loop goes on as after any exception. *)
Theorem download_attempt_verify url output_path expected_size w old r
    total rp m :
  fs w !! part_path_of output_path = old ->
  net (length (sent w)) (probe url old) = Reply r ->
  interpret_response r (default 0 (len <$> old)) (initial_mode old)
    = Some (total, rp, m) ->
  body_fails r = false ->
  let data := streamed m old (body r) in
  let reference := if 0 <? expected_size then expected_size else total in
  let res := attempt_once net url output_path expected_size w in
  ((too_small (len data) reference = Some false ->
      fst res = Downloaded /\
      fs (snd res) !! output_path = Some data /\
      fs (snd res) !! part_path_of output_path = None) /\
   (too_small (len data) reference = Some true ->
      fst res = SizeMismatch /\
      fs (snd res) !! part_path_of output_path = Some data /\
      forall n attempt max_retries,
        download_loop net (S n) attempt url output_path expected_size
                      max_retries w
        = download_loop net n (attempt + 1) url output_path expected_size
                        max_retries (snd res)) /\
   (too_small (len data) reference = None ->
      fst res = Raised /\
      fs (snd res) !! part_path_of output_path = Some data /\
      forall n attempt max_retries,
        download_loop net (S n) attempt url output_path expected_size
                      max_retries w
        = download_loop net n (attempt + 1) url output_path expected_size
            max_retries
            (if attempt <? max_retries - 1
             then sleep (2 ^ attempt * 5) (snd res) else snd res))) /\
  (reference <= 0 -> too_small (len data) reference = Some false) /\
  (0 < reference <= 2 ^ 46 ->
     too_small (len data) reference
       = Some (100 * len data <? 99 * reference)) /\
  (0 < reference ->
     (too_small (len data) reference = None <-> Float.limit <= reference)).
Proof.
  intros Hold Hnet Hint Hbody data reference res. split.
  - apply (attempt_once_verify url output_path expected_size w old r total
             rp m); assumption.
  - apply too_small_cases.
Qed.

(** C10, amended: with no expected size and a response that announces
    no size (no content length, and no slash in [Content-Range]), the
    attempt whose stream ends succeeds whatever was streamed: the [.part]
    file is renamed to the final path and [download_file] returns
    [True].  On a 206 the total learned is the resume offset, which the
    file has reached; the offset is taken to be one that [float] can
    convert. *)
Theorem download_file_unknown_size url output_path description max_retries
    w old r :
  fs w !! part_path_of output_path = old ->
  net (length (sent w)) (probe url old) = Reply r ->
  raises_for_status (status_code r) = false ->
  content_length r = None ->
  contains 47 (default [] (content_range r)) = false ->
  body_fails r = false ->
  (status_code r = 206 -> default 0 (len <$> old) < Float.limit) ->
  0 < max_retries ->
  let m := if (status_code r =? 200) && (0 <? default 0 (len <$> old))
           then WB else initial_mode old in
  let data := streamed m old (body r) in
  let res := download_file net url output_path description 0 max_retries w in
  fst res = true /\
  fs (snd res) !! output_path = Some data /\
  fs (snd res) !! part_path_of output_path = None.
Proof.
  intros Hold Hnet Hstatus Hcl Hcr Hbody Hfit Hmax m data res.
  set (resume := default 0 (len <$> old)) in *.
  assert (Hresume : 0 <= resume).
  { unfold resume. destruct old; simpl; unfold len; lia. }
  assert (Hint : exists total rp,
            interpret_response r resume (initial_mode old) = Some (total, rp, m)
            /\ too_small (len data) total = Some false).
  { unfold interpret_response, data, m. fold resume. rewrite Hcl, Hcr, Hstatus.
    simpl. destruct (Z.eqb_spec (status_code r) 206) as [E|E].
    - rewrite E. simpl. exists (resume + 0), resume. split; [reflexivity|].
      apply too_small_full; [|specialize (Hfit E); lia].
      unfold resume. destruct old as [c|]; simpl; unfold len;
        rewrite ?length_app; lia.
    - destruct (Z.eqb_spec (status_code r) 200) as [E'|E']; simpl.
      + destruct (Z.ltb_spec 0 resume); exists 0; eexists;
          (split; [reflexivity | reflexivity]).
      + exists 0, resume. split; reflexivity. }
  destruct Hint as (total & rp & Hint & Hok).
  destruct (attempt_once_verify url output_path 0 w old r total rp m
              Hold Hnet Hint Hbody) as [Haccept _].
  cbv zeta in Haccept. simpl in Haccept. fold data in Haccept.
  destruct (Haccept Hok) as (Hres & Hout & Hpart).
  unfold res, download_file.
  destruct (Z.to_nat max_retries) as [|n] eqn:En; [lia|].
  cbn [download_loop].
  destruct (attempt_once net url output_path 0 w) as [ar w1].
  simpl in Hres. subst ar. simpl. auto.
Qed.

(** *** Retries *)

Lemma attempt_once_part_kept url output_path expected_size w :
  let res := attempt_once net url output_path expected_size w in
  fst res <> Downloaded ->
  is_Some (fs w !! part_path_of output_path) ->
  is_Some (fs (snd res) !! part_path_of output_path).
Proof.
  unfold attempt_once.
  destruct (fs w !! part_path_of output_path) as [content|] eqn:Hold; simpl;
    intros Hres Hsome; try (destruct Hsome; discriminate);
    match goal with |- context [net ?n ?rq] => destruct (net n rq) as [|r] end;
    simpl in *; try (rewrite Hold; eauto; fail);
    match goal with
    | |- context [interpret_response ?r ?p ?m] =>
        destruct (interpret_response r p m) as [[[total rp] m']|]
    end; simpl in *; try (rewrite Hold; eauto; fail);
    rewrite stream_to_part in *;
    destruct (body_fails r); simpl in *;
    try (rewrite lookup_insert_eq; eauto; fail);
    match goal with
    | |- context [too_small ?a ?c] => destruct (too_small a c) as [[|]|]
    end; simpl in *; try congruence; rewrite lookup_insert_eq; eauto.
Qed.

Lemma backoff_from_step a max_retries :
  0 <= a < max_retries - 1 ->
  backoff_from a max_retries = 2 ^ a * 5 :: backoff_from (a + 1) max_retries.
Proof.
  intros H. unfold backoff_from.
  replace (Z.to_nat (max_retries - 1 - a))
    with (S (Z.to_nat (max_retries - 1 - (a + 1)))) by lia.
  cbn [seq map]. rewrite Z.add_0_r. f_equal.
  rewrite <- seq_shift, map_map. apply map_ext. intros k.
  do 2 f_equal. lia.
Qed.

(** A call that returns [False] has sent one request per attempt left,
    has kept a [.part] file that was there, and has slept a selection of
    the backoff sequence. *)
Lemma download_loop_exhausted url output_path expected_size max_retries :
  forall n attempt w w',
    0 <= attempt -> attempt + Z.of_nat n = max_retries ->
    download_loop net n attempt url output_path expected_size max_retries w
      = (false, w') ->
    length (sent w') = (length (sent w) + n)%nat /\
    (is_Some (fs w !! part_path_of output_path) ->
     is_Some (fs w' !! part_path_of output_path)) /\
    exists waits, slept w' = slept w ++ waits /\
                  sublist waits (backoff_from attempt max_retries).
Proof.
  induction n as [|n IH]; intros attempt w w' Ha Hn Hloop.
  - simpl in Hloop. inversion Hloop; subst w'.
    split; [lia|]. split; [auto|]. exists []. rewrite app_nil_r.
    split; [reflexivity | apply sublist_nil_l].
  - cbn [download_loop] in Hloop.
    pose proof (attempt_once_log url output_path expected_size w) as [Hs Hz].
    pose proof (attempt_once_part_kept url output_path expected_size w) as Hp.
    cbv zeta in Hp.
    destruct (attempt_once net url output_path expected_size w) as [ar w1].
    simpl in Hs, Hz, Hp. destruct ar; [discriminate| |].
    + destruct (IH (attempt + 1) w1 w' ltac:(lia) ltac:(lia) Hloop)
        as (Hs' & Hp' & waits & Hw & Hsub).
      split; [rewrite Hs', Hs, length_app; simpl; lia|].
      split; [intros H; apply Hp', Hp; [discriminate | assumption]|].
      exists waits. split; [congruence|].
      destruct (Z_lt_ge_dec attempt (max_retries - 1)).
      * rewrite backoff_from_step by lia. apply sublist_cons. assumption.
      * assert (n = O) by lia. subst n. simpl in Hloop.
        inversion Hloop; subst w'. rewrite Hz in Hw.
        rewrite <- (app_nil_r (slept w)) in Hw at 1.
        apply app_inv_head in Hw. subst waits. apply sublist_nil_l.
    + destruct (Z.ltb_spec attempt (max_retries - 1)) as [Hlt|Hge].
      * destruct (IH (attempt + 1) _ w' ltac:(lia) ltac:(lia) Hloop)
          as (Hs' & Hp' & waits & Hw & Hsub).
        simpl in Hs', Hp', Hw.
        split; [rewrite Hs', Hs, length_app; simpl; lia|].
        split; [intros H; apply Hp', Hp; [discriminate | assumption]|].
        exists (2 ^ attempt * 5 :: waits).
        split; [rewrite Hw, Hz, <- app_assoc; reflexivity|].
        rewrite backoff_from_step by lia. apply sublist_skip. assumption.
      * destruct (IH (attempt + 1) w1 w' ltac:(lia) ltac:(lia) Hloop)
          as (Hs' & Hp' & waits & Hw & Hsub).
        split; [rewrite Hs', Hs, length_app; simpl; lia|].
        split; [intros H; apply Hp', Hp; [discriminate | assumption]|].
        exists waits. split; [congruence|].
        assert (n = O) by lia. subst n. simpl in Hloop.
        inversion Hloop; subst w'. rewrite Hz in Hw.
        rewrite <- (app_nil_r (slept w)) in Hw at 1.
        apply app_inv_head in Hw. subst waits. apply sublist_nil_l.
Qed.

(** With the server down every attempt raises, and the call sleeps the
    whole backoff sequence. *)
Lemma download_loop_down url output_path expected_size max_retries :
  (forall n rq, net n rq = ConnectionError) ->
  forall n attempt w,
    0 <= attempt -> attempt + Z.of_nat n = max_retries ->
    let res := download_loop net n attempt url output_path expected_size
                             max_retries w in
    fst res = false /\
    slept (snd res) = slept w ++ backoff_from attempt max_retries.
Proof.
  intros Hdown. induction n as [|n IH]; intros attempt w Ha Hn.
  - simpl. unfold backoff_from.
    replace (Z.to_nat (max_retries - 1 - attempt)) with O by lia.
    simpl. rewrite app_nil_r. auto.
  - cbn [download_loop].
    assert (Hstep : attempt_once net url output_path expected_size w
              = (Raised,
                 log_request (probe url (fs w !! part_path_of output_path)) w)).
    { unfold attempt_once, probe.
      destruct (fs w !! part_path_of output_path); simpl;
        rewrite Hdown; reflexivity. }
    rewrite Hstep.
    destruct (Z.ltb_spec attempt (max_retries - 1)) as [Hlt|Hge].
    + destruct (IH (attempt + 1)
                  (sleep (2 ^ attempt * 5)
                     (log_request
                        (probe url (fs w !! part_path_of output_path)) w))
                  ltac:(lia) ltac:(lia)) as [Hf Hs].
      split; [assumption|]. rewrite Hs. simpl.
      rewrite (backoff_from_step attempt) by lia.
      rewrite <- app_assoc. reflexivity.
    + destruct (IH (attempt + 1)
                  (log_request
                     (probe url (fs w !! part_path_of output_path)) w)
                  ltac:(lia) ltac:(lia)) as [Hf Hs].
      split; [assumption|]. rewrite Hs. simpl. f_equal.
      unfold backoff_from.
      replace (Z.to_nat (max_retries - 1 - attempt)) with O by lia.
      replace (Z.to_nat (max_retries - 1 - (attempt + 1))) with O by lia.
      reflexivity.
Qed.

(** C2, amended: a call that returns [False] has made exactly
    [max_retries] attempts and has kept a [.part] file that was there; it
    has slept a selection of the backoff sequence [5 * 2^attempt] for the
    attempts before the last, which is 5 and 10 seconds for three
    attempts.  It sleeps after an attempt that raises and is not the last,
    all of the sequence when the server is down, and does not sleep after
    an attempt that fails the size verification; no failing attempt
    removes the [.part] file. *)
Theorem download_file_exhausted url output_path description expected_size
    max_retries w :
  let res := download_file net url output_path description expected_size
                           max_retries w in
  (fst res = false ->
     length (sent (snd res)) = (length (sent w) + Z.to_nat max_retries)%nat /\
     (is_Some (fs w !! part_path_of output_path) ->
      is_Some (fs (snd res) !! part_path_of output_path)) /\
     exists waits, slept (snd res) = slept w ++ waits /\
                   sublist waits (backoff max_retries)) /\
  ((forall n rq, net n rq = ConnectionError) ->
     fst res = false /\ slept (snd res) = slept w ++ backoff max_retries) /\
  (forall n attempt w0,
     let step := attempt_once net url output_path expected_size w0 in
     slept (snd step) = slept w0 /\
     (fst step <> Downloaded ->
      is_Some (fs w0 !! part_path_of output_path) ->
      is_Some (fs (snd step) !! part_path_of output_path)) /\
     (fst step = SizeMismatch ->
        download_loop net (S n) attempt url output_path expected_size
                      max_retries w0
        = download_loop net n (attempt + 1) url output_path expected_size
                        max_retries (snd step)) /\
     (fst step = Raised ->
        download_loop net (S n) attempt url output_path expected_size
                      max_retries w0
        = download_loop net n (attempt + 1) url output_path expected_size
            max_retries
            (if attempt <? max_retries - 1
             then sleep (2 ^ attempt * 5) (snd step) else snd step))) /\
  backoff default_max_retries = [5; 10].
Proof.
  intros res.
  assert (Hback : backoff max_retries = backoff_from 0 max_retries).
  { unfold backoff, backoff_from. rewrite Z.sub_0_r. reflexivity. }
  split; [|split; [|split; [|reflexivity]]].
  - intros Hres. unfold res, download_file in *.
    destruct (download_loop net (Z.to_nat max_retries) 0 url output_path
                expected_size max_retries w) as [ok w'] eqn:Hloop.
    simpl in Hres. subst ok. simpl.
    destruct (Z_le_gt_dec 0 max_retries) as [Hpos|Hneg].
    + rewrite Hback.
      apply (download_loop_exhausted url output_path expected_size max_retries
               (Z.to_nat max_retries) 0 w w'); [lia | lia | assumption].
    + replace (Z.to_nat max_retries) with O in * by lia. simpl in Hloop.
      inversion Hloop; subst w'.
      split; [lia|]. split; [auto|]. exists []. rewrite app_nil_r.
      split; [reflexivity | apply sublist_nil_l].
  - intros Hdown. unfold res, download_file. rewrite Hback.
    destruct (Z_le_gt_dec 0 max_retries) as [Hpos|Hneg].
    + apply (download_loop_down url output_path expected_size max_retries
               Hdown (Z.to_nat max_retries) 0 w); lia.
    + replace (Z.to_nat max_retries) with O by lia. simpl.
      unfold backoff_from.
      replace (Z.to_nat (max_retries - 1 - 0)) with O by lia.
      simpl. rewrite app_nil_r. auto.
  - intros n attempt w0 step.
    destruct (attempt_once_log url output_path expected_size w0) as [_ Hz].
    fold step in Hz. split; [assumption|].
    split; [apply attempt_once_part_kept|].
    split; intros Hstep; cbn [download_loop]; fold step;
      destruct step as [ar w1]; simpl in Hstep; subst ar; reflexivity.
Qed.

End TransferFacts.

(** C2 fails as stated: with the server down, three attempts sleep 5 and
    10 seconds, 15 in all and not 35, since the last attempt is not
    followed by a wait; and three attempts that each fail the size
    verification do not sleep at all. *)
Lemma download_file_backoff_total :
  let w := {| fs := {[ str_of "a.mp4.part" := [1; 2; 3] ]};
              sent := []; slept := [] |} in
  let down := download_file net_down (str_of "u") (str_of "a.mp4")
                (str_of "a") 0 default_max_retries w in
  let short := download_file (net_body [[7; 7]]) (str_of "u")
                 (str_of "a.mp4") (str_of "a") 1000 default_max_retries w in
  (fst down = false /\ length (sent (snd down)) = 3%nat /\
   slept (snd down) = [5; 10] /\
   fold_right Z.add 0 (slept (snd down)) <> 5 + 10 + 20) /\
  (fst short = false /\ length (sent (snd short)) = 3%nat /\
   slept (snd short) = [] /\
   fs (snd short) !! str_of "a.mp4.part" = Some [7; 7]).
Proof. vm_compute. repeat split; congruence. Qed.

(** C1 fails as stated: a 206 response whose [Content-Range] leaves the
    total open, [bytes 3-4/*], has no total in it, and the offset plus
    the content length is 5; but the code reads the text after the slash
    as the total, [int('*')] raises, and the body is not appended. *)
Lemma download_attempt_resume_open_total :
  let r := {| status_code := 206;
              content_range := Some (str_of "bytes 3-4/*");
              content_length := Some (str_of "2");
              body := [[4]; [5]];
              body_fails := false |} in
  let res := attempt_once net_open_total (str_of "u") (str_of "a.mp4") 0
                          world_part in
  py_int (after_last 47 (str_of "bytes 3-4/*")) = None /\
  int_header (content_length r) = Some 2 /\
  interpret_response r 3 AB = None /\
  interpret_response r 3 AB <> Some (3 + 2, 3, AB) /\
  fst res = Raised /\
  fs (snd res) !! str_of "a.mp4.part" = Some [1; 2; 3] /\
  ~ holds_data (str_of "a.mp4") res ([1; 2; 3] ++ concat (body r)).
Proof. vm_compute. repeat split; congruence. Qed.

(** A fresh download of [n] zero bytes is accepted when the test against
    the expected size passes. *)
Lemma attempt_zeros n expected_size :
  0 <= n -> 0 < expected_size ->
  too_small n expected_size = Some false ->
  fst (attempt_once (net_zeros n) (str_of "u") (str_of "a.mp4") expected_size
                    {| fs := ∅; sent := []; slept := [] |}) = Downloaded.
Proof.
  intros Hn Hexp Hok.
  destruct (attempt_once_verify (net_zeros n) (str_of "u") (str_of "a.mp4")
              expected_size {| fs := ∅; sent := []; slept := [] |} None
              {| status_code := 200; content_range := None;
                 content_length := None;
                 body := [repeat 0 (Z.to_nat n)];
                 body_fails := false |} 0 0 WB)
    as [Haccept _]; try reflexivity.
  apply Haccept.
  assert (E : (0 <? expected_size) = true) by (apply Z.ltb_lt; lia).
  rewrite E.
  assert (Hlen : len (streamed WB None [repeat 0 (Z.to_nat n)]) = n).
  { unfold streamed, len. cbn [concat]. rewrite app_nil_r, repeat_length.
    apply Z2Nat.id. assumption. }
  cbn [body]. rewrite Hlen. exact Hok.
Qed.

(** C3 fails as stated.  An expected size of -1 is not zero, and 2 bytes
    are more than 99% of it; but the code tests [expected_size > 0], takes
    the total of the headers, 1000, as the reference and rejects the 2
    bytes.  And the product with 0.99 is rounded: against an expected
    size of 242003462256999 bytes a download of 239583427634429 bytes,
    one hundredth of a byte short of 99%, passes the test and is
    accepted. *)
Lemma download_attempt_verify_fails :
  let res := attempt_once (net_length (str_of "1000") [[7; 7]]) (str_of "u")
                          (str_of "a.mp4") (-1) world_part in
  (-1 <> 0 /\ 99 * -1 <= 100 * len [7; 7] /\
   fst res = SizeMismatch /\
   fs (snd res) !! str_of "a.mp4" = None /\
   fs (snd res) !! str_of "a.mp4.part" = Some [7; 7]) /\
  (100 * 239583427634429 < 99 * 242003462256999 /\
   too_small 239583427634429 242003462256999 = Some false /\
   fst (attempt_once (net_zeros 239583427634429) (str_of "u")
          (str_of "a.mp4") 242003462256999
          {| fs := ∅; sent := []; slept := [] |}) = Downloaded).
Proof.
  split; [vm_compute; repeat split; congruence|].
  split; [reflexivity|].
  assert (Hok : too_small 239583427634429 242003462256999 = Some false)
    by (vm_compute; reflexivity).
  split; [exact Hok|].
  apply attempt_zeros; [lia | lia | exact Hok].
Qed.

(** C10 fails as stated: a 206 response without content length whose
    [Content-Range] leaves the total open, [bytes 3-4/*], reports no
    total; but [int('*')] raises in every attempt, and [download_file]
    returns [False] after three requests and two waits, the [.part] file
    as it was. *)
Lemma download_file_unknown_size_open_total :
  let res := download_file net_no_total (str_of "u") (str_of "a.mp4")
               (str_of "a") 0 default_max_retries world_part in
  fst res = false /\
  length (sent (snd res)) = 3%nat /\
  slept (snd res) = [5; 10] /\
  fs (snd res) !! str_of "a.mp4" = None /\
  fs (snd res) !! str_of "a.mp4.part" = Some [1; 2; 3].
Proof. vm_compute. repeat split; congruence. Qed.


(** ** Canonical-set reconciliation *)





(** ** The theorems at work on concrete runs *)

(** A resumed attempt: the range starts at 3, the total is 5, and the two
    bytes received follow the three on disk. *)
Lemma download_attempt_resume_witness :
  let res := attempt_once net_range (str_of "u") (str_of "a.mp4") 0 world_part in
  sent (snd res) = [{| rq_url := str_of "u"; rq_range := Some 3 |}] /\
  holds_data (str_of "a.mp4") res [1; 2; 3; 4; 5].
Proof.
  destruct (download_attempt_resume net_range (str_of "u") (str_of "a.mp4") 0
              world_part [1; 2; 3]
              {| status_code := 206;
                 content_range := Some (str_of "bytes 3-4/5");
                 content_length := Some (str_of "2");
                 body := [[4]; [5]];
                 body_fails := false |})
    as (Hsent & H206 & _).
  - vm_compute. reflexivity.
  - reflexivity.
  - split; [exact Hsent|].
    destruct (H206 eq_refl) as (_ & _ & Hdata).
    apply (Hdata 5). vm_compute. reflexivity.
Defined.

(** A full response of two bytes over a [.part] file of three, checked
    against an expected size of 2: accepted and renamed. *)
Lemma download_attempt_verify_witness :
  let res := attempt_once (net_body [[7; 7]]) (str_of "u") (str_of "a.mp4") 2
                          world_part in
  fst res = Downloaded /\
  fs (snd res) !! str_of "a.mp4" = Some [7; 7] /\
  fs (snd res) !! str_of "a.mp4.part" = None.
Proof.
  destruct (download_attempt_verify (net_body [[7; 7]]) (str_of "u")
              (str_of "a.mp4") 2 world_part (Some [1; 2; 3])
              {| status_code := 200; content_range := None;
                 content_length := None; body := [[7; 7]];
                 body_fails := false |} 0 0 WB)
    as [[Haccept _] _].
  - vm_compute. reflexivity.
  - reflexivity.
  - vm_compute. reflexivity.
  - reflexivity.
  - apply Haccept. vm_compute. reflexivity.
Defined.

(** No expected size and no size in the headers: an empty body is
    accepted. *)
Lemma download_file_unknown_size_witness :
  let res := download_file (net_body []) (str_of "u") (str_of "a.mp4")
               (str_of "a") 0 default_max_retries world_part in
  fst res = true /\
  fs (snd res) !! str_of "a.mp4" = Some [] /\
  fs (snd res) !! str_of "a.mp4.part" = None.
Proof.
  apply (download_file_unknown_size (net_body []) (str_of "u")
           (str_of "a.mp4") (str_of "a") default_max_retries world_part
           (Some [1; 2; 3])
           {| status_code := 200; content_range := None;
              content_length := None; body := [];
              body_fails := false |}).
  - vm_compute. reflexivity.
  - reflexivity.
  - reflexivity.
  - reflexivity.
  - reflexivity.
  - reflexivity.
  - discriminate.
  - reflexivity.
Defined.

(** A relive directory with a superseded recording, one without a
    release and a partial download. *)
Lemma cleanup_relive_duplicates_witness :
  let releases := [{| d_name := str_of "Opening Event (39c3).mp4";
                      d_is_file := true |}] in
  let talk := {| d_name := str_of "Opening_Event.mp4"; d_is_file := true |} in
  let other := {| d_name := str_of "Closing.mp4"; d_is_file := true |} in
  let part := {| d_name := str_of "Keynote.mp4.part"; d_is_file := true |} in
  let after := {| relive_dir := Some [other; part];
                  releases_dir := Some releases |} in
  cleanup_relive_duplicates exact_ratio
    {| relive_dir := Some [talk; other; part];
       releases_dir := Some releases |} = Some (after, 1)
  /\ cleanup_relive_duplicates exact_ratio after = Some (after, 0).
Proof.
  intros releases talk other part after.
  pose proof (cleanup_relive_duplicates_idempotent exact_ratio
                [talk; other; part] releases) as H.
  cbv zeta in H. apply H.
  - repeat constructor; vm_compute; intuition discriminate.
  - repeat constructor; vm_compute; congruence.
Defined.


(** ** Further properties *)

Lemma contains_app c a b : contains c (a ++ b) = contains c a || contains c b.
Proof. unfold contains. apply existsb_app. Qed.

(** None of the eight characters of the class is left in the name: they
    are replaced before the truncation, which keeps a prefix and adds
    dots. *)
Theorem sanitize_filename_no_invalid title extension max_bytes c :
  forallb is_scalar title = true ->
  forallb is_scalar extension = true ->
  3 <= max_bytes - Utf8.utf8_len extension ->
  invalid_char c = true ->
  exists name,
    sanitize_filename title extension max_bytes = Some (name ++ extension) /\
    contains c name = false.
Proof.
  intros Ht He Hroom Hc.
  destruct (sanitize_filename_shape title extension max_bytes Ht He Hroom)
    as (name & Hname & _ & _ & Hshape).
  exists name. split; [assumption|].
  pose proof (replace_invalid_clean title c Hc) as Hclean.
  destruct (_ <? _).
  - destruct Hshape as (kept & dropped & Hsplit & -> & _).
    rewrite Hsplit, contains_app in Hclean.
    apply orb_false_iff in Hclean. destruct Hclean as [Hkept _].
    assert (Hdots : contains c ellipsis = false).
    { change ellipsis with [46; 46; 46]. unfold contains. cbn [existsb].
      destruct (Z.eqb_spec c 46) as [->|]; [discriminate | reflexivity]. }
    rewrite contains_app, Hkept, Hdots. reflexivity.
  - subst name. assumption.
Qed.

Lemma sanitize_filename_no_invalid_witness :
  exists name,
    sanitize_filename (str_of "What? A <Talk>: 1/2") (str_of ".mp4")
                      default_max_bytes = Some (name ++ str_of ".mp4") /\
    contains 63 name = false.
Proof.
  apply (sanitize_filename_no_invalid (str_of "What? A <Talk>: 1/2")
           (str_of ".mp4") default_max_bytes 63);
    vm_compute; congruence.
Defined.

(** A 206 response whose [Content-Range] has a slash followed by text
    that is not an integer makes the attempt raise before the [.part] file
    is opened: the request is sent and the files are as before. *)
Theorem attempt_raises_on_open_total net url output_path expected_size w
    content r :
  fs w !! part_path_of output_path = Some content ->
  net (length (sent w)) {| rq_url := url; rq_range := Some (len content) |}
    = Reply r ->
  status_code r = 206 ->
  contains 47 (default [] (content_range r)) = true ->
  py_int (after_last 47 (default [] (content_range r))) = None ->
  attempt_once net url output_path expected_size w
    = (Raised,
       log_request {| rq_url := url; rq_range := Some (len content) |} w).
Proof.
  intros Hold Hnet H206 Hslash Hint. unfold attempt_once.
  rewrite Hold, Hnet. unfold interpret_response.
  rewrite H206. simpl. rewrite Hslash, Hint. reflexivity.
Qed.

Lemma attempt_raises_on_open_total_witness :
  attempt_once net_open_total (str_of "u") (str_of "a.mp4") 0 world_part
    = (Raised,
       log_request {| rq_url := str_of "u"; rq_range := Some 3 |} world_part).
Proof.
  apply (attempt_raises_on_open_total net_open_total (str_of "u")
           (str_of "a.mp4") 0 world_part [1; 2; 3]
           {| status_code := 206;
              content_range := Some (str_of "bytes 3-4/*");
              content_length := Some (str_of "2");
              body := [[4]; [5]];
              body_fails := false |});
    vm_compute; reflexivity.
Defined.

(** The congress tag and the extension do not count in a comparison. *)
Theorem normalize_title_strips_tag :
  normalize_title (str_of "Talk Title (39c3).mp4")
    = normalize_title (str_of "Talk Title.mp4") /\
  normalize_title (str_of "Talk Title.mp4") = str_of "talk title".
Proof. split; vm_compute; reflexivity. Qed.

(** The matcher on a directory listing: the first regular media file
    with the same normalized title is returned, whatever comes later. *)
Example find_matching_release_example :
  find_matching_release exact_ratio (str_of "Opening Event")
    (Some [{| d_name := str_of "opening-event.mp4"; d_is_file := false |};
           {| d_name := str_of "opening-event.txt"; d_is_file := true |};
           {| d_name := str_of "Opening_Event (39C3).webm"; d_is_file := true |};
           {| d_name := str_of "opening-event.mp4.part"; d_is_file := true |};
           {| d_name := str_of "opening event.mp4"; d_is_file := true |}])
    default_threshold
  = Some {| d_name := str_of "Opening_Event (39C3).webm"; d_is_file := true |}.
Proof. vm_compute. reflexivity. Qed.

(** * Properties of the rest of the program *)

(** ** Display helper *)

(** With room for the dots, the text shown is never wider than asked: a
    short text is shown whole, a longer one is cut to [max_width - 3]
    characters followed by three dots, [max_width] characters in all. *)
Theorem truncate_for_display_width text max_width :
  3 <= max_width ->
  len (truncate_for_display text max_width) <= max_width /\
  (len text <= max_width -> truncate_for_display text max_width = text) /\
  (max_width < len text ->
     truncate_for_display text max_width
       = firstn (Z.to_nat (max_width - 3)) text ++ ellipsis /\
     len (truncate_for_display text max_width) = max_width).
Proof.
  intros Hw. unfold truncate_for_display, slice_to.
  destruct (Z.leb_spec (len text) max_width) as [Hshort|Hlong].
  - split; [assumption|]. split; [reflexivity | lia].
  - destruct (Z.leb_spec 0 (max_width - 3)); [|lia].
    assert (Hlen : len (firstn (Z.to_nat (max_width - 3)) text ++ ellipsis)
                   = max_width).
    { unfold len in *. rewrite length_app, firstn_length_le by lia.
      change (length ellipsis) with 3%nat. lia. }
    split; [lia|]. split; [lia|]. auto.
Qed.

Lemma truncate_for_display_width_witness :
  len (truncate_for_display (str_of "Opening Event and Keynote") 20) <= 20 /\
  (len (str_of "Opening Event and Keynote") <= 20 ->
     truncate_for_display (str_of "Opening Event and Keynote") 20
       = str_of "Opening Event and Keynote") /\
  (20 < len (str_of "Opening Event and Keynote") ->
     truncate_for_display (str_of "Opening Event and Keynote") 20
       = firstn (Z.to_nat (20 - 3)) (str_of "Opening Event and Keynote")
         ++ ellipsis /\
     len (truncate_for_display (str_of "Opening Event and Keynote") 20) = 20).
Proof.
  apply (truncate_for_display_width (str_of "Opening Event and Keynote") 20).
  lia.
Defined.

(** ** Name sanitizer, continued *)

Lemma invalid_char_scalar c : invalid_char c = true -> is_scalar c = true.
Proof.
  unfold invalid_char. cbn [existsb]. intros H.
  repeat (apply orb_true_iff in H; destruct H as [H|H];
          [apply Z.eqb_eq in H; subst c; reflexivity|]).
  discriminate.
Qed.

Lemma replace_invalid_scalar_eq title :
  forallb is_scalar (replace_invalid title) = forallb is_scalar title.
Proof.
  induction title as [|c t IH]; simpl; [reflexivity|]. rewrite IH. f_equal.
  destruct (invalid_char c) eqn:Hc; [|reflexivity].
  rewrite (invalid_char_scalar c Hc). reflexivity.
Qed.

Lemma encode_None_iff s :
  Utf8.encode s = None <-> forallb is_scalar s = false.
Proof.
  split; intros H.
  - destruct (forallb is_scalar s) eqn:E; [|reflexivity].
    destruct (encode_scalar s E) as [bs Hbs]. congruence.
  - destruct (Utf8.encode s) as [bs|] eqn:E; [|reflexivity].
    rewrite (encode_Some_scalar s bs E) in H. discriminate.
Qed.

(** The sanitizer raises exactly when the title or the extension holds a
    code point that cannot be encoded (a lone surrogate), whatever the
    budget. *)
Theorem sanitize_filename_raises title extension max_bytes :
  sanitize_filename title extension max_bytes = None <->
  forallb is_scalar (title ++ extension) = false.
Proof.
  rewrite forallb_app, andb_false_iff.
  rewrite <- (replace_invalid_scalar_eq title), <- !encode_None_iff.
  unfold sanitize_filename.
  destruct (Utf8.encode extension) as [eb|]; [|tauto].
  destruct (Utf8.encode (replace_invalid title)) as [tb|]; [|tauto].
  destruct (_ <? _); split; intros H; try discriminate;
    destruct H; discriminate.
Qed.

(** ** File names and the matcher *)

Lemma rfind_nonneg_In x s : 0 <= rfind x s -> In x s.
Proof.
  induction s as [|c s IH]; simpl; [lia|].
  destruct (Z.leb_spec 0 (rfind x s)); [auto|].
  destruct (Z.eqb_spec c x); [auto | lia].
Qed.

Lemma rfind_last x a b : ~ In x b -> rfind x (a ++ x :: b) = len a.
Proof.
  intros Hb. induction a as [|c a IH]; simpl.
  - rewrite rfind_absent by assumption. simpl. rewrite Z.eqb_refl. reflexivity.
  - rewrite IH. unfold len.
    destruct (Z.leb_spec 0 (Z.of_nat (length a))); [|lia].
    simpl length. lia.
Qed.

Lemma name_no_slash s : ~ In 47 s -> s <> [46] -> PathLib.name s = s.
Proof.
  intros H Hdot. unfold PathLib.name.
  rewrite components_no_slash by assumption.
  rewrite app_nil_r. case_bool_decide as Hs; simpl.
  - destruct Hs as [Hs|Hs]; apply (f_equal (@rev Z)) in Hs;
      rewrite rev_involutive in Hs; simpl in Hs; [subst s; reflexivity|].
    contradiction.
  - apply rev_involutive.
Qed.

(** A name followed by a dot and an extension: the extension is its
    suffix and the name its stem. *)
Lemma dotted_name a e :
  a <> [] -> e <> [] -> ~ In 46 e ->
  PathLib.suffix_of_name (a ++ 46 :: e) = 46 :: e /\
  PathLib.stem_of_name (a ++ 46 :: e) = a.
Proof.
  intros Ha He Hdot. unfold PathLib.suffix_of_name, PathLib.stem_of_name.
  rewrite rfind_last by assumption.
  assert (Hla : 0 < len a) by (destruct a; [congruence | unfold len; simpl; lia]).
  assert (Hle : 0 < len e) by (destruct e; [congruence | unfold len; simpl; lia]).
  assert (Hlen : len (a ++ 46 :: e) = len a + 1 + len e).
  { unfold len. rewrite length_app. simpl. lia. }
  rewrite Hlen.
  destruct (Z.ltb_spec 0 (len a)); [|lia].
  destruct (Z.ltb_spec (len a) (len a + 1 + len e - 1)); [|lia].
  simpl. unfold len. rewrite Nat2Z.id.
  rewrite skipn_app, firstn_app, Nat.sub_diag, skipn_all, firstn_all.
  simpl. rewrite app_nil_r. auto.
Qed.

Lemma stem_dotted a e :
  a <> [] -> e <> [] -> ~ In 47 a -> ~ In 46 e -> ~ In 47 e ->
  PathLib.stem (a ++ 46 :: e) = a.
Proof.
  intros Ha He Hsa Hdot Hse. unfold PathLib.stem.
  rewrite name_no_slash.
  - apply dotted_name; assumption.
  - intros Hin. apply in_app_or in Hin. simpl in Hin.
    destruct Hin as [|[|]]; [tauto | lia | tauto].
  - destruct a as [|x a]; [congruence|]. destruct a; simpl; [|congruence].
    destruct e; [congruence | discriminate].
Qed.

Lemma preset_extensions quality extension :
  preset_file_extension quality = Some extension ->
  In extension media_suffixes.
Proof.
  unfold preset_file_extension, QUALITY_PRESETS. intros H.
  destruct (list_to_map _ !! quality) as [[[feed ext] desc]|] eqn:E;
    [|discriminate].
  simpl in H. inversion H; subst ext; clear H.
  apply elem_of_list_to_map_2 in E.
  repeat (apply elem_of_cons in E; destruct E as [E|E];
          [inversion E; subst; simpl; tauto|]).
  inversion E.
Qed.

Lemma media_suffix_shape extension :
  In extension media_suffixes ->
  exists e, extension = 46 :: e /\ e <> [] /\ ~ In 46 e /\ ~ In 47 e /\
            forallb is_scalar extension = true /\
            3 <= default_max_bytes - Utf8.utf8_len extension /\
            lower extension = extension.
Proof.
  intros H. simpl in H.
  destruct H as [<-|[<-|[<-|[<-|[]]]]];
    eexists; (split; [reflexivity|]);
    (split; [discriminate|]);
    (split; [simpl; intuition discriminate|]);
    (split; [simpl; intuition discriminate|]);
    (split; [reflexivity|]);
    (split; [vm_compute; congruence | reflexivity]).
Qed.

Lemma has_media_suffix_dotted a extension :
  a <> [] -> In extension media_suffixes ->
  has_media_suffix (a ++ extension) = true.
Proof.
  intros Ha Hext.
  destruct (media_suffix_shape extension Hext)
    as (e & -> & He & Hdot & _ & _ & _ & Hlow).
  unfold has_media_suffix.
  destruct (dotted_name a e Ha He Hdot) as [-> _]. rewrite Hlow.
  apply existsb_exists. exists (46 :: e). split; [assumption|].
  apply bool_decide_eq_true_2. reflexivity.
Qed.

(** Whatever the quality preset, the file name made for a title that is
    not empty has a suffix that the matcher accepts, so a release on disk
    is a candidate for matching; the name made for the empty title is the
    bare extension, which has no suffix and is skipped by the matcher. *)
Theorem preset_file_is_media quality extension title :
  preset_file_extension quality = Some extension ->
  forallb is_scalar title = true ->
  exists filename,
    sanitize_filename title extension default_max_bytes = Some filename /\
    has_media_suffix filename = negb (bool_decide (title = [])).
Proof.
  intros Hq Ht. pose proof (preset_extensions _ _ Hq) as Hext.
  destruct (media_suffix_shape extension Hext)
    as (e & Hshape & He & Hdot & _ & Hscalar & Hroom & Hlow).
  destruct (sanitize_filename_shape title extension default_max_bytes
              Ht Hscalar Hroom) as (name & Hname & _ & _ & Hcut).
  exists (name ++ extension). split; [assumption|].
  destruct title as [|c title].
  - assert (Hn : name = []).
    { change (Utf8.utf8_len (replace_invalid [])) with 0 in Hcut.
      destruct (Z.ltb_spec (default_max_bytes - Utf8.utf8_len extension) 0);
        [lia | assumption]. }
    subst name. clear - Hext. simpl in Hext.
    destruct Hext as [<-|[<-|[<-|[<-|[]]]]]; vm_compute; reflexivity.
  - rewrite bool_decide_eq_false_2 by discriminate.
    apply has_media_suffix_dotted; [|assumption].
    destruct (_ <? _).
    + destruct Hcut as (kept & dropped & _ & -> & _).
      intros E. apply app_eq_nil in E. destruct E as [_ E]. discriminate.
    + subst name. discriminate.
Qed.

(** A title without dots and without the characters of the class, short
    enough to be kept whole, is saved under a name that normalizes to the
    same key as the title itself: the test made before a download and the
    one made on the file afterwards agree. *)
Theorem normalize_saved_name quality extension title :
  preset_file_extension quality = Some extension ->
  title <> [] ->
  forallb is_scalar title = true ->
  forallb (fun c => negb (invalid_char c) && negb (c =? 46)) title = true ->
  Utf8.utf8_len title <= default_max_bytes - Utf8.utf8_len extension ->
  sanitize_filename title extension default_max_bytes
    = Some (title ++ extension) /\
  normalize_title (title ++ extension) = normalize_title title.
Proof.
  intros Hq Hne Ht Hplain Hfit. pose proof (preset_extensions _ _ Hq) as Hext.
  destruct (media_suffix_shape extension Hext)
    as (e & -> & He & Hdot & Hslash & Hscalar & _ & _).
  rewrite forallb_forall in Hplain.
  assert (Hc : forall c, In c title -> invalid_char c = false /\ c <> 46).
  { intros c Hin. specialize (Hplain c Hin).
    apply andb_true_iff in Hplain. destruct Hplain as [H1 H2].
    apply negb_true_iff in H1, H2. apply Z.eqb_neq in H2. auto. }
  assert (Hid : replace_invalid title = title).
  { apply map_id_on. apply List.Forall_forall. intros c Hin.
    destruct (Hc c Hin) as [-> _]. reflexivity. }
  assert (Hs47 : ~ In 47 title).
  { intros Hin. destruct (Hc 47 Hin) as [H _]. discriminate. }
  assert (Hs46 : ~ In 46 title) by (intros Hin; destruct (Hc 46 Hin); auto).
  split.
  - unfold sanitize_filename. rewrite Hid.
    destruct (encode_scalar _ Hscalar) as [eb Eeb].
    destruct (encode_scalar _ Ht) as [tb Etb].
    rewrite (utf8_len_encode _ _ Eeb), (utf8_len_encode _ _ Etb) in Hfit.
    rewrite Eeb, Etb.
    destruct (Z.ltb_spec (default_max_bytes - len eb) (len tb)); [lia|].
    reflexivity.
  - unfold normalize_title.
    rewrite stem_dotted by assumption. rewrite stem_plain by assumption.
    reflexivity.
Qed.

(** ** Title normalizer, continued *)

(** The normalized form: words separated by single spaces, where a word
    is not empty and each of its characters is kept by the filter, is
    neither white space nor a separator and is its own lower case. *)
Theorem normalize_title_words x :
  ~ In 0x130 x ->
  exists ws, Forall stable_word ws /\ normalize_title x = join_space ws.
Proof. apply normalize_form. Qed.

Lemma remove_tags_from_all r : forall k,
  (length r <= k)%nat -> remove_tags_from k r = [].
Proof.
  induction r as [|c r IH]; intros k Hk; [reflexivity|].
  destruct k as [|k]; simpl in Hk; [lia|].
  cbn [remove_tags_from]. apply IH. lia.
Qed.

Lemma drop_while_some {A} (p : A -> bool) l r :
  forallb p l = false -> drop_while p (l ++ r) = drop_while p l ++ r.
Proof.
  induction l as [|x l IH]; simpl; [discriminate|].
  destruct (p x); simpl; [exact IH | reflexivity].
Qed.

Lemma drop_while_head {A} (p : A -> bool) l :
  forallb p l = false ->
  exists y t, drop_while p l = y :: t /\ In y l /\ p y = false.
Proof.
  induction l as [|x l IH]; simpl; [discriminate|].
  destruct (p x) eqn:Hx; simpl.
  - intros H. destruct (IH H) as (y & t & E & Hin & Hy). eauto 6.
  - intros _. exists x, l. auto.
Qed.

Lemma forallb_Forall_true {A} (p : A -> bool) l :
  forallb p l = true -> Forall (fun x => p x = true) l.
Proof.
  intros H. apply List.Forall_forall. apply forallb_forall. assumption.
Qed.

(** A tag after a name without parenthesis: the substitution removes it
    with the white space around it. *)
Lemma remove_tags_chop name tag post :
  ~ In 40 name -> is_tag tag -> forallb is_space post = true ->
  remove_tags (name ++ tag ++ post) = chop name.
Proof.
  intros Hname (d1 & d2 & c & d3 & -> & Hd1 & Hd2 & Hd3 & Hc) Hpost.
  assert (Hdrop_post : drop_while is_space post = []).
  { rewrite <- (app_nil_r post). rewrite drop_while_all; [reflexivity|].
    apply forallb_Forall_true. assumption. }
  assert (Hcond : (40 =? 40) && is_digit d1 && is_digit d2
                  && ((c =? 99) || (c =? 67)) && is_digit d3 && (41 =? 41)
                  = true).
  { rewrite Hd1, Hd2, Hd3. destruct Hc as [-> | ->]; reflexivity. }
  unfold remove_tags. induction name as [|x r IH].
  - cbn [app remove_tags_from]. unfold match_tag. cbn [drop_while].
    change (is_space 40) with false. cbv iota. rewrite Hcond, Hdrop_post.
    apply remove_tags_from_all. apply le_n.
  - cbn [chop].
    destruct (forallb is_space (x :: r)) eqn:Hall.
    + change ((x :: r) ++ [40; d1; d2; c; d3; 41] ++ post)
        with (x :: (r ++ [40; d1; d2; c; d3; 41] ++ post)).
      cbn [remove_tags_from].
      assert (Hm : match_tag (x :: r ++ [40; d1; d2; c; d3; 41] ++ post)
                   = Some (length (x :: r ++ [40; d1; d2; c; d3; 41] ++ post))).
      { unfold match_tag.
        change (x :: r ++ [40; d1; d2; c; d3; 41] ++ post)
          with ((x :: r) ++ [40; d1; d2; c; d3; 41] ++ post).
        rewrite drop_while_all by (apply forallb_Forall_true; assumption).
        cbn [app drop_while]. change (is_space 40) with false. cbv iota.
        rewrite Hcond, Hdrop_post. f_equal; try (simpl; lia). }
      rewrite Hm. apply remove_tags_from_all. apply le_n.
    + change ((x :: r) ++ [40; d1; d2; c; d3; 41] ++ post)
        with (x :: (r ++ [40; d1; d2; c; d3; 41] ++ post)).
      cbn [remove_tags_from].
      assert (Hm : match_tag (x :: r ++ [40; d1; d2; c; d3; 41] ++ post) = None).
      { unfold match_tag.
        change (x :: r ++ [40; d1; d2; c; d3; 41] ++ post)
          with ((x :: r) ++ [40; d1; d2; c; d3; 41] ++ post).
        rewrite drop_while_some by assumption.
        destruct (drop_while_head is_space (x :: r) Hall)
          as (y & t & -> & Hin & _).
        assert (Hy : y <> 40) by (intros ->; auto).
        cbn [app].
        destruct (Z.eqb_spec y 40); [contradiction|].
        destruct (t ++ _) as [|a1 [|a2 [|a3 [|a4 [|a5 rest]]]]];
          reflexivity. }
      rewrite Hm. f_equal. apply IH. simpl in Hname. tauto.
Qed.

Lemma chop_split s :
  exists ws, s = chop s ++ ws /\ forallb is_space ws = true.
Proof.
  induction s as [|x r (ws & E & Hws)]; [exists []; auto|].
  cbn [chop]. destruct (forallb is_space (x :: r)) eqn:Hall.
  - exists (x :: r). auto.
  - exists ws. split; [simpl; congruence | assumption].
Qed.

Lemma split_from_trailing ws : forall cur,
  forallb is_space ws = true -> split_from cur ws = split_from cur [].
Proof.
  induction ws as [|c ws IH]; intros cur H; [reflexivity|].
  simpl in H. apply andb_true_iff in H. destruct H as [Hc Hws].
  cbn [split_from]. rewrite Hc.
  destruct cur; rewrite (IH [] Hws); reflexivity.
Qed.

Lemma split_from_app_trailing a ws : forall cur,
  forallb is_space ws = true ->
  split_from cur (a ++ ws) = split_from cur a.
Proof.
  induction a as [|c a IH]; intros cur H.
  - apply split_from_trailing. assumption.
  - cbn [app split_from]. destruct (is_space c); destruct cur;
      rewrite ?IH by assumption; reflexivity.
Qed.

Lemma space_not_separator c : is_space c = true -> is_separator c = false.
Proof.
  intros H. unfold is_separator.
  destruct (Z.eqb_spec c 95) as [->|]; [discriminate|].
  destruct (Z.eqb_spec c 45) as [->|]; [discriminate|].
  destruct (Z.eqb_spec c 0x2013) as [->|]; [discriminate|].
  destruct (Z.eqb_spec c 0x2014) as [->|]; [discriminate|].
  reflexivity.
Qed.

(** White space at the end of a name does not count. *)
Lemma words_chop s :
  split (List.filter is_kept
           (map (fun c => if is_separator c then 32 else c) (chop s)))
  = split (List.filter is_kept
             (map (fun c => if is_separator c then 32 else c) s)).
Proof.
  destruct (chop_split s) as (ws & E & Hws). rewrite E at 2.
  rewrite map_app, List.filter_app. unfold split.
  assert (Hid : List.filter is_kept
                  (map (fun c => if is_separator c then 32 else c) ws) = ws).
  { rewrite map_id_on.
    - apply filter_all. apply List.Forall_forall. intros c Hin.
      rewrite forallb_forall in Hws. unfold is_kept.
      rewrite (Hws c Hin), orb_true_r. reflexivity.
    - apply List.Forall_forall. intros c Hin.
      rewrite forallb_forall in Hws.
      rewrite (space_not_separator c (Hws c Hin)). reflexivity. }
  rewrite Hid. symmetry. apply split_from_app_trailing. assumption.
Qed.

(** A congress tag between a name and the extension, with any white
    space around it, does not change the key: the title with the tag and
    the title without it normalize alike.  The name is not empty and has
    no slash and no opening parenthesis. *)
Theorem normalize_title_ignores_tag name pre tag post e :
  name <> [] -> ~ In 47 name -> ~ In 40 name ->
  forallb is_space pre = true -> is_tag tag -> forallb is_space post = true ->
  e <> [] -> ~ In 46 e -> ~ In 47 e ->
  normalize_title (name ++ pre ++ tag ++ post ++ 46 :: e)
  = normalize_title (name ++ 46 :: e).
Proof.
  intros Hne Hslash Hparen Hpre Htag Hpost He Hdot Hse.
  assert (Hsp : forall ws x, forallb is_space ws = true -> In x ws ->
                  x <> 47 /\ x <> 40).
  { intros ws x Hws Hin. rewrite forallb_forall in Hws.
    specialize (Hws x Hin). split; intros ->; discriminate. }
  assert (Htag47 : ~ In 47 tag).
  { destruct Htag as (d1 & d2 & c & d3 & -> & Hd1 & Hd2 & Hd3 & Hc).
    simpl. intros [H|[H|[H|[H|[H|[H|[]]]]]]]; subst;
      try discriminate; destruct Hc; discriminate. }
  unfold normalize_title.
  replace (name ++ pre ++ tag ++ post ++ 46 :: e)
    with (((name ++ pre) ++ tag ++ post) ++ 46 :: e)
    by (rewrite <- !app_assoc; reflexivity).
  rewrite stem_dotted; try assumption.
  - rewrite stem_dotted by assumption.
    rewrite remove_tags_chop; try assumption.
    + rewrite remove_tags_plain by assumption.
      rewrite words_chop.
      assert (Hw : split (List.filter is_kept
                     (map (fun c => if is_separator c then 32 else c)
                          (name ++ pre)))
                   = split (List.filter is_kept
                     (map (fun c => if is_separator c then 32 else c) name))).
      { rewrite map_app, List.filter_app. unfold split.
        apply split_from_app_trailing.
        rewrite map_id_on.
        - rewrite filter_all; [assumption|]. apply List.Forall_forall.
          intros c Hin. rewrite forallb_forall in Hpre. unfold is_kept.
          rewrite (Hpre c Hin), orb_true_r. reflexivity.
        - apply List.Forall_forall. intros c Hin.
          rewrite forallb_forall in Hpre.
          rewrite (space_not_separator c (Hpre c Hin)). reflexivity. }
      rewrite Hw. reflexivity.
    + intros Hin. apply in_app_or in Hin. destruct Hin as [|Hin]; [auto|].
      destruct (Hsp pre 40 Hpre Hin). congruence.
  - destruct name; [congruence | discriminate].
  - intros Hin. repeat (apply in_app_or in Hin; destruct Hin as [Hin|Hin]);
      try tauto.
    + destruct (Hsp pre 47 Hpre Hin). congruence.
    + destruct (Hsp post 47 Hpost Hin). congruence.
Qed.

(** ** Similarity matcher, continued *)

Section MatcherMore.

Variable ratio : pystr -> pystr -> Q.

(** A lower threshold never loses a match: when a file is found at one
    threshold, some file is found at every threshold below it. *)
Theorem find_matching_release_monotone title releases threshold threshold' :
  (threshold' <= threshold)%Q ->
  is_Some (find_matching_release ratio title releases threshold) ->
  is_Some (find_matching_release ratio title releases threshold').
Proof.
  intros Hle. destruct releases as [entries|]; simpl; [|auto].
  induction entries as [|x entries IH]; simpl; [auto|].
  destruct (negb (d_is_file x)); [assumption|].
  destruct (negb (has_media_suffix (d_name x))); [assumption|].
  destruct (Qle_bool threshold _) eqn:Hq.
  - intros _. apply Qle_bool_iff in Hq.
    assert (Hq' : Qle_bool threshold'
                    (ratio (normalize_title title)
                           (normalize_title (d_name x))) = true).
    { apply Qle_bool_iff. eapply Qle_trans; eassumption. }
    rewrite Hq'. eauto.
  - intros H. destruct (Qle_bool threshold' _); [eauto | auto].
Qed.

Lemma ends_with_split t s :
  ends_with t s = true -> exists a, s = a ++ t.
Proof.
  unfold ends_with. set (n := (length s - length t)%nat).
  case_decide as E; [|discriminate]. intros _.
  exists (firstn n s). rewrite <- E. symmetry. apply firstn_skipn.
Qed.

(** A name that ends in [.part] never has a media suffix. *)
Lemma part_not_media n :
  ends_with (str_of ".part") n = true -> has_media_suffix n = false.
Proof.
  intros H. destruct (ends_with_split _ _ H) as [a ->].
  unfold has_media_suffix. change (str_of ".part") with (46 :: str_of "part").
  destruct a as [|x a].
  - reflexivity.
  - destruct (dotted_name (x :: a) (str_of "part")) as [-> _];
      [discriminate | discriminate | simpl; intuition discriminate|].
    reflexivity.
Qed.

(** Partial downloads in the releases directory do not count: the matcher
    gives the same answer with and without the [*.part] entries. *)
Theorem find_matching_release_ignores_part title entries threshold :
  find_matching_release ratio title
    (Some (List.filter (fun e => negb (ends_with (str_of ".part") (d_name e)))
                       entries)) threshold
  = find_matching_release ratio title (Some entries) threshold.
Proof.
  simpl. induction entries as [|x entries IH]; [reflexivity|].
  cbn [List.filter first_match].
  destruct (ends_with (str_of ".part") (d_name x)) eqn:Hp; simpl.
  - rewrite (part_not_media _ Hp). simpl.
    destruct (d_is_file x); simpl; assumption.
  - rewrite IH. reflexivity.
Qed.

End MatcherMore.

(** ** Partial downloads *)

Lemma unlink_all_spec snapshot : forall entries count,
  List.NoDup (map d_name snapshot) ->
  (forall e, In e snapshot -> In e entries /\ d_is_file e = true) ->
  unlink_all snapshot entries count
    = Some (List.filter
              (fun e => negb (existsb (fun n => bool_decide (d_name e = n))
                                      (map d_name snapshot)))
              entries,
            count + len snapshot).
Proof.
  induction snapshot as [|x snapshot IH]; intros entries count Hnd Hin.
  - simpl. f_equal. f_equal; [|unfold len; simpl; lia].
    symmetry. apply filter_all. apply List.Forall_forall. reflexivity.
  - inversion Hnd as [|? ? Hx Hnd']; subst.
    cbn [unlink_all]. destruct (Hin x (or_introl eq_refl)) as [Hxe Hxf].
    unfold unlink_entry.
    assert (Hex : existsb (fun e => bool_decide (d_name e = d_name x)
                                     && d_is_file e) entries = true).
    { apply existsb_exists. exists x. split; [assumption|].
      rewrite bool_decide_eq_true_2 by reflexivity. assumption. }
    rewrite Hex. rewrite IH; [|assumption|].
    + f_equal. f_equal.
      * rewrite filter_filter. apply filter_ext_in_bool. intros e _.
        cbn [map existsb].
        destruct (decide (d_name e = d_name x)) as [E|E].
        -- rewrite (bool_decide_eq_true_2 _ E). reflexivity.
        -- rewrite (bool_decide_eq_false_2 _ E). reflexivity.
      * unfold len. cbn [length]. lia.
    + intros e He. destruct (Hin e (or_intror He)) as [Hec Hef].
      split; [|assumption]. apply filter_In. split; [assumption|].
      rewrite bool_decide_eq_false_2; [reflexivity|].
      intros E. apply Hx. rewrite <- E. apply in_map. assumption.
Qed.

Lemma clean_directory_spec entries count :
  List.NoDup (map d_name entries) ->
  Forall (fun e => ends_with (str_of ".part") (d_name e) = true ->
                   d_is_file e = true) entries ->
  clean_directory (Some entries) count
    = Some (Some (List.filter
                    (fun e => negb (ends_with (str_of ".part") (d_name e)))
                    entries),
            count + len (glob_part entries)).
Proof.
  intros Hnd Hfiles. unfold clean_directory. rewrite unlink_all_spec.
  - f_equal. f_equal. f_equal. apply filter_ext_in_bool. intros e He.
    f_equal. unfold glob_part.
    destruct (ends_with (str_of ".part") (d_name e)) eqn:Hp.
    + apply existsb_exists. exists (d_name e).
      split; [|apply bool_decide_eq_true_2; reflexivity].
      apply in_map. apply filter_In. auto.
    + destruct (existsb _ _) eqn:Hex; [|reflexivity].
      apply existsb_exists in Hex. destruct Hex as (n & Hn & E).
      apply bool_decide_eq_true in E. subst n. apply in_map_iff in Hn.
      destruct Hn as (e' & E' & He'). apply filter_In in He'.
      destruct He' as [_ He']. rewrite E' in He'. congruence.
  - apply NoDup_map_filter. assumption.
  - intros e He. apply filter_In in He. destruct He as [He Hp].
    split; [assumption|]. rewrite List.Forall_forall in Hfiles. auto.
Qed.

(** [cleanup_partial_downloads] removes the [*.part] entries of both
    directories and nothing else, returns the number that
    [count_partial_downloads] gave before, and leaves nothing for it to
    count; a missing directory is skipped. *)
Theorem cleanup_partial_downloads_all config :
  tidy (relive_dir config) -> tidy (releases_dir config) ->
  let after := {| relive_dir := without_part (relive_dir config);
                  releases_dir := without_part (releases_dir config) |} in
  cleanup_partial_downloads config
    = Some (after, count_partial_downloads config) /\
  count_partial_downloads after = 0.
Proof.
  intros Hrelive Hreleases after.
  assert (Hnone : forall entries,
            glob_part (List.filter
              (fun e => negb (ends_with (str_of ".part") (d_name e))) entries)
            = []).
  { intros entries. unfold glob_part. rewrite filter_filter.
    induction entries as [|e l IH]; simpl; [reflexivity|].
    destruct (ends_with (str_of ".part") (d_name e)); simpl; assumption. }
  split.
  - unfold cleanup_partial_downloads, count_partial_downloads, after.
    destruct config as [[rl|] [rs|]];
      cbn [relive_dir releases_dir tidy without_part fmap option_fmap
           option_map fold_left] in *.
    + destruct Hrelive as [H1 H2]. destruct Hreleases as [H3 H4].
      rewrite (clean_directory_spec rl 0 H1 H2).
      rewrite (clean_directory_spec rs _ H3 H4). reflexivity.
    + destruct Hrelive as [H1 H2].
      rewrite (clean_directory_spec rl 0 H1 H2). reflexivity.
    + destruct Hreleases as [H3 H4]. unfold clean_directory at 1.
      rewrite (clean_directory_spec rs _ H3 H4). reflexivity.
    + reflexivity.
  - unfold count_partial_downloads, after, without_part.
    destruct (relive_dir config) as [rl|];
      destruct (releases_dir config) as [rs|]; simpl;
      rewrite ?Hnone; reflexivity.
Qed.

(** ** Resumable transfer engine, continued *)

Section TransferMore.

Variable net : nat -> request -> reply.

(** What one attempt does to the files: nothing, or it writes the [.part]
    file, or it writes it and renames it to the final path. *)
Lemma attempt_once_fs url output_path expected_size w :
  let res := attempt_once net url output_path expected_size w in
  let part_path := part_path_of output_path in
  (fst res <> Downloaded /\
   (fs (snd res) = fs w \/
    exists data, fs (snd res) = <[part_path := data]> (fs w))) \/
  (fst res = Downloaded /\
   exists data,
     fs (snd res)
       = <[output_path := data]>
           (delete part_path (<[part_path := data]> (fs w)))).
Proof.
  assert (Hsame : forall (w1 : world) (part_path : pystr),
            fs w1 = fs w ->
            Raised <> Downloaded /\
            (fs w1 = fs w \/
             exists data, fs w1 = <[part_path := data]> (fs w)))
    by (intros; split; [discriminate | left; assumption]).
  unfold attempt_once.
  destruct (fs w !! part_path_of output_path) as [content|]; simpl.
  all: match goal with |- context [net ?n ?rq] => destruct (net n rq) as [|r] end.
  all: simpl; try (left; apply Hsame; reflexivity).
  all: match goal with
       | |- context [interpret_response ?r ?p ?m] =>
           destruct (interpret_response r p m) as [[[total rp] m']|]
       end.
  all: simpl; try (left; apply Hsame; reflexivity).
  all: rewrite stream_to_part.
  all: destruct (body_fails r); simpl.
  all: try (left; split; [discriminate | right; eexists; reflexivity]).
  all: match goal with
       | |- context [too_small ?a ?c] => destruct (too_small a c) as [[|]|]
       end.
  all: simpl.
  all: try (left; split; [discriminate | right; eexists; reflexivity]).
  all: right; split; [reflexivity|]; rewrite lookup_insert_eq; simpl;
       eexists; reflexivity.
Qed.

Lemma download_loop_fs url output_path expected_size max_retries :
  forall n attempt w,
    let res := download_loop net n attempt url output_path expected_size
                             max_retries w in
    let part_path := part_path_of output_path in
    (forall p, p <> output_path -> p <> part_path ->
       fs (snd res) !! p = fs w !! p) /\
    (fst res = true ->
       is_Some (fs (snd res) !! output_path) /\
       fs (snd res) !! part_path = None) /\
    (fst res = false -> fs (snd res) !! output_path = fs w !! output_path) /\
    (length (sent (snd res)) <= length (sent w) + n)%nat /\
    (fst res = true -> (length (sent w) < length (sent (snd res)))%nat).
Proof.
  induction n as [|n IH]; intros attempt w.
  - simpl. repeat split; auto; try discriminate; lia.
  - cbn [download_loop].
    pose proof (attempt_once_fs url output_path expected_size w) as Hfs.
    pose proof (attempt_once_log net url output_path expected_size w) as [Hs _].
    cbv zeta in Hfs.
    destruct (attempt_once net url output_path expected_size w) as [ar w1].
    simpl in Hfs, Hs.
    assert (Hne : output_path <> part_path_of output_path)
      by (intros E; symmetry in E; revert E; apply part_path_ne).
    destruct Hfs as [[Har Hw1] | [Har (data & Hw1)]].
    + assert (Hframe : forall p, p <> part_path_of output_path ->
                         fs w1 !! p = fs w !! p).
      { intros p Hp. destruct Hw1 as [-> | (data & ->)]; [reflexivity|].
        apply lookup_insert_ne. congruence. }
      assert (Hnext : forall w2, fs w2 = fs w1 -> sent w2 = sent w1 ->
        let res := download_loop net n (attempt + 1) url output_path
                                 expected_size max_retries w2 in
        (forall p, p <> output_path -> p <> part_path_of output_path ->
           fs (snd res) !! p = fs w !! p) /\
        (fst res = true ->
           is_Some (fs (snd res) !! output_path) /\
           fs (snd res) !! part_path_of output_path = None) /\
        (fst res = false ->
           fs (snd res) !! output_path = fs w !! output_path) /\
        (length (sent (snd res)) <= length (sent w) + S n)%nat /\
        (fst res = true -> (length (sent w) < length (sent (snd res)))%nat)).
      { intros w2 Hf2 Hs2. destruct (IH (attempt + 1) w2)
          as (Ha & Hb & Hc & Hd & He).
        rewrite Hf2 in Ha, Hc. rewrite Hs2, Hs, length_app in Hd, He.
        simpl in Hd, He. cbv zeta.
        split; [intros p Hp1 Hp2; rewrite Ha by assumption; auto|].
        split; [assumption|].
        split; [intros Hr; rewrite (Hc Hr); auto|].
        split; [lia|]. intros Hr. specialize (He Hr). lia. }
      destruct ar; [congruence| |].
      * apply Hnext; reflexivity.
      * destruct (attempt <? max_retries - 1); apply Hnext; reflexivity.
    + subst ar. simpl. rewrite Hw1, Hs, length_app. simpl.
      split; [intros p Hp1 Hp2|].
      { rewrite lookup_insert_ne by congruence.
        rewrite lookup_delete_ne by congruence.
        apply lookup_insert_ne. congruence. }
      split; [intros _; split|].
      { rewrite lookup_insert_eq. eauto. }
      { rewrite lookup_insert_ne by congruence. apply lookup_delete_eq. }
      split; [discriminate|]. split; [lia|]. intros _. lia.
Qed.

(** [download_file] touches two paths only, the final path and its
    [.part] file; when it returns [False] the final path is as it was,
    whether there was a file or not. *)
Theorem download_file_frame url output_path description expected_size
    max_retries w :
  let res := download_file net url output_path description expected_size
                           max_retries w in
  (forall p, p <> output_path -> p <> part_path_of output_path ->
     fs (snd res) !! p = fs w !! p) /\
  (fst res = false -> fs (snd res) !! output_path = fs w !! output_path).
Proof.
  destruct (download_loop_fs url output_path expected_size max_retries
              (Z.to_nat max_retries) 0 w) as (Ha & _ & Hc & _).
  split; assumption.
Qed.

(** When [download_file] returns [True] the final file exists and the
    [.part] file is gone.  It sends at most [max_retries] requests, at
    least one when it succeeds, and with no attempt allowed it returns
    [False] at once and changes nothing. *)
Theorem download_file_success url output_path description expected_size
    max_retries w :
  let res := download_file net url output_path description expected_size
                           max_retries w in
  (fst res = true ->
     is_Some (fs (snd res) !! output_path) /\
     fs (snd res) !! part_path_of output_path = None /\
     (length (sent w) < length (sent (snd res)))%nat) /\
  (length (sent (snd res)) <= length (sent w) + Z.to_nat max_retries)%nat /\
  (max_retries <= 0 -> res = (false, w)).
Proof.
  destruct (download_loop_fs url output_path expected_size max_retries
              (Z.to_nat max_retries) 0 w) as (_ & Hb & _ & Hd & He).
  split; [intros Hr; destruct (Hb Hr); auto|].
  split; [assumption|].
  intros Hle. unfold download_file.
  replace (Z.to_nat max_retries) with O by lia. reflexivity.
Qed.

(** Resuming: with a [.part] file on disk, a server that answers 206 with
    the rest of the file and announces the total that results, a total
    that [float] can convert, and an expected size that is unknown or
    equal to that total, the first attempt succeeds: the final file is
    the bytes on disk followed by the bytes received, the [.part] file is
    gone, one request was sent and there was no wait. *)
Theorem download_file_resumes url output_path description expected_size
    max_retries w old r :
  fs w !! part_path_of output_path = Some old ->
  net (length (sent w)) {| rq_url := url; rq_range := Some (len old) |}
    = Reply r ->
  status_code r = 206 ->
  contains 47 (default [] (content_range r)) = true ->
  py_int (after_last 47 (default [] (content_range r)))
    = Some (len (old ++ concat (body r))) ->
  body_fails r = false ->
  expected_size = 0 \/ expected_size = len (old ++ concat (body r)) ->
  len (old ++ concat (body r)) < Float.limit ->
  0 < max_retries ->
  let res := download_file net url output_path description expected_size
                           max_retries w in
  fst res = true /\
  fs (snd res) !! output_path = Some (old ++ concat (body r)) /\
  fs (snd res) !! part_path_of output_path = None /\
  sent (snd res)
    = sent w ++ [{| rq_url := url; rq_range := Some (len old) |}] /\
  slept (snd res) = slept w.
Proof.
  intros Hold Hnet H206 Hslash Htotal Hbody Hexp Hfit Hmax res.
  assert (Hint : interpret_response r (default 0 (len <$> Some old))
                   (initial_mode (Some old))
                 = Some (len (old ++ concat (body r)), len old, AB)).
  { unfold interpret_response. rewrite H206. simpl. rewrite Hslash, Htotal.
    reflexivity. }
  destruct (attempt_once_verify net url output_path expected_size w
              (Some old) r _ _ _ Hold Hnet Hint Hbody) as [Haccept _].
  cbv zeta in Haccept. cbn [streamed] in Haccept.
  destruct Haccept as (Hres & Hout & Hpart).
  { apply too_small_full; destruct (0 <? expected_size);
      destruct Hexp as [-> | ->]; unfold len in *; lia. }
  pose proof (attempt_once_log net url output_path expected_size w) as [Hs Hz].
  rewrite Hold in Hs. unfold probe in Hs. simpl in Hs.
  unfold res, download_file.
  destruct (Z.to_nat max_retries) as [|n] eqn:En; [lia|].
  cbn [download_loop].
  destruct (attempt_once net url output_path expected_size w) as [ar w1].
  simpl in *. subst ar. simpl. auto.
Qed.

(** A status other than 200 and 206: from 400 to 599 the attempt raises
    and writes nothing; any other one is not an error for the engine, the
    body is written to the [.part] file, after what the file held if it
    existed, and with no expected size it is accepted and renamed. *)
Theorem attempt_other_status url output_path expected_size w old r :
  fs w !! part_path_of output_path = old ->
  net (length (sent w)) (probe url old) = Reply r ->
  status_code r <> 200 -> status_code r <> 206 ->
  let res := attempt_once net url output_path expected_size w in
  (400 <= status_code r < 600 ->
     res = (Raised, log_request (probe url old) w)) /\
  (~ 400 <= status_code r < 600 -> body_fails r = false ->
     expected_size <= 0 ->
     fst res = Downloaded /\
     fs (snd res) !! output_path
       = Some (default [] old ++ concat (body r)) /\
     fs (snd res) !! part_path_of output_path = None).
Proof.
  intros Hold Hnet H200 H206 res.
  assert (Hint : forall resume m,
            interpret_response r resume m
            = if raises_for_status (status_code r) then None
              else Some (0, resume, m)).
  { intros resume m. unfold interpret_response.
    destruct (Z.eqb_spec (status_code r) 206); [contradiction|].
    destruct (Z.eqb_spec (status_code r) 200); [contradiction|].
    reflexivity. }
  split.
  - intros Herr. unfold res, attempt_once. rewrite Hold.
    unfold probe in Hnet.
    assert (Hraise : raises_for_status (status_code r) = true).
    { unfold raises_for_status.
      destruct (Z.leb_spec 400 (status_code r)); [|lia].
      destruct (Z.ltb_spec (status_code r) 600); [reflexivity | lia]. }
    destruct old as [content|]; simpl in *;
      rewrite Hnet, Hint, Hraise; reflexivity.
  - intros Hok Hbody Hexp.
    assert (Hraise : raises_for_status (status_code r) = false).
    { unfold raises_for_status.
      destruct (Z.leb_spec 400 (status_code r)); [|reflexivity].
      destruct (Z.ltb_spec (status_code r) 600); [lia | reflexivity]. }
    pose proof (attempt_once_reply net url output_path expected_size w old r
                  0 (default 0 (len <$> old)) (initial_mode old) Hold Hnet)
      as Hres.
    rewrite Hint, Hraise in Hres. specialize (Hres eq_refl).
    fold res in Hres. cbv zeta in Hres. rewrite Hbody in Hres.
    assert (Hsmall : forall a, too_small a
              (if 0 <? expected_size then expected_size else 0) = Some false).
    { intros a. destruct (Z.ltb_spec 0 expected_size); [lia|]. reflexivity. }
    rewrite Hsmall in Hres. rewrite Hres. simpl.
    assert (Hdata : streamed (initial_mode old) old (body r)
                    = default [] old ++ concat (body r))
      by (destruct old; reflexivity).
    rewrite Hdata. split; [reflexivity|].
    split; [apply lookup_insert_eq|].
    rewrite lookup_insert_ne
      by (intros E; symmetry in E; revert E; apply part_path_ne).
    apply lookup_delete_eq.
Qed.

End TransferMore.

(** ** Cleanup pass, continued *)

Lemma NoDup_map_inj {A B} (f : A -> B) l a b :
  List.NoDup (map f l) -> In a l -> In b l -> f a = f b -> a = b.
Proof.
  induction l as [|x l IH]; simpl; intros Hnd Ha Hb E; [tauto|].
  inversion Hnd as [|? ? Hx Hl]; subst.
  destruct Ha as [<-|Ha]; destruct Hb as [<-|Hb]; try reflexivity.
  - exfalso. apply Hx. rewrite E. apply in_map. assumption.
  - exfalso. apply Hx. rewrite <- E. apply in_map. assumption.
  - auto.
Qed.

(** A directory named [*.mp4] in the relive directory for which the
    matcher finds a release makes the cleanup pass raise: [unlink] does
    not remove directories, and the function does not catch the error. *)
Theorem cleanup_relive_duplicates_raises ratio entries releases e :
  List.NoDup (map d_name entries) ->
  In e entries ->
  ends_with (str_of ".mp4") (d_name e) = true ->
  d_is_file e = false ->
  is_Some (find_matching_release ratio (d_name e) (Some releases)
             default_threshold) ->
  cleanup_relive_duplicates ratio
    {| relive_dir := Some entries; releases_dir := Some releases |} = None.
Proof.
  intros Hnd He Hmp4 Hdir [r Hmatch].
  assert (Hloop : forall snapshot cur removed,
            In e snapshot -> incl cur entries ->
            cleanup_loop ratio snapshot (Some releases) cur removed = None).
  { induction snapshot as [|x snapshot IH]; intros cur removed Hin Hincl;
      [destruct Hin|].
    cbn [cleanup_loop].
    assert (Hunlink : unlink_entry (d_name e) cur = None).
    { unfold unlink_entry.
      destruct (existsb _ cur) eqn:Hex; [|reflexivity].
      apply existsb_exists in Hex. destruct Hex as (e' & He' & Hc).
      apply andb_true_iff in Hc. destruct Hc as [Hn Hf].
      apply bool_decide_eq_true in Hn.
      assert (e' = e) by (eapply NoDup_map_inj; eauto).
      subst e'. congruence. }
    destruct (find_matching_release ratio (d_name x) (Some releases)
                default_threshold) eqn:Hx.
    - destruct (unlink_entry (d_name x) cur) as [cur'|] eqn:Hu;
        [|reflexivity].
      destruct Hin as [->|Hin]; [congruence|].
      apply IH; [assumption|].
      unfold unlink_entry in Hu. destruct (existsb _ cur); [|discriminate].
      inversion Hu; subst cur'. intros y Hy. apply filter_In in Hy.
      apply Hincl. tauto.
    - destruct Hin as [->|Hin]; [congruence|]. apply IH; assumption. }
  unfold cleanup_relive_duplicates. cbn [relive_dir releases_dir].
  rewrite Hloop; [reflexivity | | apply incl_refl].
  unfold glob_mp4. apply filter_In. auto.
Qed.

(** ** Canonical-set reconciliation, continued *)

Lemma listing_step_effect config it st st' :
  listing_step config it st = Some st' ->
  already_have st' + len (downloads st')
    = already_have st + len (downloads st) + (if usable it then 1 else 0) /\
  already_have st <= already_have st' /\
  0 <= incomplete st' - incomplete st
    <= len (downloads st') - len (downloads st) /\
  (forall p c, l_fs st' !! p = Some c -> l_fs st !! p = Some c).
Proof.
  unfold listing_step, usable.
  destruct (title_tag it) as [title_text|];
    [|intros H; inversion H; subst; repeat split; auto; lia].
  destruct (item_enclosure it) as [enc|];
    [|intros H; inversion H; subst; repeat split; auto; lia].
  destruct (int_header (enc_length enc)) as [size|]; [|discriminate].
  destruct (enc_url enc) as [[|u url]|];
    try (intros H; inversion H; subst; repeat split; auto; lia).
  destruct (sanitize_filename _ _ _) as [filename|]; [|discriminate].
  destruct (l_fs st !! _) as [content|] eqn:Hfile.
  - destruct (too_small _ _) as [[|]|]; [| |discriminate].
    + intros H. inversion H; subst; clear H. simpl. unfold len.
      rewrite length_app. simpl. repeat split; try lia.
      intros p c Hp. destruct (decide (p = config_releases_dir config
                                           ++ 47 :: filename)) as [->|Hne].
      * rewrite lookup_delete_eq in Hp. discriminate.
      * rewrite lookup_delete_ne in Hp by congruence. assumption.
    + intros H. inversion H; subst; clear H. simpl. repeat split; auto; lia.
  - intros H. inversion H; subst; clear H. simpl. unfold len.
    rewrite length_app. simpl. repeat split; auto; lia.
Qed.

Lemma listing_loop_effect config items : forall st ok st',
  listing_loop config items st = (ok, st') ->
  (ok = true ->
     already_have st' + len (downloads st')
       = already_have st + len (downloads st) + len (List.filter usable items)) /\
  already_have st <= already_have st' /\
  0 <= incomplete st' - incomplete st
    <= len (downloads st') - len (downloads st) /\
  (forall p c, l_fs st' !! p = Some c -> l_fs st !! p = Some c).
Proof.
  induction items as [|it items IH]; intros st ok st' H; simpl in H.
  - inversion H; subst. unfold len. simpl. repeat split; auto; lia.
  - destruct (listing_step config it st) as [st1|] eqn:Hstep.
    + destruct (listing_step_effect _ _ _ _ Hstep) as (H1 & Ha & H2 & H3).
      destruct (IH _ _ _ H) as (H4 & Ha' & H5 & H6).
      split; [|split; [lia | split; [lia | auto]]].
      intros Hok. specialize (H4 Hok). cbn [List.filter].
      destruct (usable it); unfold len in *; simpl length; lia.
    + inversion H; subst. repeat split; auto; try lia; discriminate.
Qed.

(** When the listing loop ends normally, every usable item of the feed is
    counted once, as already there or as queued; the items counted as
    incomplete are among the queued ones; and the loop creates and changes
    no file, it only deletes. *)
Theorem listing_loop_counts config items w st' :
  listing_loop config items
    {| l_fs := fs w; downloads := []; already_have := 0; incomplete := 0 |}
    = (true, st') ->
  already_have st' + len (downloads st') = len (List.filter usable items) /\
  0 <= incomplete st' <= len (downloads st') /\
  (forall p c, l_fs st' !! p = Some c -> fs w !! p = Some c).
Proof.
  intros H. destruct (listing_loop_effect _ _ _ _ _ H) as (H1 & _ & H2 & H3).
  specialize (H1 eq_refl). simpl in *. unfold len in *. simpl in *.
  repeat split; auto; lia.
Qed.

Section ReleasesMore.

Variable net : nat -> request -> reply.

Lemma transfer_loop_bounds dls : forall downloaded w,
  let res := transfer_loop net dls downloaded w in
  downloaded <= fst res <= downloaded + len dls /\
  (length (sent (snd res)) <= length (sent w) + 3 * length dls)%nat.
Proof.
  induction dls as [|dl dls IH]; intros downloaded w.
  - simpl. unfold len. simpl. lia.
  - cbn [transfer_loop].
    destruct (download_loop_fs net (dl_url dl) (dl_output_path dl)
                (dl_size dl) default_max_retries
                (Z.to_nat default_max_retries) 0 w) as (_ & _ & _ & Hd & _).
    fold (download_file net (dl_url dl) (dl_output_path dl) (dl_filename dl)
            (dl_size dl) default_max_retries w) in Hd.
    destruct (download_file net (dl_url dl) (dl_output_path dl)
                (dl_filename dl) (dl_size dl) default_max_retries w)
      as [ok w1].
    simpl in Hd.
    destruct (IH (if ok then downloaded + 1 else downloaded) w1) as [H1 H2].
    cbv zeta. unfold len in *. simpl length.
    change (Z.to_nat default_max_retries) with 3%nat in Hd.
    destruct ok; split; lia.
Qed.

(** [download_releases] returns a number between 0 and the number of
    usable items of the feed, and sends at most three requests for each
    of them. *)
Theorem download_releases_bounds config feed w :
  let res := download_releases net config feed w in
  let n := length (List.filter usable (default [] feed)) in
  0 <= fst res <= Z.of_nat n /\
  (length (sent (snd res)) <= length (sent w) + 3 * n)%nat.
Proof.
  unfold download_releases.
  destruct feed as [[|item0 items]|]; simpl default; try (simpl; lia).
  destruct (listing_loop config (item0 :: items) _) as [ok st] eqn:Hloop.
  destruct ok; [|simpl; lia].
  destruct (listing_loop_effect _ _ _ _ _ Hloop) as (H1 & Ha & H2 & _).
  specialize (H1 eq_refl). simpl in H1, H2, Ha.
  destruct (transfer_loop_bounds (downloads st) 0 (set_fs (l_fs st) w))
    as [H3 H4].
  cbv zeta in *. simpl in H4. unfold len in *. simpl in H1.
  cbn [List.filter]. lia.
Qed.

Lemma listing_loop_bad config items it title_text enc :
  In it items ->
  title_tag it = Some title_text -> item_enclosure it = Some enc ->
  int_header (enc_length enc) = None ->
  forall st, fst (listing_loop config items st) = false.
Proof.
  intros Hin Ht He Hbad. induction items as [|x items IH]; [destruct Hin|].
  intros st. cbn [listing_loop].
  destruct (listing_step config x st) as [st1|] eqn:Hstep; [|reflexivity].
  destruct Hin as [->|Hin]; [|apply IH; assumption].
  unfold listing_step in Hstep. rewrite Ht, He, Hbad in Hstep. discriminate.
Qed.

(** One item whose [length] attribute is not an integer spoils the whole
    cycle: [download_releases] returns 0 and sends no request, while the
    files that the listing loop has deleted before reaching the item stay
    deleted. *)
Theorem download_releases_bad_length config items it title_text enc w :
  In it items ->
  title_tag it = Some title_text -> item_enclosure it = Some enc ->
  int_header (enc_length enc) = None ->
  let res := download_releases net config (Some items) w in
  fst res = 0 /\ sent (snd res) = sent w /\ slept (snd res) = slept w /\
  fs (snd res)
    = l_fs (snd (listing_loop config items
                   {| l_fs := fs w; downloads := []; already_have := 0;
                      incomplete := 0 |})) /\
  (forall p c, fs (snd res) !! p = Some c -> fs w !! p = Some c).
Proof.
  intros Hin Ht He Hbad res.
  pose proof (listing_loop_bad config items it title_text enc Hin Ht He Hbad
                {| l_fs := fs w; downloads := []; already_have := 0;
                   incomplete := 0 |}) as Hfalse.
  unfold res, download_releases.
  destruct items as [|item0 items]; [destruct Hin|].
  destruct (listing_loop config (item0 :: items) _) as [ok st] eqn:Hloop.
  simpl in Hfalse. subst ok. simpl.
  repeat split; auto.
  destruct (listing_loop_effect _ _ _ _ _ Hloop) as (_ & _ & _ & H3). exact H3.
Qed.

End ReleasesMore.

(** ** Titles of relive pages *)

Lemma is_prefix_app p s : is_prefix p (p ++ s) = true.
Proof.
  induction p as [|a p IH]; simpl; [reflexivity|].
  rewrite Z.eqb_refl. assumption.
Qed.

Lemma is_prefix_In p : forall s c,
  is_prefix p s = true -> In c p -> In c s.
Proof.
  induction p as [|a p IH]; intros s c H Hin; [destruct Hin|].
  destruct s as [|b s]; simpl in H; [discriminate|].
  apply andb_true_iff in H. destruct H as [Hab Hp].
  apply Z.eqb_eq in Hab. subst b.
  destruct Hin as [->|Hin]; [left; reflexivity | right; eauto].
Qed.

Lemma contains_sub_In p s c :
  contains_sub p s = true -> In c p -> In c s.
Proof.
  intros H Hin. induction s as [|b s IH].
  - simpl in H. rewrite orb_false_r in H. eapply is_prefix_In; eassumption.
  - cbn [contains_sub] in H. apply orb_true_iff in H. destruct H as [H|H].
    + eapply is_prefix_In; eassumption.
    + right. auto.
Qed.

Lemma contains_sub_absent p s c :
  In c p -> ~ In c s -> contains_sub p s = false.
Proof.
  intros Hin Hs. destruct (contains_sub p s) eqn:E; [|reflexivity].
  exfalso. apply Hs. eapply contains_sub_In; eassumption.
Qed.

Lemma contains_sub_unfold p s :
  contains_sub p s
  = is_prefix p s || match s with [] => false | _ :: r => contains_sub p r end.
Proof. destruct s; reflexivity. Qed.

Lemma contains_sub_app a p s : contains_sub p (a ++ p ++ s) = true.
Proof.
  induction a as [|x a IH].
  - cbn [app]. rewrite contains_sub_unfold, is_prefix_app. reflexivity.
  - cbn [app contains_sub]. rewrite IH. apply orb_true_r.
Qed.

Lemma before_first_unfold sep s :
  before_first sep s
  = if is_prefix sep s then []
    else match s with [] => [] | c :: r => c :: before_first sep r end.
Proof. destruct s; reflexivity. Qed.

(** A separator is found first where its dash first occurs. *)
Lemma before_first_dash a d s :
  d <> 32 -> ~ In d a ->
  before_first [32; d; 32] (a ++ [32; d; 32] ++ s) = a.
Proof.
  intros Hd Ha. induction a as [|x a IH].
  - rewrite before_first_unfold. cbn [app is_prefix].
    rewrite !Z.eqb_refl. reflexivity.
  - change ((x :: a) ++ [32; d; 32] ++ s) with (x :: (a ++ [32; d; 32] ++ s)).
    rewrite before_first_unfold.
    assert (Hno : is_prefix [32; d; 32] (x :: a ++ [32; d; 32] ++ s) = false).
    { cbn [is_prefix]. destruct (Z.eqb_spec 32 x); [|reflexivity].
      destruct a as [|y a]; cbn [app].
      - destruct (Z.eqb_spec d 32); [contradiction | reflexivity].
      - destruct (Z.eqb_spec d y) as [->|]; [|reflexivity].
        exfalso. apply Ha. simpl. auto. }
    rewrite Hno. f_equal. apply IH. simpl in Ha. tauto.
Qed.

Lemma remove_all_from_skip p old s :
  remove_all_from (length p) old (p ++ s) = remove_all_from O old s.
Proof. induction p as [|a p IH]; [reflexivity | exact IH]. Qed.

Lemma remove_all_prefix old s :
  old <> [] -> remove_all old (old ++ s) = remove_all old s.
Proof.
  intros Hold. destruct old as [|c old]; [congruence|].
  unfold remove_all. change ((c :: old) ++ s) with (c :: (old ++ s)).
  cbn [remove_all_from].
  change (c :: old ++ s) with ((c :: old) ++ s).
  rewrite is_prefix_app. cbn [length Nat.pred]. apply remove_all_from_skip.
Qed.

Lemma remove_all_absent old s :
  contains_sub old s = false -> remove_all old s = s.
Proof.
  unfold remove_all. induction s as [|c s IH]; [reflexivity|].
  cbn [contains_sub remove_all_from]. intros H.
  apply orb_false_iff in H. destruct H as [H1 H2].
  rewrite H1. f_equal. auto.
Qed.

(** The title of a page [Relive: <talk> <separator> <rest>]: when the
    talk holds no dash of the separator or of a separator tried before
    it, and the rest no dash of a separator tried before it, the result
    is the talk, without a further [Relive: ] and stripped; dashes of
    the separators tried later may occur anywhere. *)
Theorem get_relive_title_talk tried d later talk rest :
  dashes = tried ++ d :: later ->
  ~ In d talk ->
  (forall c, In c tried -> ~ In c talk /\ ~ In c rest) ->
  let page := str_of "Relive: " ++ talk ++ [32; d; 32] ++ rest in
  get_relive_title (Some page)
    = Some (strip (remove_all (str_of "Relive: ") talk)) /\
  (contains_sub (str_of "Relive: ") talk = false ->
     get_relive_title (Some page) = Some (strip talk)).
Proof.
  intros Hd Htalk Htried page.
  assert (Hres : get_relive_title (Some page)
                 = Some (strip (remove_all (str_of "Relive: ") talk))).
  { assert (Hcut : cut_at_separator title_separators page
                   = str_of "Relive: " ++ talk).
    { assert (Hin : forall c, In c page ->
                      In c (str_of "Relive: ") \/ In c talk \/
                      In c [32; d; 32] \/ In c rest).
      { intros c H. unfold page in H.
        repeat (apply in_app_or in H; destruct H as [H|H]); auto. }
      assert (Hcase : forall c, c <> d -> ~ In c talk -> ~ In c rest ->
                        In c dashes ->
                        contains_sub [32; c; 32] page = false).
      { intros c Hcd Hct Hcr Hdash.
        apply (contains_sub_absent _ _ c); [simpl; auto|].
        intros H. destruct (Hin c H) as [H1|[H1|[H1|H1]]]; try tauto.
        - simpl in Hdash, H1. lia.
        - simpl in Hdash, H1. lia. }
      assert (Hfound : d <> 32 ->
                ~ In d (str_of "Relive: ") ->
                contains_sub [32; d; 32] page = true /\
                before_first [32; d; 32] page = str_of "Relive: " ++ talk).
      { intros H32 Hpre. unfold page. rewrite app_assoc. split.
        - apply contains_sub_app.
        - apply before_first_dash; [assumption|].
          intros H. apply in_app_or in H. tauto. }
      unfold dashes in Hd, Hcase. unfold title_separators.
      destruct tried as [|c1 [|c2 [|c3 tried]]]; cbn [app] in Hd;
        inversion Hd; subst; clear Hd.
      - destruct Hfound as [H1 H2]; [lia | simpl; lia|].
        cbn [cut_at_separator]. rewrite H1. exact H2.
      - destruct Hfound as [H1 H2]; [lia | simpl; lia|].
        destruct (Htried 0x2014) as [Ha Hb]; [simpl; auto|].
        cbn [cut_at_separator].
        rewrite (Hcase 0x2014) by (simpl; auto; lia).
        rewrite H1. exact H2.
      - destruct Hfound as [H1 H2]; [lia | simpl; lia|].
        destruct (Htried 0x2014) as [Ha Hb]; [simpl; auto|].
        destruct (Htried 0x2013) as [Ha' Hb']; [simpl; auto|].
        cbn [cut_at_separator].
        rewrite (Hcase 0x2014) by (simpl; auto; lia).
        rewrite (Hcase 0x2013) by (simpl; auto; lia).
        rewrite H1. exact H2.
      - destruct tried; discriminate. }
    unfold get_relive_title. fold page.
    assert (Hhas : contains_sub (str_of "Relive:") page = true).
    { change page
        with ([] ++ str_of "Relive:" ++ (32 :: talk ++ [32; d; 32] ++ rest)).
      apply contains_sub_app. }
    rewrite bool_decide_eq_false_2 by discriminate.
    rewrite Hhas. cbn [orb negb]. cbv zeta. rewrite Hcut.
    rewrite remove_all_prefix by discriminate. reflexivity. }
  split; [exact Hres|].
  intros Hno. rewrite Hres, (remove_all_absent _ _ Hno). reflexivity.
Qed.

(** ** Ephemeral-set reconciliation *)

Section ReliveMore.

Variable ratio : pystr -> pystr -> Q.
Variable net : nat -> request -> reply.
Variable title_of : pystr -> option pystr.

Lemma relive_step_effect config f relive_id st st' :
  relive_step ratio title_of config f relive_id st = Some st' ->
  rl_already_have st' + rl_has_release st' + len (rl_downloads st')
    = rl_already_have st + rl_has_release st + len (rl_downloads st)
      + (if titled title_of relive_id then 1 else 0) /\
  rl_already_have st <= rl_already_have st' /\
  rl_has_release st <= rl_has_release st' /\
  exists new,
    rl_downloads st' = rl_downloads st ++ new /\
    Forall (fun dl => rl_relive_id dl = relive_id /\
                      missing ratio title_of config f dl) new.
Proof.
  unfold relive_step, titled.
  assert (Hsame : forall k,
            k = 0 ->
            rl_already_have st + rl_has_release st + len (rl_downloads st)
              = rl_already_have st + rl_has_release st + len (rl_downloads st)
                + k /\
            rl_already_have st <= rl_already_have st /\
            rl_has_release st <= rl_has_release st /\
            exists new,
              rl_downloads st = rl_downloads st ++ new /\
              Forall (fun dl => rl_relive_id dl = relive_id /\
                                missing ratio title_of config f dl) new).
  { intros k ->. repeat split; try lia. exists []. rewrite app_nil_r. auto. }
  destruct (title_of relive_id) as [[|c title]|] eqn:Ht;
    try (intros H; inversion H; subst; apply Hsame; reflexivity).
  destruct (sanitize_filename _ _ _) as [filename|] eqn:Hname; [|discriminate].
  case_bool_decide as Hfile.
  - intros H. inversion H; subst; clear H. simpl. repeat split; try lia.
    exists []. rewrite app_nil_r. auto.
  - case_bool_decide as Hrel.
    + intros H. inversion H; subst; clear H. simpl. repeat split; try lia.
      exists []. rewrite app_nil_r. auto.
    + intros H. inversion H; subst; clear H. simpl. unfold len.
      rewrite length_app. simpl. repeat split; try lia.
      eexists. split; [reflexivity|]. constructor; [|constructor].
      unfold missing. simpl. repeat split; auto.
      * destruct (f !! _) eqn:E; [|reflexivity]. exfalso. apply Hfile. eauto.
      * destruct (find_matching_release _ _ _ _) eqn:E; [|reflexivity].
        exfalso. apply Hrel. eauto.
Qed.

Lemma relive_loop_effect config f relive_ids : forall st st',
  relive_loop ratio title_of config f relive_ids st = Some st' ->
  rl_already_have st' + rl_has_release st' + len (rl_downloads st')
    = rl_already_have st + rl_has_release st + len (rl_downloads st)
      + len (List.filter (titled title_of) relive_ids) /\
  rl_already_have st <= rl_already_have st' /\
  rl_has_release st <= rl_has_release st' /\
  exists new,
    rl_downloads st' = rl_downloads st ++ new /\
    Forall (fun dl => In (rl_relive_id dl) relive_ids /\
                      missing ratio title_of config f dl) new.
Proof.
  induction relive_ids as [|relive_id rest IH]; intros st st' H.
  - simpl in H. inversion H; subst. unfold len. simpl.
    repeat split; try lia. exists []. rewrite app_nil_r. auto.
  - cbn [relive_loop] in H.
    destruct (relive_step ratio title_of config f relive_id st) as [st1|]
      eqn:Hstep; [|discriminate].
    destruct (relive_step_effect _ _ _ _ _ Hstep)
      as (H1 & H2 & H3 & new1 & H4 & H5).
    destruct (IH _ _ H) as (H6 & H7 & H8 & new2 & H9 & H10).
    split; [|split; [lia | split; [lia|]]].
    + cbn [List.filter]. destruct (titled title_of relive_id);
        unfold len in *; simpl length; lia.
    + exists (new1 ++ new2). split; [rewrite H9, H4, app_assoc; reflexivity|].
      apply Forall_app. split.
      * eapply List.Forall_impl; [|exact H5].
        intros dl [-> Hm]. split; [left; reflexivity | assumption].
      * eapply List.Forall_impl; [|exact H10].
        intros dl [Hin Hm]. split; [right; assumption | assumption].
Qed.

(** When the listing loop of [download_relive] ends normally, every
    identifier whose page gave a title is counted once: as downloaded
    already, as released, or as queued; and each queued entry is for an
    identifier of the page, with the file name made from its title, no
    file under that name and no release that matches the title. *)
Theorem relive_loop_counts config f relive_ids st :
  relive_loop ratio title_of config f relive_ids
    {| rl_downloads := []; rl_already_have := 0; rl_has_release := 0 |}
    = Some st ->
  rl_already_have st + rl_has_release st + len (rl_downloads st)
    = len (List.filter (titled title_of) relive_ids) /\
  0 <= rl_already_have st /\ 0 <= rl_has_release st /\
  Forall (fun dl => In (rl_relive_id dl) relive_ids /\
                    missing ratio title_of config f dl) (rl_downloads st).
Proof.
  intros H.
  destruct (relive_loop_effect _ _ _ _ _ H) as (H1 & H2 & H3 & new & H4 & H5).
  simpl in *. unfold len in *. simpl in *. subst new.
  repeat split; auto; lia.
Qed.

Lemma download_loop_urls url output_path expected_size max_retries :
  forall n attempt w,
    exists rqs,
      sent (snd (download_loop net n attempt url output_path expected_size
                               max_retries w)) = sent w ++ rqs /\
      Forall (fun rq => rq_url rq = url) rqs.
Proof.
  induction n as [|n IH]; intros attempt w.
  - exists []. simpl. rewrite app_nil_r. auto.
  - cbn [download_loop].
    pose proof (attempt_once_log net url output_path expected_size w) as [Hs _].
    destruct (attempt_once net url output_path expected_size w) as [ar w1].
    simpl in Hs.
    assert (Hnext : forall w2, sent w2 = sent w1 ->
              exists rqs,
                sent (snd (download_loop net n (attempt + 1) url output_path
                             expected_size max_retries w2)) = sent w ++ rqs /\
                Forall (fun rq => rq_url rq = url) rqs).
    { intros w2 Hw2. destruct (IH (attempt + 1) w2) as (rqs & E & Hall).
      exists (probe url (fs w !! part_path_of output_path) :: rqs).
      split; [|constructor; [reflexivity | assumption]].
      rewrite E, Hw2, Hs, <- app_assoc. reflexivity. }
    destruct ar.
    + exists [probe url (fs w !! part_path_of output_path)]. simpl.
      split; [assumption|]. constructor; [reflexivity | constructor].
    + apply Hnext. reflexivity.
    + destruct (attempt <? max_retries - 1); apply Hnext; reflexivity.
Qed.

Lemma relive_transfer_loop_requests config dls : forall downloaded w,
  let res := relive_transfer_loop net config dls downloaded w in
  downloaded <= fst res <= downloaded + len dls /\
  exists rqs,
    sent (snd res) = sent w ++ rqs /\
    Forall (fun rq => exists dl, In dl dls /\
                        rq_url rq = video_url config (rl_relive_id dl)) rqs.
Proof.
  induction dls as [|dl dls IH]; intros downloaded w.
  - simpl. unfold len. simpl. split; [lia|]. exists [].
    rewrite app_nil_r. auto.
  - cbn [relive_transfer_loop]. cbv zeta.
    destruct (download_loop_urls (video_url config (rl_relive_id dl))
                (rl_output_path dl) 0 default_max_retries
                (Z.to_nat default_max_retries) 0 w) as (rqs1 & E1 & Hall1).
    fold (download_file net (video_url config (rl_relive_id dl))
            (rl_output_path dl) (rl_filename dl) 0 default_max_retries w)
      in E1.
    unfold video_url in E1 at 1.
    destruct (download_file net _ (rl_output_path dl) (rl_filename dl) 0
                default_max_retries w) as [ok w1].
    simpl in E1.
    destruct (IH (if ok then downloaded + 1 else downloaded) w1)
      as (Hcount & rqs2 & E2 & Hall2).
    split.
    + unfold len in *. simpl length. destruct ok; lia.
    + exists (rqs1 ++ rqs2).
      split; [rewrite E2, E1, app_assoc; reflexivity|].
      apply Forall_app. split.
      * eapply List.Forall_impl; [|exact Hall1].
        intros rq Hrq. exists dl. split; [left; reflexivity | assumption].
      * eapply List.Forall_impl; [|exact Hall2].
        intros rq (dl' & Hin & Hrq). exists dl'. split; [right|]; assumption.
Qed.

(** [download_relive] skips what is there already: every request it
    sends for a video goes to the URL of an identifier of the page whose
    title has, at the start, no file in the relive directory and no
    matching release.  The number returned lies between 0 and the number
    of identifiers with a title. *)
Theorem download_relive_requests config page w :
  let res := download_relive ratio net title_of config page w in
  0 <= fst res <= len (List.filter (titled title_of) (default [] page)) /\
  exists rqs,
    sent (snd res) = sent w ++ rqs /\
    Forall (fun rq =>
              exists dl,
                rq_url rq = video_url config (rl_relive_id dl) /\
                In (rl_relive_id dl) (default [] page) /\
                missing ratio title_of config (fs w) dl) rqs.
Proof.
  assert (Hnone : forall n : Z, 0 <= n ->
            0 <= 0 <= n /\
            exists rqs : list request,
              sent w = sent w ++ rqs /\
              Forall (fun rq =>
                        exists dl,
                          rq_url rq = video_url config (rl_relive_id dl) /\
                          In (rl_relive_id dl) (default [] page) /\
                          missing ratio title_of config (fs w) dl) rqs).
  { intros n Hn. split; [lia|]. exists []. rewrite app_nil_r. auto. }
  unfold download_relive.
  destruct page as [[|id0 ids]|]; try (apply Hnone; unfold len; lia).
  destruct (relive_loop ratio title_of config (fs w) (id0 :: ids) _)
    as [st|] eqn:Hloop; [|apply Hnone; unfold len; lia].
  destruct (relive_loop_effect _ _ _ _ _ Hloop)
    as (H1 & H2 & H3 & new & H4 & H5).
  cbn [rl_already_have rl_has_release rl_downloads app] in H1, H2, H3, H4.
  subst new.
  destruct (relive_transfer_loop_requests config (rl_downloads st) 0 w)
    as (Hcount & rqs & E & Hall).
  cbv zeta in *. split.
  - simpl default. unfold len in *. cbn [length] in H1. lia.
  - exists rqs. split; [assumption|].
    eapply List.Forall_impl; [|exact Hall].
    intros rq (dl & Hin & Hrq). exists dl. split; [assumption|].
    rewrite List.Forall_forall in H5. apply H5. assumption.
Qed.

End ReliveMore.

(** ** Size of a downloaded file *)

Section TransferSize.

Variable net : nat -> request -> reply.

Lemma attempt_once_size url output_path expected_size w :
  let res := attempt_once net url output_path expected_size w in
  fst res = Downloaded -> 0 < expected_size ->
  exists data,
    fs (snd res) !! output_path = Some data /\
    too_small (len data) expected_size = Some false.
Proof.
  unfold attempt_once.
  destruct (fs w !! part_path_of output_path) as [content|]; simpl.
  all: match goal with |- context [net ?n ?rq] => destruct (net n rq) as [|r] end.
  all: simpl; try discriminate.
  all: match goal with
       | |- context [interpret_response ?r ?p ?m] =>
           destruct (interpret_response r p m) as [[[total rp] m']|]
       end.
  all: simpl; try discriminate.
  all: destruct (body_fails r); simpl; try discriminate.
  all: match goal with
       | |- context [too_small ?a ?c] =>
           destruct (too_small a c) as [[|]|] eqn:Hs
       end.
  all: simpl; try discriminate.
  all: intros _ Hexp; eexists; split; [apply lookup_insert_eq|].
  all: assert (E : (0 <? expected_size) = true) by (apply Z.ltb_lt; lia).
  all: rewrite E in Hs; exact Hs.
Qed.

Lemma download_loop_size url output_path expected_size max_retries :
  forall n attempt w,
    let res := download_loop net n attempt url output_path expected_size
                             max_retries w in
    fst res = true -> 0 < expected_size ->
    exists data,
      fs (snd res) !! output_path = Some data /\
      too_small (len data) expected_size = Some false.
Proof.
  induction n as [|n IH]; intros attempt w; [discriminate|].
  cbn [download_loop].
  pose proof (attempt_once_size url output_path expected_size w) as Hsize.
  cbv zeta in Hsize.
  destruct (attempt_once net url output_path expected_size w) as [ar w1].
  destruct ar.
  - intros _ Hexp. apply Hsize; [reflexivity | assumption].
  - apply IH.
  - apply IH.
Qed.

(** [True] means that the size was tested: when [download_file] returns
    [True] for an expected size that is positive, the final file has
    passed the test [actual < expected_size * 0.99] of the source against
    the expected size, whatever the server announced and however many
    attempts it took; for an expected size up to [2^46] it holds at
    least 99 percent of that many bytes. *)
Theorem download_file_size url output_path description expected_size
    max_retries w :
  let res := download_file net url output_path description expected_size
                           max_retries w in
  fst res = true -> 0 < expected_size ->
  exists data,
    fs (snd res) !! output_path = Some data /\
    too_small (len data) expected_size = Some false /\
    (expected_size <= 2 ^ 46 -> 99 * expected_size <= 100 * len data).
Proof.
  intros res Hres Hexp.
  destruct (download_loop_size url output_path expected_size max_retries
              (Z.to_nat max_retries) 0 w Hres Hexp) as (data & Hfile & Hok).
  exists data. split; [assumption|]. split; [assumption|].
  intros Hle. rewrite too_small_exact in Hok by lia.
  inversion Hok as [Hcmp]. apply Z.ltb_ge in Hcmp. lia.
Qed.

End TransferSize.

(** ** Instances *)

Lemma preset_file_is_media_witness :
  exists filename,
    sanitize_filename (str_of "Opening Event") (str_of ".webm")
                      default_max_bytes = Some filename /\
    has_media_suffix filename
      = negb (bool_decide (str_of "Opening Event" = [])).
Proof.
  apply (preset_file_is_media (str_of "webm") (str_of ".webm")
           (str_of "Opening Event")); vm_compute; reflexivity.
Defined.

Lemma normalize_saved_name_witness :
  sanitize_filename (str_of "Opening Event") (str_of ".mp4")
                    default_max_bytes
    = Some (str_of "Opening Event" ++ str_of ".mp4") /\
  normalize_title (str_of "Opening Event" ++ str_of ".mp4")
    = normalize_title (str_of "Opening Event").
Proof.
  apply (normalize_saved_name (str_of "hd") (str_of ".mp4")
           (str_of "Opening Event")).
  - vm_compute; reflexivity.
  - discriminate.
  - vm_compute; reflexivity.
  - vm_compute; reflexivity.
  - vm_compute; discriminate.
Defined.

Lemma normalize_title_words_witness :
  exists ws, Forall stable_word ws /\
             normalize_title (str_of "Opening_Event (39C3).mp4")
               = join_space ws.
Proof.
  apply (normalize_title_words (str_of "Opening_Event (39C3).mp4")).
  vm_compute. intuition discriminate.
Defined.

Lemma normalize_title_ignores_tag_witness :
  normalize_title (str_of "Opening Event" ++ str_of " " ++ str_of "(39C3)"
                   ++ [] ++ 46 :: str_of "mp4")
  = normalize_title (str_of "Opening Event" ++ 46 :: str_of "mp4").
Proof.
  apply (normalize_title_ignores_tag (str_of "Opening Event") (str_of " ")
           (str_of "(39C3)") [] (str_of "mp4")).
  - discriminate.
  - vm_compute. intuition discriminate.
  - vm_compute. intuition discriminate.
  - vm_compute; reflexivity.
  - exists 51, 57, 67, 51. vm_compute. intuition discriminate.
  - reflexivity.
  - discriminate.
  - vm_compute. intuition discriminate.
  - vm_compute. intuition discriminate.
Defined.

Lemma find_matching_release_monotone_witness :
  is_Some (find_matching_release exact_ratio (str_of "Opening Event")
             (Some [{| d_name := str_of "opening-event.mp4";
                       d_is_file := true |}])
             (1 # 2)).
Proof.
  apply (find_matching_release_monotone exact_ratio (str_of "Opening Event")
           (Some [{| d_name := str_of "opening-event.mp4";
                     d_is_file := true |}])
           default_threshold (1 # 2)).
  - vm_compute. discriminate.
  - eexists. vm_compute. reflexivity.
Defined.

Lemma cleanup_partial_downloads_all_witness :
  let config :=
    {| relive_dir :=
         Some [{| d_name := str_of "a.mp4.part"; d_is_file := true |};
               {| d_name := str_of "b.mp4"; d_is_file := true |}];
       releases_dir := None |} in
  let after := {| relive_dir := without_part (relive_dir config);
                  releases_dir := without_part (releases_dir config) |} in
  cleanup_partial_downloads config
    = Some (after, count_partial_downloads config) /\
  count_partial_downloads after = 0.
Proof.
  apply (cleanup_partial_downloads_all
           {| relive_dir :=
                Some [{| d_name := str_of "a.mp4.part"; d_is_file := true |};
                      {| d_name := str_of "b.mp4"; d_is_file := true |}];
              releases_dir := None |}).
  - split.
    + apply List.NoDup_cons;
        [intros [H|[]]; discriminate H
        |apply List.NoDup_cons; [intros [] | apply List.NoDup_nil]].
    + repeat constructor.
  - exact I.
Defined.

Lemma download_file_resumes_witness :
  let res := download_file net_range (str_of "u") (str_of "a.mp4")
                           (str_of "a.mp4") 5 3 world_part in
  fst res = true /\
  fs (snd res) !! str_of "a.mp4" = Some ([1; 2; 3] ++ concat [[4]; [5]]) /\
  fs (snd res) !! part_path_of (str_of "a.mp4") = None /\
  sent (snd res)
    = sent world_part
      ++ [{| rq_url := str_of "u"; rq_range := Some (len [1; 2; 3]) |}] /\
  slept (snd res) = slept world_part.
Proof.
  apply (download_file_resumes net_range (str_of "u") (str_of "a.mp4")
           (str_of "a.mp4") 5 3 world_part [1; 2; 3]
           {| status_code := 206;
              content_range := Some (str_of "bytes 3-4/5");
              content_length := Some (str_of "2");
              body := [[4]; [5]];
              body_fails := false |}).
  - vm_compute; reflexivity.
  - reflexivity.
  - reflexivity.
  - vm_compute; reflexivity.
  - vm_compute; reflexivity.
  - reflexivity.
  - right. vm_compute; reflexivity.
  - vm_compute; reflexivity.
  - lia.
Defined.

Lemma attempt_other_status_witness :
  let w := {| fs := ∅; sent := []; slept := [] |} in
  let r := {| status_code := 404; content_range := None;
              content_length := None; body := [[1]]; body_fails := false |} in
  let res := attempt_once (fun _ _ => Reply r) (str_of "u") (str_of "a.mp4")
                          0 w in
  (400 <= status_code r < 600 ->
     res = (Raised, log_request (probe (str_of "u") None) w)) /\
  (~ 400 <= status_code r < 600 -> body_fails r = false ->
     0 <= 0 ->
     fst res = Downloaded /\
     fs (snd res) !! str_of "a.mp4"
       = Some (default [] None ++ concat (body r)) /\
     fs (snd res) !! part_path_of (str_of "a.mp4") = None).
Proof.
  apply (attempt_other_status
           (fun _ _ => Reply {| status_code := 404; content_range := None;
                                content_length := None; body := [[1]];
                                body_fails := false |})
           (str_of "u") (str_of "a.mp4") 0
           {| fs := ∅; sent := []; slept := [] |} None
           {| status_code := 404; content_range := None;
              content_length := None; body := [[1]]; body_fails := false |}).
  - vm_compute; reflexivity.
  - reflexivity.
  - simpl; lia.
  - simpl; lia.
Defined.

Lemma cleanup_relive_duplicates_raises_witness :
  cleanup_relive_duplicates exact_ratio
    {| relive_dir :=
         Some [{| d_name := str_of "talk.mp4"; d_is_file := false |}];
       releases_dir :=
         Some [{| d_name := str_of "talk.mp4"; d_is_file := true |}] |}
  = None.
Proof.
  apply (cleanup_relive_duplicates_raises exact_ratio
           [{| d_name := str_of "talk.mp4"; d_is_file := false |}]
           [{| d_name := str_of "talk.mp4"; d_is_file := true |}]
           {| d_name := str_of "talk.mp4"; d_is_file := false |}).
  - apply List.NoDup_cons; [intros [] | apply List.NoDup_nil].
  - left; reflexivity.
  - vm_compute; reflexivity.
  - reflexivity.
  - eexists. vm_compute. reflexivity.
Defined.

Lemma listing_loop_counts_witness :
  let config := {| config_releases_dir := str_of "releases";
                   file_extension := str_of ".mp4" |} in
  let items :=
    [{| title_tag := Some (str_of "Opening Event");
        item_enclosure :=
          Some {| enc_url := Some (str_of "u"); enc_length := Some (str_of "7") |} |};
     {| title_tag := Some (str_of "No enclosure"); item_enclosure := None |}] in
  let w := {| fs := {[ str_of "releases/Opening Event.mp4" := [1; 2; 3] ]};
              sent := []; slept := [] |} in
  let st' :=
    snd (listing_loop config items
           {| l_fs := fs w; downloads := []; already_have := 0;
              incomplete := 0 |}) in
  already_have st' + len (downloads st') = len (List.filter usable items) /\
  0 <= incomplete st' <= len (downloads st') /\
  (forall p c, l_fs st' !! p = Some c -> fs w !! p = Some c).
Proof.
  intros config items w st'.
  apply (listing_loop_counts config items w st').
  vm_compute. reflexivity.
Defined.

Lemma download_releases_bad_length_witness :
  let config := {| config_releases_dir := str_of "releases";
                   file_extension := str_of ".mp4" |} in
  let enc := {| enc_url := Some (str_of "u");
                enc_length := Some (str_of "unknown") |} in
  let it := {| title_tag := Some (str_of "Opening Event");
               item_enclosure := Some enc |} in
  let w := {| fs := ∅; sent := []; slept := [] |} in
  let res := download_releases net_down config (Some [it]) w in
  fst res = 0 /\ sent (snd res) = sent w /\ slept (snd res) = slept w /\
  fs (snd res)
    = l_fs (snd (listing_loop config [it]
                   {| l_fs := fs w; downloads := []; already_have := 0;
                      incomplete := 0 |})) /\
  (forall p c, fs (snd res) !! p = Some c -> fs w !! p = Some c).
Proof.
  intros config enc it w.
  apply (download_releases_bad_length net_down config [it] it
           (str_of "Opening Event") enc w).
  - left; reflexivity.
  - reflexivity.
  - reflexivity.
  - vm_compute; reflexivity.
Defined.

Lemma get_relive_title_talk_witness :
  let page := str_of "Relive: " ++ str_of "Hacking - an overview"
              ++ [32; 0x2013; 32] ++ str_of "39C3" in
  get_relive_title (Some page)
    = Some (strip (remove_all (str_of "Relive: ")
                              (str_of "Hacking - an overview"))) /\
  (contains_sub (str_of "Relive: ") (str_of "Hacking - an overview") = false ->
     get_relive_title (Some page) = Some (strip (str_of "Hacking - an overview"))).
Proof.
  apply (get_relive_title_talk [0x2014] 0x2013 [45]
           (str_of "Hacking - an overview") (str_of "39C3")).
  - reflexivity.
  - vm_compute. intuition discriminate.
  - intros c [<-|[]]. split; vm_compute; intuition discriminate.
Defined.

Lemma relive_loop_counts_witness :
  let title_of := fun _ : pystr => Some (str_of "Opening Event") in
  let config := {| config_relive_dir := str_of "relive";
                   config_releases := Some [];
                   relive_cdn_base := str_of "https://cdn" |} in
  let st :=
    {| rl_downloads :=
         [{| rl_relive_id := str_of "17";
             rl_title := str_of "Opening Event";
             rl_filename := str_of "Opening Event.mp4";
             rl_output_path := str_of "relive/Opening Event.mp4" |}];
       rl_already_have := 0; rl_has_release := 0 |} in
  rl_already_have st + rl_has_release st + len (rl_downloads st)
    = len (List.filter (titled title_of) [str_of "17"]) /\
  0 <= rl_already_have st /\ 0 <= rl_has_release st /\
  Forall (fun dl => In (rl_relive_id dl) [str_of "17"] /\
                    missing exact_ratio title_of config ∅ dl)
         (rl_downloads st).
Proof.
  intros title_of config st.
  apply (relive_loop_counts exact_ratio title_of config ∅ [str_of "17"] st).
  vm_compute. reflexivity.
Defined.

Lemma download_file_size_witness :
  exists data,
    fs (snd (download_file net_range (str_of "u") (str_of "a.mp4")
                           (str_of "a.mp4") 5 3 world_part))
      !! str_of "a.mp4" = Some data /\
    too_small (len data) 5 = Some false /\
    (5 <= 2 ^ 46 -> 99 * 5 <= 100 * len data).
Proof.
  apply (download_file_size net_range (str_of "u") (str_of "a.mp4")
           (str_of "a.mp4") 5 3 world_part).
  - vm_compute; reflexivity.
  - lia.
Defined.
